(** * setup-env: the .env codec and the collect / review / commit workflow

    A shallow embedding of [env_utils.go], of [model.go] and of the [main]
    function.

    - A Go [string] is an immutable sequence of bytes: [list ascii].
    - A Go [map[string]string] is a [gmap] from byte strings to byte strings;
      the two-valued lookup [v, ok := m[k]] is [m !! k].
    - The three files the program touches ([.env.example], [.env] and
      [.env.old]) are the three fields of a small file-system record.
    - The [huh] forms are outside the program: each call of [model.Update]
      receives, next to the [tea.Msg], what the form in focus reports after
      it has handled that message. *)

From Stdlib Require Import Ascii String List ZArith Bool Lia.
From stdpp Require Import base option list gmap strings.

Set Default Proof Using "Type".

Abbreviation gostring := (list ascii).
Coercion list_ascii_of_string : string >-> list.

(** Bytes that cannot be written inside a literal here. *)
Definition TAB : ascii := "009".
Definition LF : ascii := "010".
Definition CR : ascii := "013".
Definition DQUOTE : ascii := "034".
Definition BSLASH : ascii := "092".

(** ** The functions of Go's [strings] package that the program calls *)
Module strings.

(** [strings.HasPrefix(s, prefix)] *)
Fixpoint HasPrefix (s prefix : gostring) {struct prefix} : bool :=
  match prefix, s with
  | [], _ => true
  | p :: prefix', c :: s' => (c =? p)%char && HasPrefix s' prefix'
  | _ :: _, [] => false
  end.

(** [strings.Index(s, substr)]; [None] stands for Go's [-1]. *)
Fixpoint Index (s substr : gostring) : option nat :=
  if HasPrefix s substr then Some 0
  else match s with
       | [] => None
       | _ :: s' => S <$> Index s' substr
       end.

(** [strings.Contains(s, substr)] *)
Definition Contains (s substr : gostring) : bool :=
  bool_decide (is_Some (Index s substr)).

(** [strings.SplitN(s, sep, n)] for a non-empty [sep] and [n >= 0]: at most
    [n] pieces, the last one holding the unsplit rest. *)
Fixpoint splitUpTo (cuts : nat) (s sep : gostring) : list gostring :=
  match cuts with
  | O => [s]
  | S cuts' =>
      match Index s sep with
      | Some m => take m s :: splitUpTo cuts' (drop (m + length sep) s) sep
      | None => [s]
      end
  end.

Definition SplitN (s sep : gostring) (n : nat) : list gostring :=
  match n with
  | O => []
  | S cuts => splitUpTo cuts s sep
  end.

(** [strings.ContainsAny(s, chars)] for ASCII [chars]: some byte of [s] is
    one of [chars]. *)
Definition ContainsAny (s chars : gostring) : bool :=
  existsb (fun c => existsb (Ascii.eqb c) chars) s.

(** [strings.ReplaceAll(s, old, new)] for a non-empty [old]: the
    non-overlapping occurrences of [old], found from the left, are replaced
    by [new]. [skip] counts the bytes of a matched [old] still to drop.
    (Every call of the program passes an [old] of one or two bytes; the
    rune-wise insertion Go performs for an empty [old] is not modelled.) *)
Fixpoint replaceFrom (old new : gostring) (skip : nat) (s : gostring) : gostring :=
  match s with
  | [] => []
  | c :: rest =>
      match skip with
      | S k => replaceFrom old new k rest
      | O =>
          if HasPrefix s old
          then new ++ replaceFrom old new (length old - 1) rest
          else c :: replaceFrom old new 0 rest
      end
  end.

Definition ReplaceAll (s old new : gostring) : gostring :=
  match old with
  | [] => s
  | _ :: _ => replaceFrom old new 0 s
  end.

(** [unicode.IsSpace] seen through UTF-8. One byte: TAB, LF, VT, FF, CR,
    space. Two bytes: U+0085 and U+00A0. Three bytes: U+1680,
    U+2000..U+200A, U+2028, U+2029, U+202F, U+205F and U+3000. Any other
    byte sequence decodes to a rune that is not white space (an invalid
    one decodes to U+FFFD). *)
Definition isSpace1 (c : ascii) : bool :=
  ((c =? "009") || (c =? "010") || (c =? "011") || (c =? "012")
   || (c =? "013") || (c =? " "))%char.

Definition isSpace2 (c d : ascii) : bool :=
  ((c =? "194") && ((d =? "133") || (d =? "160")))%char.

Definition isSpace3 (c d e : ascii) : bool :=
  ((c =? "225")%char && (d =? "154")%char && (e =? "128")%char)
  || ((c =? "226")%char && (d =? "128")%char
      && (((128 <=? N_of_ascii e)%N && (N_of_ascii e <=? 138)%N)
          || (e =? "168")%char || (e =? "169")%char || (e =? "175")%char))
  || ((c =? "226")%char && (d =? "129")%char && (e =? "159")%char)
  || ((c =? "227")%char && (d =? "128")%char && (e =? "128")%char).

(** Runes are decoded at the head of [s] and dropped while they are white
    space: [one], [two] and [three] recognise a white-space rune of one,
    two and three bytes. *)
Fixpoint dropRunes (one : ascii -> bool) (two : ascii -> ascii -> bool)
    (three : ascii -> ascii -> ascii -> bool) (s : gostring) : gostring :=
  match s with
  | [] => []
  | c :: s1 =>
      if one c then dropRunes one two three s1
      else match s1 with
           | [] => s
           | d :: s2 =>
               if two c d then dropRunes one two three s2
               else match s2 with
                    | [] => s
                    | e :: s3 =>
                        if three c d e then dropRunes one two three s3 else s
                    end
           end
  end.

(** [strings.TrimLeftFunc(s, unicode.IsSpace)] *)
Definition trimLeft (s : gostring) : gostring :=
  dropRunes isSpace1 isSpace2 isSpace3 s.

(** [strings.TrimRightFunc(s, unicode.IsSpace)] on the reversed string:
    [utf8.DecodeLastRuneInString] finds the last rune by walking back from
    the last byte to a lead byte, so the bytes of a rune are met last
    byte first. *)
Definition trimRightRev (r : gostring) : gostring :=
  dropRunes isSpace1 (fun c d => isSpace2 d c) (fun c d e => isSpace3 e d c) r.

Definition trimRight (s : gostring) : gostring := rev (trimRightRev (rev s)).

(** [strings.TrimSpace(s)] *)
Definition TrimSpace (s : gostring) : gostring := trimRight (trimLeft s).

End strings.

(** Go's slice expression [s[lo:hi]] (for [lo <= hi <= len(s)]). *)
Definition slice (s : gostring) (lo hi : nat) : gostring := drop lo (take hi s).

(** ** [bufio.Scanner] with the default [ScanLines] split function *)
Module bufio.

Definition MaxScanTokenSize : Z := 65536.

(** The pieces of [data] between line feeds; the last piece is what follows
    the last line feed (all of [data] when there is none). *)
Fixpoint pieces (data : gostring) : list gostring :=
  match data with
  | [] => [[]]
  | c :: rest =>
      if (c =? LF)%char then [] :: pieces rest
      else match pieces rest with
           | p :: ps => (c :: p) :: ps
           | [] => [[c]]
           end
  end.

(** [dropCR]: one trailing carriage return is removed from a line. *)
Definition dropCR (line : gostring) : gostring :=
  match rev line with
  | c :: r => if (c =? CR)%char then rev r else line
  | [] => line
  end.

Definition tooLong (piece : gostring) : bool :=
  (MaxScanTokenSize <=? Z.of_nat (length piece))%Z.

(** The lines [Scan] yields, and whether [Err] is [ErrTooLong] afterwards.
    A final piece that is empty is no line. A piece that does not fit the
    buffer together with its line feed stops the scan. *)
Fixpoint scan (ps : list gostring) : list gostring * bool :=
  match ps with
  | [] => ([], false)
  | [final] =>
      if bool_decide (final = []) then ([], false)
      else if tooLong final then ([], true)
      else ([dropCR final], false)
  | p :: rest =>
      if tooLong p then ([], true)
      else let '(ls, e) := scan rest in (dropCR p :: ls, e)
  end.

Definition Lines (data : gostring) : list gostring * bool := scan (pieces data).

End bufio.

(** ** Errors and files *)

Inductive error : Type :=
| ErrNotExist                              (* open: no such file or directory *)
| ErrIsDir                                 (* read or create: is a directory *)
| ErrTooLong                               (* bufio.Scanner: token too long *)
| ErrorsNew (text : string)
| Errorf (format : string) (cause : error).

#[global] Instance error_eq_dec : EqDecision error.
Proof. solve_decision. Defined.

(** What a path names. *)
Inductive node : Type :=
| Missing
| Directory
| Regular (content : gostring).

#[global] Instance node_eq_dec : EqDecision node.
Proof. solve_decision. Defined.

(** ** env_utils.go *)

(** [EnvVar] holds a key and its description from the .env.example file. *)
Record EnvVar : Type := mkEnvVar {
  Key : gostring;
  Description : gostring;
  ExampleValue : gostring;
}.

(** The test both readers make of a value: at least two bytes, the first
    and the last of which are double quotes. *)
Definition quoted (v : gostring) : bool :=
  (2 <=? length v) && bool_decide (head v = Some DQUOTE) && bool_decide (last v = Some DQUOTE).

(** The two [ReplaceAll] calls that both readers apply to [v[1:len(v)-1]]. *)
Definition unescape (unquotedValue : gostring) : gostring :=
  let unquotedValue := strings.ReplaceAll unquotedValue [BSLASH; BSLASH] [BSLASH] in
  let unquotedValue := strings.ReplaceAll unquotedValue [BSLASH; DQUOTE] [DQUOTE] in
  unquotedValue.

(** The body of the scanner loop of [readEnvVarsFromFile]: the [EnvVar] a
    template line appends, if any. *)
Definition templateLine (line : gostring) : option EnvVar :=
  let lineForParsing := strings.TrimSpace line in
  if bool_decide (lineForParsing = []) || strings.HasPrefix lineForParsing "#" then None
  else
    let '(description, keyValuePart) :=
      match strings.Index lineForParsing "#" with
      | Some commentIdx =>
          (strings.TrimSpace (drop (commentIdx + 1) lineForParsing),
           strings.TrimSpace (take commentIdx lineForParsing))
      | None => ([], lineForParsing)
      end in
    match strings.SplitN keyValuePart "=" 2 with
    | [] => None
    | part0 :: rest =>
        let key := strings.TrimSpace part0 in
        let exampleValue :=
          match rest with
          | [part1] =>
              let valStr := strings.TrimSpace part1 in
              if quoted valStr then unescape (slice valStr 1 (length valStr - 1))
              else if negb (bool_decide (valStr = [])) then valStr
              else []
          | _ => []
          end in
        if negb (bool_decide (key = []))
        then Some (mkEnvVar key description exampleValue)
        else None
    end.

(** [readEnvVarsFromFile]: the template is read line by line. *)
Definition readEnvVarsFromFile (file : node) : list EnvVar * option error :=
  match file with
  | Missing => ([], Some ErrNotExist)
  | Directory => ([], Some (Errorf "scanning %s: %w" ErrIsDir))
  | Regular content =>
      let '(lines, tooLong) := bufio.Lines content in
      if tooLong then ([], Some (Errorf "scanning %s: %w" ErrTooLong))
      else (omap templateLine lines, None)
  end.

(** The body of the scanner loop of [readExistingEnvFile]: the assignment
    [values[key] = value] a line of the target file performs, if any. *)
Definition existingLine (text : gostring) : option (gostring * gostring) :=
  let line := strings.TrimSpace text in
  if bool_decide (line = []) || strings.HasPrefix line "#" then None
  else
    match strings.SplitN line "=" 2 with
    | [part0; part1] =>
        let key := strings.TrimSpace part0 in
        let value := part1 in
        let value :=
          if quoted value then unescape (slice value 1 (length value - 1))
          else value in
        Some (key, value)
    | _ => None
    end.

Definition assign (values : gmap gostring gostring) (kv : gostring * gostring)
  : gmap gostring gostring :=
  <[kv.1 := kv.2]> values.

(** [readExistingEnvFile]: a missing file is an empty map and no error; a
    failed scan returns the entries read so far together with the error. *)
Definition readExistingEnvFile (file : node)
  : gmap gostring gostring * option error :=
  match file with
  | Missing => (∅, None)
  | Directory =>
      (∅, Some (Errorf "error reading %s during scan: %w" ErrIsDir))
  | Regular content =>
      let '(lines, tooLong) := bufio.Lines content in
      let values := foldl assign ∅ (omap existingLine lines) in
      (values,
       if tooLong
       then Some (Errorf "error reading %s during scan: %w" ErrTooLong)
       else None)
  end.

(** The literal that [writeEnvFile] passes to [strings.ContainsAny]: space,
    hash, equals sign, double quote, dollar, backslash, backtick, line feed
    and carriage return. *)
Definition quotingChars : gostring :=
  [" "; "#"; "="; DQUOTE; "$"; BSLASH; "`"; LF; CR]%char.

(** The body of the loop of [writeEnvFile]. *)
Definition needsQuoting (value : gostring) : bool :=
  if bool_decide (value = []) then true
  else strings.ContainsAny value quotingChars.

Definition outputValue (value : gostring) : gostring :=
  if needsQuoting value then
    let escaped := strings.ReplaceAll value [BSLASH] [BSLASH; BSLASH] in
    let escaped := strings.ReplaceAll escaped [DQUOTE] [BSLASH; DQUOTE] in
    let escaped := strings.ReplaceAll escaped [LF] [BSLASH; "n"%char] in
    let escaped := strings.ReplaceAll escaped [CR] [BSLASH; "r"%char] in
    [DQUOTE] ++ escaped ++ [DQUOTE]
  else value.

(** The line that [fmt.Sprintf] formats: key, equals sign, written value,
    line feed. *)
Definition encodeEntry (key value : gostring) : gostring :=
  key ++ "=" ++ outputValue value ++ [LF].

(** ** The files of the working directory *)

Record FS : Type := mkFS {
  dotEnvExample : node;     (* .env.example *)
  dotEnv : node;            (* .env, also [envOutputFilePath] *)
  dotEnvOld : node;         (* .env.old *)
}.

#[global] Instance FS_eq_dec : EqDecision FS.
Proof. solve_decision. Defined.

(** What the program prints, call by call: [fmt.Println(text)] and
    [fmt.Printf(format, err)]. A text is kept without the line feeds at its
    two ends: the one [Println] adds, and the ones a literal of the source
    starts or ends with. *)
Inductive output : Type :=
| Println (text : string)
| Printf (format : string) (arg : error).

(** Go does not say in which order [range] visits the entries of a map,
    only that it visits each of them once. The program ranges over a map in
    one place, the loop of [writeEnvFile], which a run reaches at most
    once. *)
Record Range : Type := mkRange {
  visit : gmap gostring gostring -> list (gostring * gostring);
  visit_all : forall values, visit values ≡ₚ map_to_list values;
}.

(** The files, what has been printed, and the order in which this execution
    ranges over a map. *)
Record World : Type := mkWorld {
  fs : FS;
  stdout : list output;
  ranging : Range;
}.

Definition print (o : output) (w : World) : World :=
  mkWorld (fs w) (stdout w ++ [o]) (ranging w).

(** The file [writeEnvFile] writes when the map is ranged over in the order
    [kvs]. *)
Definition entries (kvs : list (gostring * gostring)) : gostring :=
  concat (map (fun kv => encodeEntry kv.1 kv.2) kvs).

(** [writeEnvFile]: [os.Create] truncates a regular file, creates a missing
    one and fails on a directory. Go leaves the order of [range values]
    open: the entries are written in the order in which [order] visits
    them. A failing [WriteString] (a full disk) is not modelled. *)
Definition writeEnvFile (order : Range) (values : gmap gostring gostring)
    (files : FS) : FS * option error :=
  match dotEnv files with
  | Directory => (files, Some ErrIsDir)
  | _ =>
      (mkFS (dotEnvExample files) (Regular (entries (visit order values)))
            (dotEnvOld files),
       None)
  end.

(** [backupEnvFile(srcPath, dstPath)] on the nodes the two paths name: the
    new node at [dstPath] and the error. *)
Definition backupEnvFile (src dst : node) : node * option error :=
  match src with
  | Missing => (dst, Some (Errorf "failed to open source file %s: %w" ErrNotExist))
  | _ =>
      match dst with
      | Directory =>
          (dst, Some (Errorf "failed to create destination file %s: %w" ErrIsDir))
      | _ =>
          match src with
          | Regular content => (Regular content, None)
          | _ => (Regular [], Some (Errorf "failed to copy from %s to %s: %w" ErrIsDir))
          end
      end
  end.

(** ** model.go *)

(** [huh.FormState] *)
Inductive FormState : Type := StateNormal | StateCompleted | StateAborted.

#[global] Instance FormState_eq_dec : EqDecision FormState.
Proof. solve_decision. Defined.

(** A [huh.Field]: a text input with the string behind its value pointer,
    or a field of another kind. *)
Inductive Field : Type :=
| Input (value : gostring)
| OtherField.

(** [tea.Msg] *)
Inductive Msg : Type :=
| WindowSizeMsg (Width Height : Z)
| KeyMsg (keystroke : gostring)
| OtherMsg.

(** [tea.Cmd], as far as the program tells them apart. *)
Inductive Cmd : Type := Quit | Batch.

Record model : Type := mkModel {
  form : FormState;                           (* m.form.State *)
  envVars : list EnvVar;
  existingEnvValues : gmap gostring gostring;
  fields : list Field;
  width : Z;
  height : Z;
  quitting : bool;
  err : option error;
  confirming : bool;
  confirmForm : option FormState;             (* nil, or m.confirmForm.State *)
  envValuesToSave : gmap gostring gostring;
  applyChanges : bool;
  diffSummary : gostring;
}.

Definition initialModel : model :=
  mkModel StateNormal [] ∅ [] 0 0 false None false None ∅ true [].

(** Assignments to single fields of [*model]. *)
Definition setQuitting (m : model) : model :=
  mkModel (form m) (envVars m) (existingEnvValues m) (fields m) (width m) (height m)
          true (err m) (confirming m) (confirmForm m) (envValuesToSave m)
          (applyChanges m) (diffSummary m).

Definition setErr (e : error) (m : model) : model :=
  mkModel (form m) (envVars m) (existingEnvValues m) (fields m) (width m) (height m)
          (quitting m) (Some e) (confirming m) (confirmForm m) (envValuesToSave m)
          (applyChanges m) (diffSummary m).

Definition setSize (w h : Z) (m : model) : model :=
  mkModel (form m) (envVars m) (existingEnvValues m) (fields m) w h
          (quitting m) (err m) (confirming m) (confirmForm m) (envValuesToSave m)
          (applyChanges m) (diffSummary m).

Definition setDiffSummary (s : gostring) (m : model) : model :=
  mkModel (form m) (envVars m) (existingEnvValues m) (fields m) (width m) (height m)
          (quitting m) (err m) (confirming m) (confirmForm m) (envValuesToSave m)
          (applyChanges m) s.

(** The priority of the value an input starts with. *)
Definition initialValue (existing : gmap gostring gostring) (envVar : EnvVar)
  : gostring :=
  let localKey := Key envVar in
  let initialValue := default [] (existing !! localKey) in
  let valueExistsInEnv := bool_decide (is_Some (existing !! localKey)) in
  if negb valueExistsInEnv || bool_decide (initialValue = []) then
    if negb (bool_decide (ExampleValue envVar = [])) then ExampleValue envVar
    else initialValue
  else initialValue.

(** [model.Init] *)
Definition Init (m : model) (w : World) : model * World * Cmd :=
  let '(vars, readErr) := readEnvVarsFromFile (dotEnvExample (fs w)) in
  let m := mkModel (form m) vars (existingEnvValues m) (fields m) (width m)
                   (height m) (quitting m) (err m) (confirming m) (confirmForm m)
                   (envValuesToSave m) (applyChanges m) (diffSummary m) in
  match readErr with
  | Some e =>
      (setErr
         (Errorf "Error reading .env.example: %w. Please create one to use as a template." e)
         m,
       w, Quit)
  | None =>
      if bool_decide (length vars = 0) then
        (setErr (ErrorsNew "No environment variables found in .env.example.") m, w, Quit)
      else
        let '(existing, existingErr) := readExistingEnvFile (dotEnv (fs w)) in
        let '(existing, w) :=
          match existingErr with
          | Some e =>
              (∅, print (Printf "Warning: could not read existing .env file to prefill: %v" e) w)
          | None => (existing, w)
          end in
        (mkModel StateNormal vars existing
                 (map (fun envVar => Input (initialValue existing envVar)) vars)
                 (width m) (height m) (quitting m) (err m) (confirming m)
                 (confirmForm m) (envValuesToSave m) (applyChanges m) (diffSummary m),
         w, Batch)
  end.

(** One entry of the diff: the arguments of the [fmt.Sprintf] call that
    formats its line. *)
Inductive ChangeRecord : Type :=
| Added (key newValue : gostring)
| Changed (key oldValue newValue : gostring)
| Cleared (key oldValue : gostring).

#[global] Instance ChangeRecord_eq_dec : EqDecision ChangeRecord.
Proof. solve_decision. Defined.

Definition recordKey (r : ChangeRecord) : gostring :=
  match r with
  | Added key _ | Changed key _ _ | Cleared key _ => key
  end.

(** The [fmt.Sprintf] calls of [prepareForConfirmation]. *)
Definition diffLine (r : ChangeRecord) : gostring :=
  match r with
  | Added key newValue =>
      "+ Added: " ++ key ++ "=" ++ [DQUOTE] ++ newValue ++ [DQUOTE]
  | Cleared key oldValue =>
      "~ Cleared: " ++ key ++ " (was " ++ [DQUOTE] ++ oldValue ++ [DQUOTE] ++ ")"
  | Changed key oldValue newValue =>
      "~ Changed: " ++ key ++ ": " ++ [DQUOTE] ++ oldValue ++ [DQUOTE] ++ " -> "
        ++ [DQUOTE] ++ newValue ++ [DQUOTE]
  end.

(** [strings.Join(elems, sep)] *)
Fixpoint Join (elems : list gostring) (sep : gostring) : gostring :=
  match elems with
  | [] => []
  | [e] => e
  | e :: rest => e ++ sep ++ Join rest sep
  end.

(** The first loop of [prepareForConfirmation]: [collectedEnvValues] is
    filled from the inputs, field [i] for variable [i]. A field that is no
    input is an error; a missing field is Go's index-out-of-range panic. *)
Fixpoint collect (i : nat) (vars : list EnvVar) (inputs : list Field)
    (collectedEnvValues : gmap gostring gostring)
  : gmap gostring gostring + error :=
  match vars with
  | [] => inl collectedEnvValues
  | envVar :: rest =>
      match inputs !! i with
      | Some (Input val) =>
          collect (S i) rest inputs (<[Key envVar := val]> collectedEnvValues)
      | Some OtherField =>
          inr (ErrorsNew "error: could not cast field for key %s to huh.Input")
      | None => inr (ErrorsNew "panic: runtime error: index out of range")
      end
  end.

(** The body of the second loop of [prepareForConfirmation], on the pair
    [(diffLines, changed)]. A missing key of a Go map reads as the empty
    string. *)
Definition diffStep (existing collected : gmap gostring gostring)
    (acc : list ChangeRecord * bool) (envVar : EnvVar) : list ChangeRecord * bool :=
  let '(diffLines, changed) := acc in
  let key := Key envVar in
  let oldValue := default [] (existing !! key) in
  let oldExists := bool_decide (is_Some (existing !! key)) in
  let newValue := default [] (collected !! key) in
  if negb oldExists && negb (bool_decide (newValue = [])) then
    (diffLines ++ [Added key newValue], true)
  else if oldExists && negb (bool_decide (newValue = oldValue)) then
    if bool_decide (newValue = []) then (diffLines ++ [Cleared key oldValue], true)
    else (diffLines ++ [Changed key oldValue newValue], true)
  else if negb oldExists && bool_decide (newValue = []) then
    (diffLines ++ [Added key []], true)
  else (diffLines, changed).

Definition diffLoop (existing collected : gmap gostring gostring)
    (vars : list EnvVar) : list ChangeRecord * bool :=
  foldl (diffStep existing collected) ([], false) vars.

(** The diff engine of the specification: the records of the second loop. *)
Definition computeChanges (old new : gmap gostring gostring) (vars : list EnvVar)
  : list ChangeRecord :=
  (diffLoop old new vars).1.

(** [prepareForConfirmation] *)
Definition prepareForConfirmation (m : model) : model * option error :=
  match collect 0 (envVars m) (fields m) ∅ with
  | inr e => (m, Some e)
  | inl collectedEnvValues =>
      let '(diffLines, changed) :=
        diffLoop (existingEnvValues m) collectedEnvValues (envVars m) in
      if negb changed then
        (setQuitting (setDiffSummary "No changes to apply to .env file." m), None)
      else
        (mkModel (form m) (envVars m) (existingEnvValues m) (fields m) (width m)
                 (height m) (quitting m) (err m) true (Some StateNormal)
                 collectedEnvValues (applyChanges m)
                 (Join (map diffLine diffLines) [LF]),
         None)
  end.

(** [actuallyWriteEnvFile] *)
Definition actuallyWriteEnvFile (envValues : gmap gostring gostring) (w : World)
  : World * option error :=
  let w :=
    match dotEnv (fs w) with
    | Regular _ =>
        let w := print (Println "Backing up existing .env to .env.old...") w in
        let '(old', backupErr) := backupEnvFile (dotEnv (fs w)) (dotEnvOld (fs w)) in
        let w := mkWorld (mkFS (dotEnvExample (fs w)) (dotEnv (fs w)) old') (stdout w)
                         (ranging w) in
        match backupErr with
        | Some e => print (Printf "Warning: Failed to backup .env: %v" e) w
        | None => print (Println "Successfully backed up .env to .env.old.") w
        end
    | Directory =>
        print (Println "Warning: .env exists but is a directory. Skipping backup.") w
    | Missing => w
    end in
  let '(files', writeErr) := writeEnvFile (ranging w) envValues (fs w) in
  let w := mkWorld files' (stdout w) (ranging w) in
  match writeErr with
  | Some e =>
      (print (Printf "Error writing .env file: %v" e) w,
       Some (Errorf "error writing .env file: %w" e))
  | None => (print (Println "✅ Successfully updated the .env file!") w, None)
  end.

(** What reaches [model.Update]: the message, and what the form in focus
    shows once its own [Update] has handled it: its state, the text of each
    input (main form), the value stored through [&m.applyChanges] (confirm
    form). *)
Record Event : Type := mkEvent {
  msg : Msg;
  formAfter : FormState;
  inputsAfter : list gostring;
  choiceAfter : bool;
}.

(** The main form writes the texts through the value pointers of its
    inputs, the first text into the first field and so on; it neither adds
    nor removes fields. *)
Fixpoint typeInto (inputs : list Field) (texts : list gostring) : list Field :=
  match inputs with
  | [] => []
  | f :: inputs' =>
      match f with
      | Input old => Input (default old (head texts))
      | OtherField => OtherField
      end :: typeInto inputs' (tail texts)
  end.

(** [model.Update]. The switch on the message comes first and yields the
    model on which the forms act ([inl]) or the early return on ctrl+c
    ([inr]). A nil [confirmForm] in the confirming branch is Go's nil-pointer
    panic, which ends the program; the model records it in [err]. The line
    feeds around the printed texts are left out. *)
Definition Update (m : model) (w : World) (ev : Event) : model * World * Cmd :=
  if bool_decide (is_Some (err m)) then (m, w, Quit)
  else if quitting m then (m, w, Quit)
  else
    let keyed :=
      match msg ev with
      | WindowSizeMsg wd ht => inl (setSize wd ht m)
      | KeyMsg keystroke =>
          if bool_decide (keystroke = "ctrl+c") then inr (setQuitting m) else inl m
      | OtherMsg => inl m
      end in
    match keyed with
    | inr m => (m, w, Quit)
    | inl m =>
        if confirming m then
          match confirmForm m with
          | None =>
              (setQuitting (setErr (ErrorsNew "panic: runtime error: nil pointer dereference") m),
               w, Quit)
          | Some _ =>
              let m :=
                mkModel (form m) (envVars m) (existingEnvValues m) (fields m)
                        (width m) (height m) (quitting m) (err m) (confirming m)
                        (Some (formAfter ev)) (envValuesToSave m) (choiceAfter ev)
                        (diffSummary m) in
              match formAfter ev with
              | StateCompleted =>
                  if applyChanges m then
                    let '(w, writeErr) := actuallyWriteEnvFile (envValuesToSave m) w in
                    match writeErr with
                    | Some e => (setQuitting (setErr e m), w, Quit)
                    | None => (setQuitting m, w, Quit)
                    end
                  else
                    (setQuitting m, print (Println "Changes discarded by user.") w, Quit)
              | StateAborted =>
                  (setQuitting m,
                   print (Println "Save operation cancelled by user.") w, Quit)
              | StateNormal => (m, w, Batch)
              end
          end
        else
          let m :=
            mkModel (formAfter ev) (envVars m) (existingEnvValues m)
                    (typeInto (fields m) (inputsAfter ev)) (width m) (height m)
                    (quitting m) (err m) (confirming m) (confirmForm m)
                    (envValuesToSave m) (applyChanges m) (diffSummary m) in
          match form m with
          | StateCompleted =>
              let '(m, prepErr) := prepareForConfirmation m in
              match prepErr with
              | Some e => (setQuitting (setErr e m), w, Quit)
              | None => if quitting m then (m, w, Quit) else (m, w, Batch)
              end
          | StateAborted =>
              (setQuitting m,
               print (Println "Operation cancelled by user (main form aborted).") w,
               Quit)
          | StateNormal => (m, w, Batch)
          end
    end.

(** The program: [Init], then one [Update] per event. *)
Definition step (s : model * World) (ev : Event) : model * World :=
  (Update s.1 s.2 ev).1.

Definition run (w0 : World) (events : list Event) : model * World :=
  foldl step (Init initialModel w0).1 events.

(** [model.View]. The two forms draw themselves: [formView] and
    [confirmFormView] stand for [m.form.View()] and [m.confirmForm.View()],
    and [Error] for the [Error] method of Go's errors, which [%v] prints.
    As in the record [model], a main form that [Init] has not built is not
    told apart from one in its normal state; along a run, [View] reaches
    for the main form only once [Init] has built it. *)
Definition View (Error : error -> gostring) (formView confirmFormView : gostring)
    (m : model) : gostring :=
  match err m with
  | Some e => [LF] ++ "Error: " ++ Error e ++ [LF]
  | None =>
      if quitting m then []
      else if confirming m && bool_decide (is_Some (confirmForm m)) then
        "Proposed changes:" ++ [LF] ++ diffSummary m ++ [LF; LF] ++ confirmFormView
      else formView
  end.

(** ** The [main] function *)

(** The text that [prepareForConfirmation] stores when nothing changed, and
    that [main] compares the summary with. *)
Definition noChanges : gostring := "No changes to apply to .env file.".

(** [main], from the point where [p.Run()] has returned the final model
    [fm] and no error of its own: what is printed, and whether [os.Exit(1)]
    is called. As in [Update], the line feeds around the printed texts are
    left out. *)
Definition main (Error : error -> gostring) (fm : model) : list output * bool :=
  match err fm with
  | Some e =>
      (if negb (bool_decide (diffSummary fm = noChanges))
          || negb (bool_decide (Error e = []))
       then [Printf "%v" e] else [],
       strings.Contains (Error e) ".env.example file not found"
       || strings.Contains (Error e) "No environment variables found")
  | None =>
      (if bool_decide (diffSummary fm = noChanges) && negb (confirming fm)
       then [Println (string_of_list_ascii (diffSummary fm))] else [],
       false)
  end.

(** * Notions of the specification *)

(** ** Codec *)

(** The characters that force quoting, as the specification lists them. *)
Definition disallowed (c : ascii) : Prop :=
  c = " "%char \/ c = "#"%char \/ c = "="%char \/ c = DQUOTE \/ c = "$"%char
  \/ c = BSLASH \/ c = "`"%char \/ c = LF \/ c = CR.

Definition mustQuote (value : gostring) : Prop :=
  value = [] \/ exists c, c ∈ value /\ disallowed c.

(** Every occurrence of the byte [c] becomes the bytes [by_]. *)
Definition substitute (c : ascii) (by_ : gostring) (s : gostring) : gostring :=
  concat (map (fun x => if (x =? c)%char then by_ else [x]) s).

(** The four escapes of the specification, applied in its order. *)
Definition escapeInOrder (value : gostring) : gostring :=
  substitute CR [BSLASH; "r"%char]
    (substitute LF [BSLASH; "n"%char]
       (substitute DQUOTE [BSLASH; DQUOTE]
          (substitute BSLASH [BSLASH; BSLASH] value))).

(** The value both readers make of the text [v] after the equals sign. *)
Definition valueOf (v : gostring) : gostring :=
  if quoted v then unescape (slice v 1 (length v - 1)) else v.

(** A reference reading of escaped text in one pass from the left: a
    backslash followed by a backslash or a double quote stands for that
    second byte. It is not part of the program. *)
Fixpoint readEscapes (s : gostring) : gostring :=
  match s with
  | [] => []
  | c :: rest =>
      if (c =? BSLASH)%char then
        match rest with
        | d :: rest' =>
            if (d =? BSLASH)%char || (d =? DQUOTE)%char then d :: readEscapes rest'
            else c :: readEscapes rest
        | [] => [c]
        end
      else c :: readEscapes rest
  end.

(** An ASCII byte that is not white space: it is part of no white-space
    rune. *)
Definition plain (b : ascii) : Prop :=
  (N_of_ascii b < 128)%N /\ strings.isSpace1 b = false.

(** A white-space rune stands at the head of [s]. *)
Definition headRune (one : ascii -> bool) (two : ascii -> ascii -> bool)
    (three : ascii -> ascii -> ascii -> bool) (s : gostring) : bool :=
  match s with
  | [] => false
  | c :: s1 =>
      one c
      || match s1 with
         | [] => false
         | d :: s2 =>
             two c d
             || match s2 with
                | [] => false
                | e :: _ => three c d e
                end
         end
  end.

(** A key as [readEnvVarsFromFile] produces them: trimmed, not empty, and
    free of equals signs, hashes and line feeds. *)
Definition wfKey (k : gostring) : Prop :=
  strings.TrimSpace k = k /\ k <> [] /\ (("=" : ascii) ∉ k)
  /\ (("#" : ascii) ∉ k) /\ (LF ∉ k).

(** The line [writeEnvFile] writes for one entry, without its line feed. *)
Definition lineOf (kv : gostring * gostring) : gostring :=
  kv.1 ++ "=" ++ outputValue kv.2.

(** ** Diff engine *)

(** The record the specification prescribes for one key. *)
Definition recordFor (old new : gmap gostring gostring) (key : gostring)
  : option ChangeRecord :=
  let newValue := default [] (new !! key) in
  match old !! key with
  | None =>
      if bool_decide (newValue = []) then Some (Added key [])
      else Some (Added key newValue)
  | Some oldValue =>
      if bool_decide (newValue = oldValue) then None
      else if bool_decide (newValue = []) then Some (Cleared key oldValue)
      else Some (Changed key oldValue newValue)
  end.

(** ** Workflow *)

(** The states of the workflow, as the specification names them. *)
Inductive WorkflowState : Type :=
| Collecting
| Reviewing
| Committing
| Done
| Aborted
| Failed (reason : error).

#[global] Instance WorkflowState_eq_dec : EqDecision WorkflowState.
Proof. solve_decision. Defined.

(** The state a model is in between two calls of [Update], read off its
    flags. [Committing] lasts only within one call, see [commits]. *)
Definition phase (m : model) : WorkflowState :=
  match err m with
  | Some e => Failed e
  | None =>
      if quitting m then
        if confirming m then
          if bool_decide (confirmForm m = Some StateCompleted) && applyChanges m
          then Done else Aborted
        else if bool_decide (form m = StateCompleted) then Done else Aborted
      else if confirming m then Reviewing else Collecting
  end.

(** The message is the interrupt key. *)
Definition interrupts (ev : Event) : bool :=
  match msg ev with
  | KeyMsg keystroke => bool_decide (keystroke = "ctrl+c")
  | _ => false
  end.

(** [Update m w ev] passes through [Committing]: the confirmation form
    completes with an affirmative answer, and [actuallyWriteEnvFile] runs. *)
Definition commits (m : model) (ev : Event) : bool :=
  bool_decide (phase m = Reviewing) && negb (interrupts ev)
  && bool_decide (formAfter ev = StateCompleted) && choiceAfter ev.

(** The model on which the two forms act: [Update] past its switch on the
    message. *)
Definition afterSwitch (m : model) (ev : Event) : model :=
  match msg ev with
  | WindowSizeMsg wd ht => setSize wd ht m
  | _ => m
  end.

Definition isInput (f : Field) : Prop := exists v, f = Input v.

Definition templateKeys (m : model) : list gostring := Key <$> envVars m.

(** What holds of every model the program reaches. *)
Record consistent (m : model) : Prop := mkConsistent {
  fields_are_inputs : Forall2 (fun _ f => isInput f) (envVars m) (fields m);
  collecting_form : phase m = Collecting -> form m = StateNormal;
  reviewing_form : phase m = Reviewing -> confirmForm m = Some StateNormal;
  confirming_form : confirming m = true -> is_Some (confirmForm m);
  confirming_diff :
    confirming m = true ->
    computeChanges (existingEnvValues m) (envValuesToSave m) (envVars m) <> []
    /\ dom (envValuesToSave m) = list_to_set (templateKeys m);
  saved_keys : dom (envValuesToSave m) ⊆ list_to_set (templateKeys m);
}.

(** [Done], [Aborted] or [Failed]: the workflow is over. *)
Definition terminal (m : model) : Prop :=
  phase m <> Collecting /\ phase m <> Reviewing.

(** What the summary of a reachable model holds: under review, the lines of
    the diff between the prior configuration and the values to save, which
    are the values of the fields; otherwise the no-change text once the main
    form has completed with nothing to change, and nothing before. *)
Record summarised (m : model) : Prop := mkSummarised {
  review_summary :
    confirming m = true ->
    diffSummary m =
      Join (map diffLine
              (computeChanges (existingEnvValues m) (envValuesToSave m) (envVars m)))
           [LF]
    /\ collect 0 (envVars m) (fields m) ∅ = inl (envValuesToSave m);
  plain_summary :
    confirming m = false ->
    diffSummary m =
      if quitting m && bool_decide (form m = StateCompleted)
         && bool_decide (err m = None)
      then noChanges else [];
}.

(** ** Writing and reading back *)

(** What the four replacements of [writeEnvFile] make of one byte. *)
Definition escapeByte (c : ascii) : gostring :=
  if (c =? BSLASH)%char then [BSLASH; BSLASH]
  else if (c =? DQUOTE)%char then [BSLASH; DQUOTE]
  else if (c =? LF)%char then [BSLASH; "n"%char]
  else if (c =? CR)%char then [BSLASH; "r"%char]
  else [c].

(** The same byte once a reader has replaced the doubled backslashes. *)
Definition halfReadByte (c : ascii) : gostring :=
  if (c =? DQUOTE)%char then [BSLASH; DQUOTE]
  else if (c =? LF)%char then [BSLASH; "n"%char]
  else if (c =? CR)%char then [BSLASH; "r"%char]
  else [c].

(** The escapes that no reader undoes: a line feed stays the two bytes
    backslash, n and a carriage return the two bytes backslash, r. *)
Definition keptEscapes (value : gostring) : gostring :=
  substitute CR [BSLASH; "r"%char] (substitute LF [BSLASH; "n"%char] value).

(** What [readExistingEnvFile] makes of a value that [writeEnvFile] wrote:
    a quoted value keeps the two escapes above, a bare one loses the white
    space at its end. *)
Definition readBack (value : gostring) : gostring :=
  if needsQuoting value then keptEscapes value else strings.trimRight value.

(** The line of an entry fits the buffer of the scanner. *)
Definition fits (kv : gostring * gostring) : Prop :=
  (Z.of_nat (length (lineOf kv)) < bufio.MaxScanTokenSize)%Z.

(** ** Sample runs *)

(** One way of ranging over a map: in the order of [map_to_list]. *)
Definition listed : Range :=
  mkRange map_to_list (fun values => Permutation_refl (map_to_list values)).

(** The files of the first case of [TestModelInit]. *)
Definition testWorld : World :=
  mkWorld
    (mkFS (Regular ("KEY1=example_val1 # desc1" ++ [LF] ++ "KEY2=example_val2"))
          (Regular ("KEY1=actual_val1" ++ [LF] ++ "KEY_NEW=new_val"))
          Missing)
    [] listed.

Definition completes (texts : list gostring) : Event :=
  mkEvent OtherMsg StateCompleted texts true.
Definition confirms : Event := mkEvent OtherMsg StateCompleted [] true.

Definition edited : list gostring :=
  ["new value" : gostring; "example_val2" : gostring].

(** A value of exactly [MaxScanTokenSize] bytes. *)
Definition longValue : gostring := replicate (Z.to_nat 65536) "a"%char.

(** The files of [testWorld] with a directory in the place of [.env]. *)
Definition directoryWorld : World :=
  mkWorld (mkFS (dotEnvExample (fs testWorld)) Directory Missing) [] listed.

(** The files of [testWorld] without [.env], and with a directory in the
    place of [.env.old]. *)
Definition freshWorld : World :=
  mkWorld (mkFS (dotEnvExample (fs testWorld)) Missing Directory) [] listed.

(** No file at all. *)
Definition emptyWorld : World := mkWorld (mkFS Missing Missing Missing) [] listed.

(** Values of [TestWriteEnvFile]. *)
Definition sampleValues : gmap gostring gostring :=
  {[ ("KEY1" : gostring) := ("value1" : gostring);
     ("KEY_SPACE" : gostring) := ("value with space" : gostring);
     ("KEY_BACKSLASH" : gostring) := "value" ++ [BSLASH] ++ "backslash" ]}.

(** * Facts about the string functions *)

Import strings.

Lemma length_ind (P : gostring -> Prop) :
  (forall s, (forall t, length t < length s -> P t) -> P s) -> forall s, P s.
Proof.
  intros step s. remember (length s) as n eqn:Hn. revert s Hn.
  induction n as [n IH] using lt_wf_ind. intros s ->.
  apply step. intros t Ht. by apply (IH (length t)).
Qed.

Lemma eqb_false_of_ne (c d : ascii) : c <> d -> (c =? d)%char = false.
Proof. by intros ?%Ascii.eqb_neq. Qed.

Lemma HasPrefix_byte s c :
  HasPrefix s [c] = match s with x :: _ => (x =? c)%char | [] => false end.
Proof. destruct s; simpl; [done|]. apply andb_true_r. Qed.

Section Index.
Context (c : ascii).

Lemma Index_byte_app k r : c ∉ k -> Index (k ++ c :: r) [c] = Some (length k).
Proof.
  induction k as [|x k IH]; intros Hk; simpl.
  - by rewrite Ascii.eqb_refl.
  - apply not_elem_of_cons in Hk as [Hx Hk].
    rewrite eqb_false_of_ne by done. simpl. by rewrite IH.
Qed.

Lemma Index_byte_None s : c ∉ s -> Index s [c] = None.
Proof.
  induction s as [|x s IH]; intros Hs; simpl; [done|].
  apply not_elem_of_cons in Hs as [Hx Hs].
  rewrite eqb_false_of_ne by done. simpl. by rewrite IH.
Qed.

Lemma Index_byte_split s :
  ((c ∉ s) /\ Index s [c] = None)
  \/ exists k r, s = k ++ c :: r /\ (c ∉ k) /\ Index s [c] = Some (length k).
Proof.
  destruct (decide (c ∈ s)) as [Hin|Hnot].
  - right. apply list_elem_of_split_l in Hin as (k & r & -> & Hk).
    exists k, r. split_and!; [done..|]. by apply Index_byte_app.
  - left. split; [done|]. by apply Index_byte_None.
Qed.

Lemma SplitN2_cut k o : c ∉ k -> SplitN (k ++ c :: o) [c] 2 = [k; o].
Proof.
  intros Hk. unfold SplitN, splitUpTo. rewrite Index_byte_app by done.
  rewrite take_app_length. f_equal.
  replace (length k + length [c]) with (length (k ++ [c]))
    by (rewrite length_app; done).
  change (k ++ c :: o) with (k ++ [c] ++ o). rewrite app_assoc.
  by rewrite drop_app_length.
Qed.

Lemma SplitN2_whole s : c ∉ s -> SplitN s [c] 2 = [s].
Proof. intros Hs. unfold SplitN, splitUpTo. by rewrite Index_byte_None. Qed.

Lemma SplitN2_head s part0 rest :
  SplitN s [c] 2 = part0 :: rest -> (c ∉ part0) /\ forall x, x ∈ part0 -> x ∈ s.
Proof.
  destruct (Index_byte_split s) as [[Hs _]|(k & r & -> & Hk & _)].
  - rewrite SplitN2_whole by done. by intros [= <- <-].
  - rewrite SplitN2_cut by done. intros [= <- <-]. split; [done|].
    intros x Hx. apply elem_of_app. by left.
Qed.
End Index.

Section dropRunes.
Context (one : ascii -> bool) (two : ascii -> ascii -> bool)
        (three : ascii -> ascii -> ascii -> bool).

Lemma dropRunes_suffix s : exists p, s = p ++ dropRunes one two three s.
Proof.
  induction s as [s IH] using length_ind.
  destruct s as [|c [|d [|e s3]]]; simpl.
  - by exists [].
  - destruct (one c); [by exists [c]|by exists []].
  - destruct (one c).
    { destruct (IH [d]) as [p Hp]; [simpl; lia|].
      exists (c :: p). by rewrite Hp at 1. }
    destruct (two c d); [by exists [c; d]|by exists []].
  - destruct (one c).
    { destruct (IH (d :: e :: s3)) as [p Hp]; [simpl; lia|].
      exists (c :: p). by rewrite Hp at 1. }
    destruct (two c d).
    { destruct (IH (e :: s3)) as [p Hp]; [simpl; lia|].
      exists (c :: d :: p). by rewrite Hp at 1. }
    destruct (three c d e); [|by exists []].
    destruct (IH s3) as [p Hp]; [simpl; lia|].
    exists (c :: d :: e :: p). by rewrite Hp at 1.
Qed.

Lemma dropRunes_fix s :
  headRune one two three s = false -> dropRunes one two three s = s.
Proof.
  destruct s as [|c [|d [|e s3]]]; simpl; [done|..].
  - by rewrite orb_false_r; intros ->.
  - rewrite orb_false_r. intros [-> ->]%orb_false_elim. done.
  - intros [-> [-> ->]%orb_false_elim]%orb_false_elim. done.
Qed.

Lemma dropRunes_head s : headRune one two three (dropRunes one two three s) = false.
Proof.
  induction s as [s IH] using length_ind.
  destruct s as [|c [|d [|e s3]]]; simpl; [done|..].
  - destruct (one c) eqn:H1; simpl; [done|]. by rewrite H1.
  - destruct (one c) eqn:H1.
    { apply (IH [d]). simpl; lia. }
    destruct (two c d) eqn:H2; simpl; [done|]. by rewrite H1, H2.
  - destruct (one c) eqn:H1.
    { apply (IH (d :: e :: s3)). simpl; lia. }
    destruct (two c d) eqn:H2.
    { apply (IH (e :: s3)). simpl; lia. }
    destruct (three c d e) eqn:H3.
    { apply (IH s3). simpl; lia. }
    simpl. by rewrite H1, H2, H3.
Qed.

Lemma dropRunes_idem s :
  dropRunes one two three (dropRunes one two three s) = dropRunes one two three s.
Proof. apply dropRunes_fix, dropRunes_head. Qed.

Lemma headRune_app s x :
  headRune one two three s = true -> headRune one two three (s ++ x) = true.
Proof.
  destruct s as [|c [|d [|e s3]]]; simpl; [done|..].
  - rewrite orb_false_r. by intros ->.
  - rewrite orb_false_r. intros [->| ->]%orb_true_iff; [done|].
    by rewrite orb_true_r.
  - done.
Qed.

Lemma elem_of_dropRunes c s : c ∈ dropRunes one two three s -> c ∈ s.
Proof.
  destruct (dropRunes_suffix s) as [p Hp]. intros Hc. rewrite Hp.
  apply elem_of_app. by right.
Qed.

(** A byte [sep] that is part of no white-space rune stops the trimming. *)
Context (sep : ascii).
Hypothesis one_sep : one sep = false.
Hypothesis two_sep : forall c, two sep c = false /\ two c sep = false.
Hypothesis three_sep :
  forall c d,
    three sep c d = false /\ three c sep d = false /\ three c d sep = false.

Lemma dropRunes_sep y : dropRunes one two three (sep :: y) = sep :: y.
Proof using one_sep two_sep three_sep.
  apply dropRunes_fix. simpl. rewrite one_sep. simpl.
  destruct y as [|d [|e y]]; [done|..].
  - by rewrite (proj1 (two_sep d)).
  - rewrite (proj1 (two_sep d)). simpl. apply three_sep.
Qed.

Lemma dropRunes_app_sep x y :
  dropRunes one two three (x ++ sep :: y) = dropRunes one two three x ++ sep :: y.
Proof using one_sep two_sep three_sep.
  induction x as [x IH] using length_ind.
  destruct x as [|c [|d [|e x3]]].
  - apply dropRunes_sep.
  - cbn [app]. simpl. destruct (one c).
    { apply dropRunes_sep. }
    rewrite (proj2 (two_sep c)).
    destruct y as [|e y]; [done|].
    by rewrite (proj1 (proj2 (three_sep c e))).
  - cbn [app]. simpl. destruct (one c).
    { apply (IH [d]). simpl; lia. }
    destruct (two c d).
    { apply dropRunes_sep. }
    by rewrite (proj2 (proj2 (three_sep c d))).
  - cbn [app]. simpl. destruct (one c).
    { apply (IH (d :: e :: x3)). simpl; lia. }
    destruct (two c d).
    { apply (IH (e :: x3)). simpl; lia. }
    destruct (three c d e); [|done].
    apply (IH x3). simpl; lia.
Qed.
End dropRunes.

(** ** White space *)

Lemma plain_eqb_high b c :
  plain b -> (128 <= N_of_ascii c)%N -> (b =? c)%char = false.
Proof. intros [Hb _] Hc. apply Ascii.eqb_neq. intros ->. lia. Qed.

Lemma plain_two b c : plain b -> isSpace2 b c = false /\ isSpace2 c b = false.
Proof.
  intros Hb. unfold isSpace2. split.
  - by rewrite (plain_eqb_high b "194").
  - rewrite (plain_eqb_high b "133"), (plain_eqb_high b "160") by done.
    apply andb_false_r.
Qed.

Lemma plain_three b c d :
  plain b ->
  isSpace3 b c d = false /\ isSpace3 c b d = false /\ isSpace3 c d b = false.
Proof.
  intros Hb. unfold isSpace3. split_and!.
  - by rewrite (plain_eqb_high b "225"), (plain_eqb_high b "226"),
      (plain_eqb_high b "227").
  - rewrite (plain_eqb_high b "154"), (plain_eqb_high b "128"),
      (plain_eqb_high b "129") by done.
    by rewrite !andb_false_r.
  - rewrite (plain_eqb_high b "128"), (plain_eqb_high b "168"),
      (plain_eqb_high b "169"), (plain_eqb_high b "175"),
      (plain_eqb_high b "159") by done.
    destruct Hb as [Hb _].
    replace (128 <=? N_of_ascii b)%N with false
      by (symmetry; apply N.leb_gt; lia).
    by rewrite !andb_false_r.
Qed.

Lemma plain_equals : plain "=".
Proof. by split. Qed.

Lemma plain_hash : plain "#".
Proof. by split. Qed.

Lemma plain_dquote : plain DQUOTE.
Proof. by split. Qed.

Lemma trimLeft_app_plain b x y :
  plain b -> trimLeft (x ++ b :: y) = trimLeft x ++ b :: y.
Proof.
  intros Hb. apply dropRunes_app_sep.
  - apply Hb.
  - intros c. by apply plain_two.
  - intros c d. by apply plain_three.
Qed.

Lemma trimRightRev_app_plain b x y :
  plain b -> trimRightRev (x ++ b :: y) = trimRightRev x ++ b :: y.
Proof.
  intros Hb. apply dropRunes_app_sep.
  - apply Hb.
  - intros c. cbv beta. by destruct (plain_two b c Hb).
  - intros c d. cbv beta. by destruct (plain_three b d c Hb) as (H1 & H2 & H3).
Qed.

Lemma trimRight_app_plain b x y :
  plain b -> trimRight (x ++ b :: y) = x ++ b :: trimRight y.
Proof.
  intros Hb. unfold trimRight.
  rewrite rev_app_distr. simpl. rewrite <- app_assoc. simpl.
  rewrite trimRightRev_app_plain by done.
  rewrite rev_app_distr. simpl. rewrite rev_involutive, <- app_assoc. done.
Qed.

Lemma TrimSpace_app_plain b x y :
  plain b -> TrimSpace (x ++ b :: y) = trimLeft x ++ b :: trimRight y.
Proof.
  intros Hb. unfold TrimSpace.
  by rewrite trimLeft_app_plain, trimRight_app_plain.
Qed.

Lemma trimRight_idem s : trimRight (trimRight s) = trimRight s.
Proof.
  unfold trimRight, trimRightRev. rewrite rev_involutive.
  by rewrite dropRunes_idem.
Qed.

Lemma trimRight_prefix s : exists q, s = trimRight s ++ q.
Proof.
  unfold trimRight, trimRightRev.
  destruct (dropRunes_suffix isSpace1 (fun c d => isSpace2 d c)
              (fun c d e => isSpace3 e d c) (rev s)) as [p Hp].
  exists (rev p). apply (f_equal (@rev ascii)) in Hp.
  by rewrite rev_involutive, rev_app_distr in Hp.
Qed.

Lemma trimLeft_suffix s : exists p, s = p ++ trimLeft s.
Proof. apply dropRunes_suffix. Qed.

Lemma TrimSpace_fixed s : TrimSpace s = s -> trimLeft s = s /\ trimRight s = s.
Proof.
  intros Hs. unfold TrimSpace in Hs.
  assert (trimLeft s = s) as Hl.
  { destruct (trimLeft_suffix s) as [p Hp].
    destruct (trimRight_prefix (trimLeft s)) as [q Hq].
    rewrite Hs in Hq.
    assert (length p = 0) as Hlen.
    { apply (f_equal length) in Hp, Hq. rewrite length_app in Hp, Hq. lia. }
    destruct p; [|done]. done. }
  split; [done|]. by rewrite Hl in Hs.
Qed.

Lemma TrimSpace_idem s : TrimSpace (TrimSpace s) = TrimSpace s.
Proof.
  unfold TrimSpace at 1.
  assert (trimLeft (TrimSpace s) = TrimSpace s) as ->.
  { apply dropRunes_fix.
    destruct (headRune isSpace1 isSpace2 isSpace3 (TrimSpace s)) eqn:Hhead; [|done].
    destruct (trimRight_prefix (trimLeft s)) as [q Hq].
    apply (headRune_app _ _ _ _ q) in Hhead.
    unfold TrimSpace in Hhead. rewrite <- Hq in Hhead.
    unfold trimLeft in Hhead. by rewrite dropRunes_head in Hhead. }
  unfold TrimSpace. apply trimRight_idem.
Qed.

Lemma elem_of_trimRight c s : c ∈ trimRight s -> c ∈ s.
Proof.
  destruct (trimRight_prefix s) as [q Hq]. intros Hc. rewrite Hq.
  apply elem_of_app. by left.
Qed.

Lemma elem_of_TrimSpace c s : c ∈ TrimSpace s -> c ∈ s.
Proof. intros Hc%elem_of_trimRight. by apply elem_of_dropRunes in Hc. Qed.

Lemma trimRight_blank_no_plain b ws : plain b -> trimRight ws = [] -> b ∉ ws.
Proof.
  intros Hb Hws (x & y & ->)%list_elem_of_split.
  rewrite trimRight_app_plain in Hws by done. by destruct x.
Qed.

(** ** Lines *)

Lemma pieces_nonempty data : bufio.pieces data <> [].
Proof.
  destruct data as [|c rest]; simpl; [done|].
  destruct (c =? LF)%char; [done|]. by destruct (bufio.pieces rest).
Qed.

Lemma pieces_line s rest :
  LF ∉ s -> bufio.pieces (s ++ LF :: rest) = s :: bufio.pieces rest.
Proof.
  induction s as [|c s IH]; intros Hs; simpl.
  - done.
  - apply not_elem_of_cons in Hs as [Hc Hs].
    rewrite (eqb_false_of_ne c LF) by done.
    by rewrite IH.
Qed.

Lemma pieces_no_LF data p : p ∈ bufio.pieces data -> LF ∉ p.
Proof.
  revert p. induction data as [|c rest IH]; intros p; simpl.
  - intros ->%list_elem_of_singleton. apply not_elem_of_nil.
  - destruct (Ascii.eqb_spec c LF) as [->|Hc].
    + intros [->|Hp]%elem_of_cons; [apply not_elem_of_nil|by apply IH].
    + destruct (bufio.pieces rest) as [|q qs] eqn:Hq.
      { by destruct (pieces_nonempty rest). }
      intros [->|Hp]%elem_of_cons.
      * apply not_elem_of_cons. split; [done|]. apply IH. by left.
      * apply IH. by right.
Qed.

Lemma dropCR_keep line : last line <> Some CR -> bufio.dropCR line = line.
Proof.
  unfold bufio.dropCR. intros Hlast.
  destruct (rev line) as [|c r] eqn:Hrev; [done|].
  destruct (Ascii.eqb_spec c CR) as [->|]; [|done].
  apply (f_equal (@rev ascii)) in Hrev. rewrite rev_involutive in Hrev.
  subst line. simpl in Hlast. by rewrite last_snoc in Hlast.
Qed.

Lemma dropCR_prefix line : exists q, line = bufio.dropCR line ++ q.
Proof.
  unfold bufio.dropCR.
  destruct (rev line) as [|c r] eqn:Hrev; [by exists []; rewrite app_nil_r|].
  destruct (c =? CR)%char; [|by exists []; rewrite app_nil_r].
  apply (f_equal (@rev ascii)) in Hrev. rewrite rev_involutive in Hrev.
  exists [c]. by rewrite Hrev.
Qed.

Lemma elem_of_dropCR c line : c ∈ bufio.dropCR line -> c ∈ line.
Proof.
  destruct (dropCR_prefix line) as [q Hq]. intros Hc. rewrite Hq.
  apply elem_of_app. by left.
Qed.

Lemma scan_lines ps l :
  l ∈ (bufio.scan ps).1 -> exists p, p ∈ ps /\ l = bufio.dropCR p.
Proof.
  revert l. induction ps as [|p ps IH]; intros l; simpl;
    [by intros ?%elem_of_nil|].
  destruct ps as [|p' ps'].
  - repeat case_match; simpl; try by intros ?%elem_of_nil.
    intros ->%list_elem_of_singleton. exists p. split; [by left|done].
  - destruct (bufio.tooLong p); [by intros ?%elem_of_nil|].
    destruct (bufio.scan (p' :: ps')) as [ls e] eqn:Hscan. simpl in *.
    intros [->|Hl]%elem_of_cons.
    + exists p. split; [by left|done].
    + destruct (IH l Hl) as (q & Hq & ->). exists q. split; [by right|done].
Qed.

Lemma Lines_no_LF data l : l ∈ (bufio.Lines data).1 -> LF ∉ l.
Proof.
  intros (p & Hp & ->)%scan_lines Hin. apply elem_of_dropCR in Hin.
  by apply (pieces_no_LF data p).
Qed.

Lemma Lines_one_line line :
  LF ∉ line -> line <> [] -> last line <> Some CR ->
  (Z.of_nat (length line) < bufio.MaxScanTokenSize)%Z ->
  bufio.Lines (line ++ [LF]) = ([line], false).
Proof.
  intros HLF Hne Hlast Hlen. unfold bufio.Lines.
  rewrite pieces_line by done. simpl.
  unfold bufio.tooLong. rewrite (proj2 (Z.leb_gt _ _)) by done.
  by rewrite dropCR_keep.
Qed.

(** ** Replacing and finding bytes *)

Lemma ReplaceAll_byte s c new : ReplaceAll s [c] new = substitute c new s.
Proof.
  unfold ReplaceAll, substitute.
  induction s as [|x s IH]; simpl; [done|].
  rewrite andb_true_r. destruct (x =? c)%char; by rewrite IH.
Qed.

Lemma elem_of_substitute x c new s :
  x ∈ substitute c new s <-> (x ∈ s /\ x <> c) \/ (c ∈ s /\ x ∈ new).
Proof.
  unfold substitute. induction s as [|y s IH]; simpl.
  - rewrite !elem_of_nil. tauto.
  - rewrite elem_of_app, IH, !elem_of_cons.
    destruct (Ascii.eqb_spec y c) as [->|Hy].
    + intuition congruence.
    + rewrite list_elem_of_singleton. intuition congruence.
Qed.

Lemma ContainsAny_false s chars :
  ContainsAny s chars = false <-> forall c, c ∈ s -> c ∉ chars.
Proof.
  unfold ContainsAny. induction s as [|x s IH]; simpl.
  - split; [|done]. by intros _ c ?%elem_of_nil.
  - rewrite orb_false_iff, IH. split.
    + intros [Hx Hs] c [->|Hc]%elem_of_cons; [|by apply Hs].
      intros Hin. apply not_true_iff_false in Hx. apply Hx.
      apply existsb_exists. exists x. split; [by apply list_elem_of_In|].
      apply Ascii.eqb_refl.
    + intros Hall. split; [|intros c Hc; apply Hall; by right].
      apply not_true_iff_false.
      intros (c & Hc & ->%Ascii.eqb_eq)%existsb_exists.
      apply (Hall c); [by left|by apply list_elem_of_In].
Qed.

Lemma ContainsAny_true s chars :
  ContainsAny s chars = true <-> exists c, c ∈ s /\ c ∈ chars.
Proof.
  unfold ContainsAny. rewrite existsb_exists. split.
  - intros (c & Hc & (d & Hd & Hcd%Ascii.eqb_eq)%existsb_exists). subst d.
    exists c. by rewrite !list_elem_of_In.
  - intros (c & Hc & Hd). exists c. rewrite <- list_elem_of_In. split; [done|].
    apply existsb_exists. exists c. rewrite <- list_elem_of_In. split; [done|].
    apply Ascii.eqb_refl.
Qed.

(** * The codec *)

Lemma quotingChars_disallowed c : c ∈ quotingChars <-> disallowed c.
Proof.
  unfold quotingChars, disallowed. rewrite !elem_of_cons, elem_of_nil. tauto.
Qed.

Lemma allowed_of_ContainsAny v :
  ContainsAny v quotingChars = false <-> forall c, c ∈ v -> ~ disallowed c.
Proof.
  rewrite ContainsAny_false. split; intros H c Hc; specialize (H c Hc);
    by rewrite quotingChars_disallowed in *.
Qed.

Lemma needsQuoting_mustQuote value : needsQuoting value = true <-> mustQuote value.
Proof.
  unfold needsQuoting, mustQuote. case_bool_decide as Hv.
  - split; [by left|done].
  - rewrite ContainsAny_true. split.
    + intros (c & Hc & Hd). right. exists c. by rewrite <- quotingChars_disallowed.
    + intros [?|(c & Hc & Hd)]; [done|]. exists c. by rewrite quotingChars_disallowed.
Qed.

Lemma unquoted_value v :
  v <> [] -> ContainsAny v quotingChars = false ->
  outputValue v = v /\ (LF ∉ v) /\ (CR ∉ v) /\ (DQUOTE ∉ v).
Proof.
  intros Hv Hany. unfold outputValue, needsQuoting.
  rewrite bool_decide_eq_false_2, Hany by done. split; [done|].
  rewrite ContainsAny_false in Hany.
  split_and!; intros Hc%Hany; apply Hc; unfold quotingChars;
    rewrite !elem_of_cons; tauto.
Qed.

Lemma quoted_has_quote v : quoted v = true -> DQUOTE ∈ v.
Proof.
  unfold quoted.
  intros [[_ Hhead%bool_decide_eq_true]%andb_true_iff _]%andb_true_iff.
  destruct v; simplify_eq/=. by left.
Qed.

Lemma quoted_wrap body : quoted ([DQUOTE] ++ body ++ [DQUOTE]) = true.
Proof.
  unfold quoted. rewrite !length_app.
  rewrite andb_true_iff, andb_true_iff. split_and!.
  - apply Nat.leb_le. simpl. lia.
  - by apply bool_decide_eq_true.
  - apply bool_decide_eq_true. rewrite app_assoc. apply last_snoc.
Qed.

Lemma outputValue_quoted value :
  needsQuoting value = true ->
  outputValue value = [DQUOTE] ++ escapeInOrder value ++ [DQUOTE].
Proof.
  intros Hq. unfold outputValue, escapeInOrder. rewrite Hq.
  by rewrite !ReplaceAll_byte.
Qed.

(** A written value holds no line feed, is not empty and does not end in a
    carriage return: its line survives the scanner unchanged. *)
Lemma outputValue_line v :
  (LF ∉ outputValue v) /\ outputValue v <> [] /\ last (outputValue v) <> Some CR.
Proof.
  destruct (needsQuoting v) eqn:Hq.
  - rewrite outputValue_quoted by done. split_and!.
    + unfold escapeInOrder. rewrite !not_elem_of_app, !elem_of_substitute.
      unfold LF, CR, DQUOTE, BSLASH. rewrite !elem_of_cons, !elem_of_nil.
      intuition congruence.
    + done.
    + rewrite app_assoc, last_snoc. done.
  - unfold needsQuoting in Hq. case_bool_decide as Hv; [done|].
    destruct (unquoted_value v Hv Hq) as (-> & ? & ? & ?).
    split_and!; [done|done|]. by intros ?%last_Some_elem_of.
Qed.

(** What [existingLine] makes of a key, an equals sign and the rest. *)
Lemma existingLine_entry k o :
  TrimSpace k = k -> (("=" : ascii) ∉ k) -> HasPrefix k "#" = false ->
  existingLine (k ++ "="%char :: o) = Some (k, valueOf (trimRight o)).
Proof.
  intros Hk Heq Hhash. unfold existingLine.
  rewrite TrimSpace_app_plain by apply plain_equals.
  destruct (TrimSpace_fixed k Hk) as [-> _].
  rewrite bool_decide_eq_false_2 by (by destruct k).
  change (list_ascii_of_string "#") with ["#"%char] in *.
  rewrite HasPrefix_byte in *.
  assert (match k ++ "="%char :: trimRight o with
          | [] => false | x :: _ => (x =? "#")%char end = false) as ->.
  { by destruct k. }
  simpl orb. cbv iota.
  change (list_ascii_of_string "=") with ["="%char].
  rewrite SplitN2_cut by done. by rewrite Hk.
Qed.

(** C3, as amended: for a key without surrounding white space, equals sign
    or line feed that does not start with a hash, and a value that holds none
    of the disallowed characters and does not end in white space, reading the
    one-line file [encodeEntry key value] (a line shorter than the scanner's
    65536-byte limit) yields exactly the entry [key := value]. *)
Theorem decode_encode_entry k v :
  TrimSpace k = k -> (("=" : ascii) ∉ k) -> (LF ∉ k) -> HasPrefix k "#" = false ->
  (forall c, c ∈ v -> ~ disallowed c) -> trimRight v = v ->
  (Z.of_nat (length (k ++ "=" ++ outputValue v)) < bufio.MaxScanTokenSize)%Z ->
  readExistingEnvFile (Regular (encodeEntry k v)) = ({[ k := v ]}, None).
Proof.
  intros Hk Heq HLF Hhash Hany%allowed_of_ContainsAny Hright Hlen.
  destruct (outputValue_line v) as (HoLF & Hone & Hlast).
  assert (valueOf (trimRight (outputValue v)) = v) as Hval.
  { destruct (decide (v = [])) as [->|Hv]; [done|].
    destruct (unquoted_value v Hv Hany) as (-> & _ & _ & Hdq).
    rewrite Hright. unfold valueOf.
    destruct (quoted v) eqn:Hq; [|done]. by apply quoted_has_quote in Hq. }
  unfold encodeEntry, readExistingEnvFile.
  replace (k ++ "=" ++ outputValue v ++ [LF])
    with ((k ++ "=" ++ outputValue v) ++ [LF]) by (by rewrite <- !app_assoc).
  rewrite Lines_one_line; [| |by destruct k| |done].
  - simpl omap. rewrite existingLine_entry by done. rewrite Hval. simpl.
    unfold assign. simpl. by rewrite insert_empty.
  - rewrite !not_elem_of_app. split_and!; try done.
    simpl. rewrite not_elem_of_cons. split; [done|apply not_elem_of_nil].
  - change (k ++ "=" ++ outputValue v) with (k ++ "="%char :: outputValue v).
    rewrite last_app_cons.
    destruct (outputValue v) as [|c o]; [done|]. by rewrite last_cons_cons.
Qed.

Lemma decode_encode_entry_witness :
  readExistingEnvFile (Regular (encodeEntry "KEY1" "value1"))
  = ({[ ("KEY1" : gostring) := ("value1" : gostring) ]}, None).
Proof.
  apply decode_encode_entry; try (vm_compute; reflexivity).
  - apply (bool_decide_unpack _). by vm_compute.
  - apply (bool_decide_unpack _). by vm_compute.
  - apply allowed_of_ContainsAny. vm_compute. reflexivity.
Defined.

(** C3, as stated, fails: a trailing tab of the value is trimmed away, a
    leading space of the key likewise, and a line of 65536 bytes or more
    stops the scanner. *)
Lemma round_trip_fails_outside_the_grammar :
  ((forall c, c ∈ "x" ++ [TAB] -> ~ disallowed c)
   /\ readExistingEnvFile (Regular (encodeEntry "A" ("x" ++ [TAB])))
      = ({[ ("A" : gostring) := ("x" : gostring) ]}, None)
   /\ readExistingEnvFile (Regular (encodeEntry "A" ("x" ++ [TAB])))
      <> ({[ ("A" : gostring) := "x" ++ [TAB] ]}, None))
  /\ ((forall c, c ∈ ("1" : gostring) -> ~ disallowed c)
      /\ readExistingEnvFile (Regular (encodeEntry " A" "1"))
         = ({[ ("A" : gostring) := ("1" : gostring) ]}, None)
      /\ readExistingEnvFile (Regular (encodeEntry " A" "1"))
         <> ({[ (" A" : gostring) := ("1" : gostring) ]}, None))
  /\ ((forall c, c ∈ longValue -> ~ disallowed c)
      /\ readExistingEnvFile (Regular (encodeEntry "A" longValue))
         = (∅, Some (Errorf "error reading %s during scan: %w" ErrTooLong))).
Proof.
  split_and!.
  - by apply allowed_of_ContainsAny.
  - by vm_compute.
  - intros H. apply (f_equal (fun r => r.1 !! ("A" : gostring))) in H.
    by vm_compute in H.
  - by apply allowed_of_ContainsAny.
  - by vm_compute.
  - intros H. apply (f_equal (fun r => r.1 !! ("A" : gostring))) in H.
    by vm_compute in H.
  - apply allowed_of_ContainsAny. by vm_compute.
  - by vm_compute.
Qed.

(** C4: the written value is double-quoted exactly when the value is empty or
    holds a space, hash, equals sign, double quote, dollar, backslash,
    backtick, line feed or carriage return; a quoted value is the value with
    backslash, double quote, line feed and carriage return escaped in that
    order, between two double quotes; any other value is written verbatim. *)
Theorem encodeEntry_quoting key value :
  (quoted (outputValue value) = true <-> mustQuote value)
  /\ (mustQuote value ->
      outputValue value = [DQUOTE] ++ escapeInOrder value ++ [DQUOTE])
  /\ (~ mustQuote value -> outputValue value = value)
  /\ encodeEntry key value = key ++ "=" ++ outputValue value ++ [LF].
Proof.
  split_and!.
  - destruct (needsQuoting value) eqn:Hq.
    + rewrite outputValue_quoted by done. rewrite quoted_wrap.
      by rewrite <- needsQuoting_mustQuote.
    + unfold outputValue. rewrite Hq. rewrite <- needsQuoting_mustQuote, Hq.
      split; [|done]. intros Hquoted%quoted_has_quote.
      assert (mustQuote value) as Hm.
      { right. exists DQUOTE. split; [done|]. unfold disallowed. tauto. }
      apply needsQuoting_mustQuote in Hm. congruence.
  - intros Hm%needsQuoting_mustQuote. by apply outputValue_quoted.
  - intros Hm. unfold outputValue.
    destruct (needsQuoting value) eqn:Hq; [|done].
    by apply needsQuoting_mustQuote in Hq.
  - done.
Qed.

Lemma encodeEntry_quoting_witness :
  outputValue "a b" = [DQUOTE] ++ escapeInOrder "a b" ++ [DQUOTE]
  /\ outputValue "plain" = ("plain" : gostring).
Proof.
  destruct (encodeEntry_quoting "K" "a b") as (_ & Hquoted & _).
  destruct (encodeEntry_quoting "K" "plain") as (_ & _ & Hverbatim & _).
  split.
  - apply Hquoted. right. exists " "%char. split; [|by left].
    apply (bool_decide_unpack _). by vm_compute.
  - apply Hverbatim. rewrite <- needsQuoting_mustQuote. by vm_compute.
Defined.

(** ** Template lines *)

Lemma templateLine_uncommented k o :
  TrimSpace k = k -> k <> [] -> (("=" : ascii) ∉ k) -> (("#" : ascii) ∉ k) ->
  (("#" : ascii) ∉ trimRight o) ->
  templateLine (k ++ "="%char :: o) =
    Some (mkEnvVar k [] (valueOf (TrimSpace (trimRight o)))).
Proof.
  intros Hk Hne Heq Hhash Ho. unfold templateLine.
  rewrite TrimSpace_app_plain by apply plain_equals.
  destruct (TrimSpace_fixed k Hk) as [-> _].
  rewrite bool_decide_eq_false_2 by (by destruct k).
  change (list_ascii_of_string "#") with ["#"%char].
  rewrite HasPrefix_byte.
  assert (match k ++ "="%char :: trimRight o with
          | [] => false | x :: _ => (x =? "#")%char end = false) as ->.
  { destruct k as [|c k]; [done|]. simpl. apply eqb_false_of_ne.
    intros ->. apply Hhash. by left. }
  simpl orb. cbv iota.
  rewrite Index_byte_None.
  2:{ rewrite not_elem_of_app, not_elem_of_cons. done. }
  change (list_ascii_of_string "=") with ["="%char].
  rewrite SplitN2_cut by done. rewrite Hk.
  rewrite bool_decide_eq_false_2 by done. simpl negb. cbv iota.
  f_equal. f_equal. unfold valueOf.
  destruct (quoted (TrimSpace (trimRight o))); [done|].
  by case_bool_decide.
Qed.

Lemma templateLine_commented k o d :
  TrimSpace k = k -> k <> [] -> (("=" : ascii) ∉ k) -> (("#" : ascii) ∉ k) ->
  (("#" : ascii) ∉ o) ->
  templateLine (k ++ "="%char :: o ++ "#"%char :: d) =
    Some (mkEnvVar k (TrimSpace (trimRight d)) (valueOf (TrimSpace (trimRight o)))).
Proof.
  intros Hk Hne Heq Hhash Ho. unfold templateLine.
  rewrite TrimSpace_app_plain by apply plain_equals.
  rewrite trimRight_app_plain by apply plain_hash.
  destruct (TrimSpace_fixed k Hk) as [-> _].
  rewrite bool_decide_eq_false_2 by (by destruct k).
  change (list_ascii_of_string "#") with ["#"%char].
  rewrite HasPrefix_byte.
  assert (match k ++ "="%char :: o ++ "#"%char :: trimRight d with
          | [] => false | x :: _ => (x =? "#")%char end = false) as ->.
  { destruct k as [|c k]; [done|]. simpl. apply eqb_false_of_ne.
    intros ->. apply Hhash. by left. }
  simpl orb. cbv iota.
  replace (k ++ "="%char :: o ++ "#"%char :: trimRight d)
    with ((k ++ "="%char :: o) ++ "#"%char :: trimRight d)
    by (by rewrite <- app_assoc).
  rewrite Index_byte_app.
  2:{ rewrite not_elem_of_app, not_elem_of_cons. done. }
  rewrite take_app_length.
  replace (length (k ++ "="%char :: o) + 1)
    with (length ((k ++ "="%char :: o) ++ ["#"%char]))
    by (rewrite (length_app _ ["#"%char]); done).
  change ((k ++ "="%char :: o) ++ "#"%char :: trimRight d)
    with ((k ++ "="%char :: o) ++ ["#"%char] ++ trimRight d).
  rewrite (app_assoc _ ["#"%char]), drop_app_length.
  rewrite TrimSpace_app_plain by apply plain_equals.
  destruct (TrimSpace_fixed k Hk) as [-> _].
  change (list_ascii_of_string "=") with ["="%char].
  rewrite SplitN2_cut by done. rewrite Hk.
  rewrite bool_decide_eq_false_2 by done. simpl negb. cbv iota.
  f_equal. f_equal. unfold valueOf.
  destruct (quoted (TrimSpace (trimRight o))); [done|].
  by case_bool_decide.
Qed.

(** The key of every [EnvVar] is well formed. *)
Lemma templateLine_key line e :
  templateLine line = Some e -> LF ∉ line -> wfKey (Key e).
Proof.
  unfold templateLine. intros Hline HLF.
  destruct (bool_decide (TrimSpace line = []) || HasPrefix (TrimSpace line) "#");
    [done|].
  set (lfp := TrimSpace line) in *.
  assert (forall x, x ∈ lfp -> x ∈ line) as Hlfp
    by (intros x; apply elem_of_TrimSpace).
  assert (exists description kvp,
             (match Index lfp "#" with
              | Some commentIdx =>
                  (TrimSpace (drop (commentIdx + 1) lfp),
                   TrimSpace (take commentIdx lfp))
              | None => ([], lfp)
              end) = (description, kvp)
             /\ (("#" : ascii) ∉ kvp) /\ (forall x, x ∈ kvp -> x ∈ lfp))
    as (description & kvp & Heq & Hhash & Hkvp).
  { change (list_ascii_of_string "#") with ["#"%char].
    destruct (Index_byte_split "#" lfp) as [[Hno ->]|(k & r & Hsplit & Hk & ->)].
    - by eexists _, _.
    - eexists _, _. split; [done|]. rewrite Hsplit, take_app_length.
      split.
      + by intros ?%elem_of_TrimSpace.
      + intros x Hx%elem_of_TrimSpace. apply elem_of_app. by left. }
  rewrite Heq in Hline.
  change (list_ascii_of_string "=") with ["="%char] in Hline.
  destruct (SplitN kvp ["="%char] 2) as [|part0 rest] eqn:Hsplit; [done|].
  apply SplitN2_head in Hsplit as [Heqs Hpart].
  case_bool_decide as Hkey; [done|]. simpl in Hline. injection Hline as <-.
  simpl. split_and!.
  - apply TrimSpace_idem.
  - done.
  - by intros ?%elem_of_TrimSpace.
  - intros ?%elem_of_TrimSpace. apply Hhash. auto.
  - intros ?%elem_of_TrimSpace. apply HLF. auto.
Qed.

(** C8, as stated, fails: [KEY=] alone and [KEY=] followed by two double
    quotes yield the same [EnvVar], whose [ExampleValue] is a plain string. *)
Lemma template_empty_value_not_distinguished :
  templateLine "KEY=" = Some (mkEnvVar "KEY" [] [])
  /\ templateLine ("KEY=" ++ [DQUOTE; DQUOTE]) = Some (mkEnvVar "KEY" [] [])
  /\ templateLine "KEY=" = templateLine ("KEY=" ++ [DQUOTE; DQUOTE]).
Proof. split_and!; reflexivity. Qed.

(** C8, as amended: a template line whose value portion is empty after
    trimming and not quoted yields an [EnvVar] whose [ExampleValue] is the
    empty string, the very [EnvVar] that the quoted empty value (two double
    quotes) yields in its place; a description after a hash changes nothing
    to that. *)
Theorem template_empty_value_is_empty_string k ws comment :
  TrimSpace k = k -> k <> [] -> (("=" : ascii) ∉ k) -> (("#" : ascii) ∉ k) ->
  trimRight ws = [] ->
  comment = [] \/ (exists d, comment = "#"%char :: d) ->
  exists description,
    templateLine (k ++ "=" ++ ws ++ comment) = Some (mkEnvVar k description [])
    /\ templateLine (k ++ "=" ++ [DQUOTE; DQUOTE] ++ ws ++ comment)
       = Some (mkEnvVar k description []).
Proof.
  intros Hk Hne Heq Hhash Hws Hcomment.
  assert (trimRight ([DQUOTE] ++ DQUOTE :: ws) = [DQUOTE; DQUOTE]) as Hq.
  { rewrite trimRight_app_plain by apply plain_dquote. by rewrite Hws. }
  pose proof (trimRight_blank_no_plain "#" ws plain_hash Hws) as Hnohash.
  destruct Hcomment as [->|[d ->]].
  - exists []. rewrite !app_nil_r. split.
    + change (k ++ "=" ++ ws) with (k ++ "="%char :: ws).
      rewrite templateLine_uncommented by (rewrite ?Hws; done || apply not_elem_of_nil).
      by rewrite Hws.
    + change (k ++ "=" ++ [DQUOTE; DQUOTE] ++ ws)
        with (k ++ "="%char :: ([DQUOTE] ++ DQUOTE :: ws)).
      rewrite templateLine_uncommented; rewrite ?Hq; try done.
      rewrite !not_elem_of_cons. split_and!; [done|done|apply not_elem_of_nil].
  - exists (TrimSpace (trimRight d)). split.
    + change (k ++ "=" ++ ws ++ "#"%char :: d) with (k ++ "="%char :: ws ++ "#"%char :: d).
      rewrite templateLine_commented by done. by rewrite Hws.
    + change (k ++ "=" ++ [DQUOTE; DQUOTE] ++ ws ++ "#"%char :: d)
        with (k ++ "="%char :: ([DQUOTE] ++ DQUOTE :: ws) ++ "#"%char :: d).
      rewrite templateLine_commented; rewrite ?Hq; try done.
      simpl. rewrite !not_elem_of_cons. done.
Qed.

Lemma template_empty_value_witness :
  exists description,
    templateLine ("KEY3" ++ "=" ++ " " ++ "# Empty value with description")
    = Some (mkEnvVar "KEY3" description [])
    /\ templateLine
         ("KEY3" ++ "=" ++ [DQUOTE; DQUOTE] ++ " " ++ "# Empty value with description")
       = Some (mkEnvVar "KEY3" description []).
Proof.
  apply template_empty_value_is_empty_string; try (vm_compute; reflexivity).
  - by vm_compute.
  - apply (bool_decide_unpack _). by vm_compute.
  - apply (bool_decide_unpack _). by vm_compute.
  - right. by eexists.
Defined.

(** C9: the value made of a backslash and a double quote survives writing and
    reading back. But the stored line whose text between the enclosing quotes
    is backslash, backslash, double quote (from the left: an escaped backslash
    followed by a double quote) is not stable: the reader first turns the two
    backslashes into one, then takes that backslash and the quote for an
    escaped quote, and returns the single double quote; written again, the
    text between the enclosing quotes is backslash, double quote. *)
Theorem backslash_quote_stored_line_not_stable :
  exists value stored : gostring,
    value = [BSLASH; DQUOTE]
    /\ stored = "K=" ++ [DQUOTE] ++ [BSLASH; BSLASH; DQUOTE] ++ [DQUOTE]
    /\ readEscapes [BSLASH; BSLASH; DQUOTE] = value
    /\ ReplaceAll [BSLASH; BSLASH; DQUOTE] [BSLASH; BSLASH] [BSLASH] = value
    /\ existingLine stored = Some ("K" : gostring, [DQUOTE])
    /\ encodeEntry "K" [DQUOTE] = "K=" ++ [DQUOTE] ++ [BSLASH; DQUOTE] ++ [DQUOTE] ++ [LF]
    /\ encodeEntry "K" [DQUOTE] <> stored ++ [LF]
    /\ readExistingEnvFile (Regular (encodeEntry "K" value))
       = ({[ ("K" : gostring) := value ]}, None).
Proof.
  eexists _, _. split_and!; try reflexivity. by vm_compute.
Qed.

(** * The diff engine *)

Lemma diffStep_recordFor old new acc changed envVar :
  diffStep old new (acc, changed) envVar =
    match recordFor old new (Key envVar) with
    | Some r => (acc ++ [r], true)
    | None => (acc, changed)
    end.
Proof.
  unfold diffStep, recordFor.
  destruct (old !! Key envVar) as [oldValue|] eqn:Hold; simpl;
    repeat case_bool_decide; simpl; try congruence;
    match goal with
    | H : ¬ is_Some (Some _) |- _ => by destruct H
    | H : is_Some None |- _ => by destruct H
    end.
Qed.

Lemma diffLoop_from old new vars : forall acc changed,
  foldl (diffStep old new) (acc, changed) vars =
    (acc ++ omap (recordFor old new) (Key <$> vars),
     changed || negb (bool_decide (omap (recordFor old new) (Key <$> vars) = []))).
Proof.
  induction vars as [|envVar vars IH]; intros acc changed.
  - simpl. by rewrite app_nil_r, orb_false_r.
  - cbn [foldl]. rewrite diffStep_recordFor.
    change (omap (recordFor old new) (Key <$> envVar :: vars))
      with (match recordFor old new (Key envVar) with
            | Some r => r :: omap (recordFor old new) (Key <$> vars)
            | None => omap (recordFor old new) (Key <$> vars)
            end).
    destruct (recordFor old new (Key envVar)) as [r|].
    + rewrite IH, <- app_assoc. simpl. by rewrite orb_true_r.
    + by rewrite IH.
Qed.

Lemma computeChanges_omap old new vars :
  computeChanges old new vars = omap (recordFor old new) (Key <$> vars)
  /\ (diffLoop old new vars).2 = negb (bool_decide (computeChanges old new vars = [])).
Proof. unfold computeChanges, diffLoop. rewrite diffLoop_from. simpl. done. Qed.

Lemma changed_iff old new vars :
  (diffLoop old new vars).2 = true <-> computeChanges old new vars <> [].
Proof.
  destruct (computeChanges_omap old new vars) as [_ ->].
  case_bool_decide; simpl; split; congruence.
Qed.

Lemma recordFor_key old new key r :
  recordFor old new key = Some r -> recordKey r = key.
Proof.
  unfold recordFor. destruct (old !! key); repeat case_bool_decide;
    by intros [= <-].
Qed.

Lemma computeChanges_keys old new vars r :
  r ∈ computeChanges old new vars -> recordKey r ∈ Key <$> vars.
Proof.
  destruct (computeChanges_omap old new vars) as [-> _].
  intros (key & Hkey & Hr)%list_elem_of_omap.
  apply recordFor_key in Hr as ->. done.
Qed.

(** No record is made when every declared key holds in [old] the value it
    reads as in [new], whatever else [old] holds. *)
Lemma computeChanges_unchanged old new vars :
  Forall (fun envVar => old !! Key envVar = Some (default [] (new !! Key envVar)))
         vars ->
  computeChanges old new vars = [].
Proof.
  intros Hall. destruct (computeChanges_omap old new vars) as [-> _].
  induction Hall as [|envVar vars Hv _ IH]; [done|].
  change (omap (recordFor old new) (Key <$> envVar :: vars))
    with (match recordFor old new (Key envVar) with
          | Some r => r :: omap (recordFor old new) (Key <$> vars)
          | None => omap (recordFor old new) (Key <$> vars)
          end).
  unfold recordFor at 1. rewrite Hv. cbn zeta. by rewrite bool_decide_eq_true_2.
Qed.

(** C5: the records of [computeChanges] are, key by key in the order of the
    template, those of [recordFor]: [Added] with the new value (the empty
    string included) for a key absent from the old map, [Cleared] with the old
    value for a present key whose new value is empty and differs, [Changed]
    with both values for a present key whose new value is not empty and
    differs, and none for a present key whose value is the same; [changed]
    says whether there is any record. *)
Theorem computeChanges_by_cases old new vars :
  computeChanges old new vars = omap (recordFor old new) (Key <$> vars)
  /\ (forall key,
        (old !! key = None -> default [] (new !! key) <> [] ->
         recordFor old new key = Some (Added key (default [] (new !! key))))
        /\ (old !! key = None -> default [] (new !! key) = [] ->
            recordFor old new key = Some (Added key []))
        /\ (forall oldValue,
              old !! key = Some oldValue -> default [] (new !! key) = [] ->
              oldValue <> [] ->
              recordFor old new key = Some (Cleared key oldValue))
        /\ (forall oldValue,
              old !! key = Some oldValue -> default [] (new !! key) <> [] ->
              default [] (new !! key) <> oldValue ->
              recordFor old new key
              = Some (Changed key oldValue (default [] (new !! key))))
        /\ (forall oldValue,
              old !! key = Some oldValue -> default [] (new !! key) = oldValue ->
              recordFor old new key = None))
  /\ (diffLoop old new vars).2 = negb (bool_decide (computeChanges old new vars = [])).
Proof.
  destruct (computeChanges_omap old new vars) as [Hrecords Hchanged].
  split_and!; [done| |done].
  intros key. unfold recordFor. split_and!.
  - intros -> Hnew. by rewrite bool_decide_eq_false_2.
  - intros -> Hnew. by rewrite bool_decide_eq_true_2.
  - intros oldValue -> Hnew Hold. rewrite Hnew.
    rewrite bool_decide_eq_false_2 by done. by rewrite bool_decide_eq_true_2.
  - intros oldValue -> Hnew Hdiff. by rewrite !bool_decide_eq_false_2.
  - intros oldValue -> Hnew. by rewrite bool_decide_eq_true_2.
Qed.

Lemma computeChanges_by_cases_witness :
  computeChanges {[ ("K1" : gostring) := ("old_v1" : gostring);
                    ("K2" : gostring) := ("old_v2" : gostring) ]}
                 {[ ("K1" : gostring) := ("new_v1" : gostring);
                    ("K2" : gostring) := ([] : gostring);
                    ("K3" : gostring) := ("new_v3" : gostring);
                    ("K4" : gostring) := ([] : gostring) ]}
                 [mkEnvVar "K1" [] "ex_v1"; mkEnvVar "K2" [] "ex_v2";
                  mkEnvVar "K3" [] "ex_v3"; mkEnvVar "K4" [] "ex_v4"]
  = [Changed "K1" "old_v1" "new_v1"; Cleared "K2" "old_v2";
     Added "K3" "new_v3"; Added "K4" []].
Proof.
  match goal with
  | |- computeChanges ?old ?new ?vars = _ =>
      destruct (computeChanges_by_cases old new vars) as (-> & Hcases & _);
      destruct (Hcases ("K1" : gostring)) as (_ & _ & _ & H1 & _);
      destruct (Hcases ("K2" : gostring)) as (_ & _ & H2 & _);
      destruct (Hcases ("K3" : gostring)) as (H3 & _);
      destruct (Hcases ("K4" : gostring)) as (_ & H4 & _)
  end.
  cbn [fmap list_fmap omap list_omap Key].
  rewrite (H1 ("old_v1" : gostring)), (H2 ("old_v2" : gostring)), H3, H4;
    by vm_compute.
Defined.

(** C6, as stated, fails: a key of the order that is absent from [old] reads
    as the empty string on both sides and is reported as added. *)
Lemma computeChanges_same_absent_key :
  computeChanges ∅ ∅ [mkEnvVar "A" [] []] = [Added "A" []]
  /\ computeChanges ∅ ∅ [mkEnvVar "A" [] []] <> [].
Proof. split; [reflexivity|discriminate]. Qed.

(** C6, as amended: when every key of the order is present in [old],
    [computeChanges old old order] is empty and [changed] is false. *)
Theorem computeChanges_same old vars :
  Forall (fun envVar => is_Some (old !! Key envVar)) vars ->
  computeChanges old old vars = [] /\ (diffLoop old old vars).2 = false.
Proof.
  intros Hall.
  assert (computeChanges old old vars = []) as Hnil.
  { apply computeChanges_unchanged. eapply Forall_impl; [done|].
    intros envVar [v Hv]. cbv beta. by rewrite Hv. }
  split; [done|]. apply not_true_iff_false. intros Hc%changed_iff. by apply Hc.
Qed.

Lemma computeChanges_same_witness :
  computeChanges {[ ("A" : gostring) := ("old" : gostring) ]}
                 {[ ("A" : gostring) := ("old" : gostring) ]} [mkEnvVar "A" [] []] = []
  /\ (diffLoop {[ ("A" : gostring) := ("old" : gostring) ]}
               {[ ("A" : gostring) := ("old" : gostring) ]} [mkEnvVar "A" [] []]).2
     = false.
Proof.
  apply computeChanges_same. constructor; [|constructor].
  exists ("old" : gostring). by vm_compute.
Defined.

(** * The workflow *)

(** ** The loops over the fields *)

Lemma typeInto_inputs (vars : list EnvVar) flds texts :
  Forall2 (fun _ f => isInput f) vars flds ->
  Forall2 (fun _ f => isInput f) vars (typeInto flds texts).
Proof.
  intros H. revert texts.
  induction H as [|var f vars flds [v ->] _ IH]; intros texts; simpl.
  - constructor.
  - constructor; [by eexists|apply IH].
Qed.

Lemma inputs_of_map (g : EnvVar -> gostring) vars :
  Forall2 (fun _ f => isInput f) vars (map (fun envVar => Input (g envVar)) vars).
Proof. induction vars; constructor; [by eexists|done]. Qed.

Lemma collect_dom vars flds : forall i acc c,
  collect i vars flds acc = inl c -> dom c = dom acc ∪ list_to_set (Key <$> vars).
Proof.
  induction vars as [|var vars IH]; intros i acc c; simpl.
  - intros [= ->]. by rewrite (right_id_L ∅ (∪)).
  - destruct (flds !! i) as [[val|]|]; try done.
    intros Hc%IH. rewrite Hc, dom_insert_L.
    by rewrite (comm_L (∪) {[Key var]} (dom acc)), <- (assoc_L (∪)).
Qed.

Lemma collect_ok vars flds : forall i acc,
  Forall2 (fun _ f => isInput f) vars (drop i flds) ->
  exists c, collect i vars flds acc = inl c.
Proof.
  induction vars as [|var vars IH]; intros i acc H; simpl.
  - by eexists.
  - inversion H as [|? f ? rest [v ->] Hrest Heq1 Heq2]; subst.
    assert (flds !! i = Some (Input v)) as Hi.
    { rewrite <- (Nat.add_0_r i), <- lookup_drop, <- Heq2. done. }
    rewrite Hi. apply IH. erewrite drop_S in Heq2 by done. by simplify_eq.
Qed.

(** ** The branches of [prepareForConfirmation], [actuallyWriteEnvFile] and
    [Update] *)

Lemma prepare_cases m :
  (exists e, collect 0 (envVars m) (fields m) ∅ = inr e
             /\ prepareForConfirmation m = (m, Some e))
  \/ (exists collected, collect 0 (envVars m) (fields m) ∅ = inl collected
        /\ computeChanges (existingEnvValues m) collected (envVars m) = []
        /\ prepareForConfirmation m =
             (setQuitting (setDiffSummary "No changes to apply to .env file." m),
              None))
  \/ (exists collected, collect 0 (envVars m) (fields m) ∅ = inl collected
        /\ computeChanges (existingEnvValues m) collected (envVars m) <> []
        /\ prepareForConfirmation m =
             (mkModel (form m) (envVars m) (existingEnvValues m) (fields m)
                (width m) (height m) (quitting m) (err m) true (Some StateNormal)
                collected (applyChanges m)
                (Join (map diffLine
                         (computeChanges (existingEnvValues m) collected (envVars m)))
                      [LF]),
              None)).
Proof.
  unfold prepareForConfirmation.
  destruct (collect 0 (envVars m) (fields m) ∅) as [collected|e].
  2:{ left. exists e. split; reflexivity. }
  right.
  pose proof (changed_iff (existingEnvValues m) collected (envVars m)) as Hch.
  unfold computeChanges in *.
  destruct (diffLoop (existingEnvValues m) collected (envVars m))
    as [diffLines changed] eqn:Hloop.
  cbn [fst snd] in *. destruct changed; cbn [negb].
  - right. exists collected. rewrite Hloop. split_and!; [done| |done].
    by apply Hch.
  - left. exists collected. rewrite Hloop. split_and!; [done| |done].
    destruct diffLines; [done|]. by destruct Hch as [_ Hch]; discriminate Hch.
Qed.

Lemma actuallyWrite_files values w :
  exists backup,
    fs (actuallyWriteEnvFile values w).1 =
      (writeEnvFile (ranging w) values
         (mkFS (dotEnvExample (fs w)) (dotEnv (fs w)) backup)).1
    /\ (actuallyWriteEnvFile values w).2 =
         match dotEnv (fs w) with
         | Directory => Some (Errorf "error writing .env file: %w" ErrIsDir)
         | _ => None
         end
    /\ backup = match dotEnv (fs w) with
                | Regular _ => (backupEnvFile (dotEnv (fs w)) (dotEnvOld (fs w))).1
                | _ => dotEnvOld (fs w)
                end.
Proof.
  unfold actuallyWriteEnvFile, writeEnvFile, backupEnvFile.
  destruct w as [[example target old] out order]; simpl.
  destruct target as [| |content]; simpl; [by eexists..|].
  destruct old; simpl; by eexists.
Qed.

Lemma phase_dec m :
  phase m = Collecting \/ phase m = Reviewing
  \/ (phase m <> Collecting /\ phase m <> Reviewing).
Proof. destruct (phase m); auto. Qed.

Lemma phase_Collecting m :
  phase m = Collecting <-> err m = None /\ quitting m = false /\ confirming m = false.
Proof.
  unfold phase. destruct (err m), (quitting m), (confirming m);
    repeat case_match; intuition congruence.
Qed.

Lemma phase_Reviewing m :
  phase m = Reviewing <-> err m = None /\ quitting m = false /\ confirming m = true.
Proof.
  unfold phase. destruct (err m), (quitting m), (confirming m);
    repeat case_match; intuition congruence.
Qed.

Lemma commits_true m ev :
  commits m ev = true <->
  phase m = Reviewing /\ interrupts ev = false
  /\ formAfter ev = StateCompleted /\ choiceAfter ev = true.
Proof.
  unfold commits. rewrite !andb_true_iff, !bool_decide_eq_true, negb_true_iff.
  tauto.
Qed.

Lemma afterSwitch_fields m ev :
  let m1 := afterSwitch m ev in
  form m1 = form m /\ envVars m1 = envVars m
  /\ existingEnvValues m1 = existingEnvValues m /\ fields m1 = fields m
  /\ quitting m1 = quitting m /\ err m1 = err m /\ confirming m1 = confirming m
  /\ confirmForm m1 = confirmForm m /\ envValuesToSave m1 = envValuesToSave m
  /\ applyChanges m1 = applyChanges m.
Proof. unfold afterSwitch. by destruct (msg ev). Qed.

(** [Done], [Aborted] and [Failed] are terminal. *)
Lemma Update_early m w ev :
  phase m <> Collecting -> phase m <> Reviewing -> Update m w ev = (m, w, Quit).
Proof.
  unfold phase, Update. intros Hc Hr.
  destruct (err m).
  { by rewrite bool_decide_eq_true_2 by (by eexists). }
  rewrite bool_decide_eq_false_2 by (by intros [? ?]).
  destruct (quitting m); [done|]. by destruct (confirming m).
Qed.

Lemma Update_interrupt m w ev :
  (phase m = Collecting \/ phase m = Reviewing) -> interrupts ev = true ->
  Update m w ev = (setQuitting m, w, Quit).
Proof.
  unfold phase, Update, interrupts. intros Hph Hint.
  destruct (err m); [by destruct Hph|].
  rewrite bool_decide_eq_false_2 by (by intros [? ?]).
  destruct (quitting m); [by destruct (confirming m), Hph; repeat case_match|].
  destruct (msg ev); try done. by rewrite Hint.
Qed.

Lemma Update_collecting m w ev :
  phase m = Collecting -> interrupts ev = false ->
  let m1 := afterSwitch m ev in
  let m2 := mkModel (formAfter ev) (envVars m1) (existingEnvValues m1)
                    (typeInto (fields m1) (inputsAfter ev)) (width m1) (height m1)
                    (quitting m1) (err m1) (confirming m1) (confirmForm m1)
                    (envValuesToSave m1) (applyChanges m1) (diffSummary m1) in
  Update m w ev =
    match formAfter ev with
    | StateCompleted =>
        match prepareForConfirmation m2 with
        | (m3, Some e) => (setQuitting (setErr e m3), w, Quit)
        | (m3, None) => if quitting m3 then (m3, w, Quit) else (m3, w, Batch)
        end
    | StateAborted =>
        (setQuitting m2,
         print (Println "Operation cancelled by user (main form aborted).") w, Quit)
    | StateNormal => (m2, w, Batch)
    end.
Proof.
  unfold phase, Update, interrupts, afterSwitch. intros Hph Hint.
  destruct (err m) eqn:Herr; [done|].
  rewrite bool_decide_eq_false_2 by (by intros [? ?]).
  destruct (quitting m) eqn:Hq; [by repeat case_match|].
  destruct (confirming m) eqn:Hc; [done|].
  destruct (msg ev) eqn:Hmsg; cbn [setSize confirming form]; try rewrite Hint;
    rewrite ?Hc; cbn [form]; destruct (formAfter ev); try done;
    by destruct (prepareForConfirmation _) as [? []].
Qed.

Lemma Update_reviewing m w ev :
  phase m = Reviewing -> is_Some (confirmForm m) -> interrupts ev = false ->
  let m1 := afterSwitch m ev in
  let m2 := mkModel (form m1) (envVars m1) (existingEnvValues m1) (fields m1)
                    (width m1) (height m1) (quitting m1) (err m1) (confirming m1)
                    (Some (formAfter ev)) (envValuesToSave m1) (choiceAfter ev)
                    (diffSummary m1) in
  Update m w ev =
    match formAfter ev with
    | StateCompleted =>
        if choiceAfter ev then
          match actuallyWriteEnvFile (envValuesToSave m) w with
          | (w', Some e) => (setQuitting (setErr e m2), w', Quit)
          | (w', None) => (setQuitting m2, w', Quit)
          end
        else (setQuitting m2, print (Println "Changes discarded by user.") w, Quit)
    | StateAborted =>
        (setQuitting m2, print (Println "Save operation cancelled by user.") w, Quit)
    | StateNormal => (m2, w, Batch)
    end.
Proof.
  unfold phase, Update, interrupts, afterSwitch. intros Hph [st Hst] Hint.
  destruct (err m) eqn:Herr; [done|].
  rewrite bool_decide_eq_false_2 by (by intros [? ?]).
  destruct (quitting m) eqn:Hq; [by repeat case_match|].
  destruct (confirming m) eqn:Hc; [|done].
  destruct (msg ev) eqn:Hmsg; cbn [setSize confirming confirmForm envValuesToSave];
    try rewrite Hint; rewrite ?Hc, ?Hst; cbn [applyChanges];
    destruct (formAfter ev); try done;
    destruct (choiceAfter ev); try done;
    by destruct (actuallyWriteEnvFile _ _) as [? []].
Qed.

(** ** What holds along a run *)

Ltac cons_tac :=
  rewrite ?phase_Collecting, ?phase_Reviewing; simpl; intros; destruct_and?;
  try done; try congruence.

Lemma consistent_quit m :
  consistent m -> confirming m = false \/ confirmForm m <> None ->
  consistent (setQuitting m).
Proof.
  intros [] Hc. split; simpl; try done.
  - by intros (_ & ? & _)%phase_Collecting.
  - by intros (_ & ? & _)%phase_Reviewing.
Qed.

Lemma Update_consistent m w ev : consistent m -> consistent (Update m w ev).1.1.
Proof.
  intros Hm.
  destruct (phase_dec m) as [Hph|[Hph|[Hc Hr]]]; [| |by rewrite Update_early].
  - (* collecting *)
    destruct (interrupts ev) eqn:Hint.
    { rewrite Update_interrupt by auto. apply consistent_quit; [done|].
      left. by apply phase_Collecting in Hph as (_ & _ & ?). }
    rewrite Update_collecting by done.
    destruct (afterSwitch_fields m ev)
      as (Hf & Hv & Hx & Hfl & Hq & He & Hcf & Hcform & Hs & Ha).
    apply phase_Collecting in Hph as (Herr & Hquit & Hconf).
    pose proof (typeInto_inputs _ _ (inputsAfter ev) (fields_are_inputs m Hm))
      as Hinputs.
    rewrite <- Hv, <- Hfl in Hinputs.
    pose proof (saved_keys m Hm) as Hsaved. unfold templateKeys in *.
    rewrite <- Hv, <- Hs in Hsaved.
    destruct (formAfter ev) eqn:Hform.
    + split; cons_tac.
    + match goal with |- context [prepareForConfirmation ?x] => set (m2 := x) end.
      destruct (prepare_cases m2)
        as [(e & Hcol & ->)|[(c & Hcol & Hnil & ->)|(c & Hcol & Hdiff & ->)]].
      * destruct (collect_ok (envVars m2) (fields m2) 0 ∅) as [c Hc]; [done|].
        congruence.
      * subst m2. split; cons_tac.
      * subst m2. simpl. rewrite Hq, Hquit.
        apply collect_dom in Hcol. rewrite dom_empty_L in Hcol. simpl in Hcol.
        rewrite (left_id_L ∅ (∪)) in Hcol.
        split; cons_tac; by rewrite Hcol.
    + split; cons_tac.
  - (* reviewing *)
    pose proof (reviewing_form m Hm Hph) as Hcf.
    destruct (interrupts ev) eqn:Hint.
    { rewrite Update_interrupt by auto. apply consistent_quit; [done|].
      right. congruence. }
    rewrite Update_reviewing; [|done|by rewrite Hcf|done].
    destruct (afterSwitch_fields m ev)
      as (Hf & Hv & Hx & Hfl & Hq & He & Hc & Hcform & Hs & Ha).
    apply phase_Reviewing in Hph as (Herr & Hquit & Hconf).
    pose proof (confirming_diff m Hm Hconf) as Hdiff.
    pose proof (fields_are_inputs m Hm) as Hinputs.
    rewrite <- Hv, <- Hfl in Hinputs. rewrite <- Hv, <- Hs, <- Hx in Hdiff.
    unfold templateKeys in *. rewrite <- Hv in Hdiff.
    pose proof (saved_keys m Hm) as Hsaved. unfold templateKeys in *.
    rewrite <- Hv, <- Hs in Hsaved.
    destruct (formAfter ev) eqn:Hform; [|destruct (choiceAfter ev);
      [destruct (actuallyWriteEnvFile _ _) as [w' [e|]]|]|]; split; cons_tac.
Qed.

Lemma readEnvVars_error file vars e :
  readEnvVarsFromFile file = (vars, Some e) -> vars = [].
Proof.
  unfold readEnvVarsFromFile.
  destruct file as [| |content]; try by intros [= <- _].
  destruct (bufio.Lines content) as [lines []]; [by intros [= <- _]|done].
Qed.

(** What [Init] leaves behind: a failure with no variable and no field, or
    a main form over the template. *)
Lemma Init_cases w0 m w cmd :
  Init initialModel w0 = (m, w, cmd) ->
  (exists e, err m = Some e /\ envVars m = [] /\ fields m = [] /\ cmd = Quit
             /\ confirming m = false /\ quitting m = false /\ w = w0
             /\ envValuesToSave m = ∅)
  \/ (exists lines,
        dotEnvExample (fs w0) = Regular lines
        /\ readEnvVarsFromFile (dotEnvExample (fs w0)) = (envVars m, None)
        /\ envVars m <> []
        /\ existingEnvValues m =
             match (readExistingEnvFile (dotEnv (fs w0))).2 with
             | Some _ => ∅
             | None => (readExistingEnvFile (dotEnv (fs w0))).1
             end
        /\ fields m =
             map (fun envVar => Input (initialValue (existingEnvValues m) envVar))
                 (envVars m)
        /\ phase m = Collecting /\ form m = StateNormal /\ cmd = Batch
        /\ fs w = fs w0 /\ envValuesToSave m = ∅).
Proof.
  unfold Init.
  destruct (readEnvVarsFromFile (dotEnvExample (fs w0))) as [vars [e|]] eqn:Hread.
  { intros [= <- <- <-]. left. apply readEnvVars_error in Hread as ->.
    by eexists. }
  case_bool_decide as Hlen.
  { intros [= <- <- <-]. left. destruct vars; [|done]. by eexists. }
  assert (exists lines, dotEnvExample (fs w0) = Regular lines) as [lines Hlines].
  { unfold readEnvVarsFromFile in Hread.
    destruct (dotEnvExample (fs w0)); try done. by eexists. }
  destruct (readExistingEnvFile (dotEnv (fs w0))) as [existing [e|]] eqn:Hex;
    intros [= <- <- <-]; right; exists lines; simpl;
    split_and!; try done; by destruct vars.
Qed.

Lemma Init_consistent w0 : consistent (Init initialModel w0).1.1.
Proof.
  destruct (Init initialModel w0) as [[m w] cmd] eqn:HInit. simpl.
  destruct (Init_cases _ _ _ _ HInit)
    as [(e & He & Hv & Hf & _ & Hc & Hq & _ & Hs)
       |(lines & _ & _ & _ & _ & Hf & Hph & Hform & _ & _ & Hs)].
  - split; cons_tac; [|by rewrite Hs]. rewrite Hv, Hf. constructor.
  - pose proof Hph as (? & ? & ?)%phase_Collecting.
    split; cons_tac; [|by rewrite Hs]. rewrite Hf. apply inputs_of_map.
Qed.

Lemma run_snoc w0 events ev : run w0 (events ++ [ev]) = step (run w0 events) ev.
Proof. unfold run. by rewrite foldl_app. Qed.

Lemma run_consistent w0 events : consistent (run w0 events).1.
Proof.
  induction events as [|ev events IH] using rev_ind.
  - apply Init_consistent.
  - rewrite run_snoc. by apply Update_consistent.
Qed.

(** [Update] leaves the template and the prior configuration alone. *)
Lemma Update_frame m w ev :
  consistent m ->
  envVars (Update m w ev).1.1 = envVars m
  /\ existingEnvValues (Update m w ev).1.1 = existingEnvValues m.
Proof.
  intros Hm.
  destruct (phase_dec m) as [Hph|[Hph|[Hc Hr]]]; [| |by rewrite Update_early].
  - destruct (interrupts ev) eqn:Hint; [by rewrite Update_interrupt by auto|].
    rewrite Update_collecting by done.
    destruct (afterSwitch_fields m ev) as (Hf & Hv & Hx & _).
    destruct (formAfter ev); [by simpl; rewrite Hv, Hx| |by simpl; rewrite Hv, Hx].
    match goal with |- context [prepareForConfirmation ?x] => set (m2 := x) end.
    destruct (prepare_cases m2)
      as [(e & Hcol & ->)|[(c & Hcol & Hnil & ->)|(c & Hcol & Hdiff & ->)]];
      subst m2; simpl; rewrite ?Hv, ?Hx; try done.
    by destruct (quitting (afterSwitch m ev)); simpl; rewrite ?Hv, ?Hx.
  - pose proof (reviewing_form m Hm Hph) as Hcf.
    destruct (interrupts ev) eqn:Hint; [by rewrite Update_interrupt by auto|].
    rewrite Update_reviewing; [|done|by rewrite Hcf|done].
    destruct (afterSwitch_fields m ev) as (Hf & Hv & Hx & _).
    destruct (formAfter ev); [by simpl; rewrite Hv, Hx| |by simpl; rewrite Hv, Hx].
    destruct (choiceAfter ev); [|by simpl; rewrite Hv, Hx].
    by destruct (actuallyWriteEnvFile _ _) as [w' [e|]]; simpl; rewrite Hv, Hx.
Qed.

Lemma run_frame w0 events :
  envVars (run w0 events).1 = envVars (run w0 []).1
  /\ existingEnvValues (run w0 events).1 = existingEnvValues (run w0 []).1.
Proof.
  induction events as [|ev events [IH1 IH2]] using rev_ind; [done|].
  rewrite run_snoc. unfold step. cbn [fst].
  destruct (Update_frame (run w0 events).1 (run w0 events).2 ev) as [-> ->];
    [apply run_consistent|done].
Qed.

Lemma readEnvVars_keys file vars :
  readEnvVarsFromFile file = (vars, None) -> Forall wfKey (Key <$> vars).
Proof.
  unfold readEnvVarsFromFile. destruct file as [| |content]; try done.
  destruct (bufio.Lines content) as [lines tooLong] eqn:Hlines.
  destruct tooLong; [done|]. intros [= <-].
  apply Forall_forall.
  intros k (e & -> & (line & Hin & He)%list_elem_of_omap)%list_elem_of_fmap.
  apply (templateLine_key line e He). apply (Lines_no_LF content).
  by rewrite Hlines.
Qed.

Lemma run_keys w0 events : Forall wfKey (templateKeys (run w0 events).1).
Proof.
  unfold templateKeys. destruct (run_frame w0 events) as [-> _].
  change (run w0 []) with (Init initialModel w0).1.
  destruct (Init initialModel w0) as [[m w] cmd] eqn:HInit.
  destruct (Init_cases _ _ _ _ HInit)
    as [(e & _ & Hv & _)|(lines & _ & Hread & _)]; cbn [fst]; rewrite ?Hv.
  - constructor.
  - by apply readEnvVars_keys in Hread.
Qed.

(** ** Where the files change *)


Lemma Update_commits m w ev :
  consistent m -> commits m ev = true ->
  (Update m w ev).1.2 = (actuallyWriteEnvFile (envValuesToSave m) w).1
  /\ match (actuallyWriteEnvFile (envValuesToSave m) w).2 with
     | None => phase (Update m w ev).1.1 = Done
     | Some e => phase (Update m w ev).1.1 = Failed e
     end.
Proof.
  intros Hm (Hph & Hint & Hform & Hchoice)%commits_true.
  pose proof (reviewing_form m Hm Hph) as Hcf.
  rewrite Update_reviewing; [|done|by rewrite Hcf|done].
  rewrite Hform, Hchoice.
  destruct (afterSwitch_fields m ev) as (_ & _ & _ & _ & Hq & He & Hc & _).
  apply phase_Reviewing in Hph as (Herr & Hquit & Hconf).
  destruct (actuallyWriteEnvFile _ _) as [w' [e|]]; simpl; [done|].
  split; [done|]. unfold phase. simpl. by rewrite ?He, ?Herr, ?Hc, ?Hconf.
Qed.

Lemma Update_completed m w ev collected :
  consistent m -> phase m = Collecting -> interrupts ev = false ->
  formAfter ev = StateCompleted ->
  collect 0 (envVars m) (typeInto (fields m) (inputsAfter ev)) ∅ = inl collected ->
  (Update m w ev).1.2 = w
  /\ (computeChanges (existingEnvValues m) collected (envVars m) = [] ->
      phase (Update m w ev).1.1 = Done)
  /\ (computeChanges (existingEnvValues m) collected (envVars m) <> [] ->
      phase (Update m w ev).1.1 = Reviewing
      /\ envValuesToSave (Update m w ev).1.1 = collected).
Proof.
  intros Hm Hph Hint Hform Hcol.
  rewrite Update_collecting by done. rewrite Hform.
  destruct (afterSwitch_fields m ev) as (Hf & Hv & Hx & Hfl & Hq & He & Hc & _).
  apply phase_Collecting in Hph as (Herr & Hquit & Hconf).
  match goal with |- context [prepareForConfirmation ?x] => set (m2 := x) end.
  assert (collect 0 (envVars m2) (fields m2) ∅ = inl collected) as Hcol2.
  { subst m2. simpl. by rewrite Hv, Hfl. }
  assert (existingEnvValues m2 = existingEnvValues m /\ envVars m2 = envVars m)
    as [Hx2 Hv2] by (by subst m2).
  destruct (prepare_cases m2)
    as [(e & Hcol' & ->)|[(c & Hcol' & Hnil & ->)|(c & Hcol' & Hdiff & ->)]];
    [congruence|..]; assert (c = collected) as -> by congruence;
    rewrite Hx2, Hv2 in *.
  - simpl. split_and!; [done| |done].
    intros _. subst m2. unfold phase. simpl. by rewrite ?He, ?Herr, ?Hc, ?Hconf.
  - subst m2. simpl. rewrite Hq, Hquit. simpl. split_and!; [done|done|].
    intros _. split; [|done]. unfold phase. simpl.
    by rewrite ?He, ?Herr, ?Hq, ?Hquit.
Qed.




(** ** The keys of the maps and of the written file *)

(** C1, as stated, fails: loading the target file of the repository's own
    test keeps [KEY_NEW], which the template does not declare. *)
Lemma prior_configuration_keeps_undeclared_key :
  err (run testWorld []).1 = None
  /\ templateKeys (run testWorld []).1 = ["KEY1" : gostring; "KEY2" : gostring]
  /\ existingEnvValues (run testWorld []).1 !! ("KEY_NEW" : gostring)
     = Some ("new_val" : gostring)
  /\ (("KEY_NEW" : gostring) ∉ templateKeys (run testWorld []).1).
Proof.
  split_and!; try (vm_compute; reflexivity).
  apply (bool_decide_unpack _). by vm_compute.
Qed.

(** C1, as amended: along every run the keys of the newly collected values
    are declared in the template (they are exactly the declared keys once the
    values are collected), and so is the key of every [ChangeRecord]; the
    prior configuration is the target file as [readExistingEnvFile] returns
    it, with every key of that file, or the empty map when reading fails. *)
Theorem template_bounds_collected_and_changes w0 events :
  let m := (run w0 events).1 in
  dom (envValuesToSave m) ⊆ list_to_set (templateKeys m)
  /\ (phase m = Reviewing -> dom (envValuesToSave m) = list_to_set (templateKeys m))
  /\ (forall new r,
        r ∈ computeChanges (existingEnvValues m) new (envVars m) ->
        recordKey r ∈ templateKeys m)
  /\ (err (run w0 []).1 = None ->
      existingEnvValues m =
        match (readExistingEnvFile (dotEnv (fs w0))).2 with
        | Some _ => ∅
        | None => (readExistingEnvFile (dotEnv (fs w0))).1
        end).
Proof.
  intros m. pose proof (run_consistent w0 events) as Hm. fold m in Hm.
  split_and!.
  - apply Hm.
  - intros (_ & _ & Hc)%phase_Reviewing. by apply (confirming_diff m Hm).
  - intros new r. apply computeChanges_keys.
  - subst m. destruct (run_frame w0 events) as [_ ->].
    change (run w0 []) with (Init initialModel w0).1.
    destruct (Init initialModel w0) as [[m w] cmd] eqn:HInit.
    destruct (Init_cases _ _ _ _ HInit)
      as [(e & He & _)|(lines & _ & _ & _ & Hx & _)]; cbn [fst];
      [congruence|done].
Qed.

Lemma template_bounds_witness :
  dom (envValuesToSave (run testWorld [completes edited]).1)
    = list_to_set (templateKeys (run testWorld [completes edited]).1)
  /\ existingEnvValues (run testWorld [completes edited]).1
     = (readExistingEnvFile (dotEnv (fs testWorld))).1.
Proof.
  pose proof (template_bounds_collected_and_changes testWorld [completes edited])
    as (_ & Hdom & _ & Hprior).
  split; [apply Hdom; vm_compute; reflexivity|].
  rewrite Hprior by (vm_compute; reflexivity). reflexivity.
Defined.

(** C7: after a successful [Init], the input of every template field shows
    the existing value when the key is present in the prior configuration
    with a non-empty value; otherwise the template's example value when that
    is not empty; otherwise the empty string. *)
Theorem initial_value_priority w0 i envVar :
  let m := (Init initialModel w0).1.1 in
  err m = None -> envVars m !! i = Some envVar ->
  exists shown,
    fields m !! i = Some (Input shown)
    /\ (forall v, existingEnvValues m !! Key envVar = Some v -> v <> [] -> shown = v)
    /\ (existingEnvValues m !! Key envVar = None
        \/ existingEnvValues m !! Key envVar = Some [] ->
        (ExampleValue envVar <> [] -> shown = ExampleValue envVar)
        /\ (ExampleValue envVar = [] -> shown = [])).
Proof.
  intros m Herr Hi. subst m.
  destruct (Init initialModel w0) as [[m w] cmd] eqn:HInit. cbn [fst] in *.
  destruct (Init_cases _ _ _ _ HInit)
    as [(e & He & _)|(lines & _ & _ & _ & _ & Hf & _)]; [congruence|].
  exists (initialValue (existingEnvValues m) envVar). split_and!.
  - rewrite Hf, list_lookup_fmap, Hi. done.
  - intros v Hv Hne. unfold initialValue. rewrite Hv. simpl.
    repeat case_bool_decide; simpl; try done;
      match goal with H : ¬ is_Some (Some _) |- _ => by destruct H end.
  - intros Hnone. unfold initialValue.
    split; intros Hex; destruct Hnone as [->| ->]; simpl;
      repeat case_bool_decide; simpl; try done;
      try match goal with
      | H : is_Some None |- _ => by destruct H
      | H : ¬ is_Some (Some _) |- _ => by destruct H
      end.
Qed.

Lemma initial_value_priority_witness :
  exists shown,
    fields (Init initialModel testWorld).1.1 !! 0 = Some (Input shown)
    /\ shown = ("actual_val1" : gostring).
Proof.
  destruct (initial_value_priority testWorld 0
              (mkEnvVar "KEY1" "desc1" "example_val1"))
    as (shown & Hfield & Hprior & _); [by vm_compute..|].
  exists shown. split; [exact Hfield|].
  apply Hprior; by vm_compute.
Defined.

Lemma pieces_entries kvs :
  Forall (fun kv => LF ∉ kv.1) kvs ->
  bufio.pieces (entries kvs) = map lineOf kvs ++ [[]].
Proof.
  unfold entries. induction 1 as [|[k v] kvs Hk _ IH]; simpl; [done|].
  unfold encodeEntry at 1. simpl.
  replace ((k ++ "="%char :: outputValue v ++ [LF]) ++
             concat (map (fun kv => encodeEntry kv.1 kv.2) kvs))
    with ((k ++ "="%char :: outputValue v)
            ++ LF :: concat (map (fun kv => encodeEntry kv.1 kv.2) kvs)).
  2:{ rewrite <- !app_assoc. simpl. by rewrite <- app_assoc. }
  rewrite pieces_line, IH; [done|].
  destruct (outputValue_line v) as (? & _).
  rewrite not_elem_of_app, not_elem_of_cons. done.
Qed.

Lemma dom_assign l : forall acc : gmap gostring gostring,
  dom (foldl assign acc l) = dom acc ∪ list_to_set l.*1.
Proof.
  induction l as [|[k v] l IH]; intros acc; simpl.
  - by rewrite (right_id_L ∅ (∪)).
  - rewrite IH. unfold assign. simpl. rewrite dom_insert_L.
    by rewrite (comm_L (∪) {[k]} (dom acc)), <- (assoc_L (∪)).
Qed.

(** Reading back what [writeEnvFile] wrote finds no key but the written
    ones. *)
Lemma readback_keys kvs k :
  Forall (fun kv => wfKey kv.1) kvs ->
  k ∈ dom (readExistingEnvFile (Regular (entries kvs))).1 -> k ∈ kvs.*1.
Proof.
  intros Hwf. unfold readExistingEnvFile.
  destruct (bufio.Lines (entries kvs)) as [lines tooLong] eqn:Hlines. simpl.
  rewrite dom_assign, dom_empty_L, elem_of_union, elem_of_list_to_set.
  intros [?%elem_of_empty|Hk]; [done|].
  apply list_elem_of_fmap in Hk as ([k' v'] & -> & Hin). simpl.
  apply list_elem_of_omap in Hin as (l & Hl & Hdec).
  assert (l ∈ (bufio.Lines (entries kvs)).1) as Hl' by (by rewrite Hlines).
  apply scan_lines in Hl' as (p & Hp & ->).
  rewrite pieces_entries in Hp.
  2:{ eapply Forall_impl; [done|]. by intros kv (_ & _ & _ & _ & ?). }
  apply elem_of_app in Hp as [Hp|Hp%list_elem_of_singleton].
  - apply list_elem_of_fmap in Hp as ([k0 v0] & -> & Hkv).
    rewrite Forall_forall in Hwf.
    destruct (Hwf _ Hkv) as (Htrim & Hne & Heq & Hhash & _).
    simpl in *. destruct (outputValue_line v0) as (_ & _ & Hlast).
    rewrite dropCR_keep in Hdec.
    2:{ unfold lineOf. simpl. rewrite last_app_cons.
        destruct (outputValue v0) eqn:Ho; [done|]. by rewrite last_cons_cons. }
    unfold lineOf in Hdec. simpl in Hdec.
    rewrite existingLine_entry in Hdec; try done.
    + injection Hdec as <- _. apply list_elem_of_fmap. by exists (k0, v0).
    + change (list_ascii_of_string "#") with ["#"%char]. rewrite HasPrefix_byte.
      destruct k0 as [|c k0]; [done|]. apply eqb_false_of_ne.
      intros ->. apply Hhash. by left.
  - subst p. by vm_compute in Hdec.
Qed.

(** C10: when a run commits and [.env] is not a directory, the new [.env]
    holds, for each entry of the collected map, once, the line made of its
    key, an equals sign, its value as [outputValue] writes it and a line
    feed, in the order in which the execution ranges over the map, and
    nothing else; the keys of the collected map are exactly the keys the
    template declares; a key of the prior configuration that the template
    does not declare is not found when the new file is read back, and no
    [ChangeRecord] ever names it; and when every declared key holds in the
    prior configuration the value collected for it, the diff is empty and
    [changed] is false, whatever other keys the prior configuration holds. *)
Theorem commit_writes_template_keys_only w0 events ev :
  let s := run w0 events in
  let s' := step s ev in
  let collected := envValuesToSave s.1 in
  commits s.1 ev = true -> dotEnv (fs s.2) <> Directory ->
  (exists kvs,
     kvs ≡ₚ map_to_list collected
     /\ dotEnv (fs s'.2)
        = Regular (concat (map (fun kv => kv.1 ++ "=" ++ outputValue kv.2 ++ [LF])
                               kvs)))
  /\ (forall k, k ∈ (map_to_list collected).*1 <-> k ∈ templateKeys s.1)
  /\ (forall k,
        k ∈ dom (existingEnvValues s.1) -> k ∉ templateKeys s.1 ->
        (k ∉ dom (readExistingEnvFile (dotEnv (fs s'.2))).1)
        /\ forall new r,
             r ∈ computeChanges (existingEnvValues s.1) new (envVars s.1) ->
             recordKey r <> k)
  /\ (forall new,
        Forall (fun envVar =>
                  existingEnvValues s.1 !! Key envVar
                  = Some (default [] (new !! Key envVar))) (envVars s.1) ->
        computeChanges (existingEnvValues s.1) new (envVars s.1) = []
        /\ (diffLoop (existingEnvValues s.1) new (envVars s.1)).2 = false).
Proof.
  intros s s' collected Hcommit Hdir.
  pose proof (run_consistent w0 events) as Hs. fold s in Hs.
  pose proof (run_keys w0 events) as Hkeys. fold s in Hkeys.
  destruct (Update_commits s.1 s.2 ev Hs Hcommit) as [Hw _].
  apply commits_true in Hcommit as (Hph & _).
  apply phase_Reviewing in Hph as (_ & _ & Hconf).
  destruct (confirming_diff _ Hs Hconf) as [_ Hdom]. fold collected in Hdom.
  assert (forall k, k ∈ (map_to_list collected).*1 <-> k ∈ templateKeys s.1)
    as Hlist.
  { intros k.
    rewrite <- (elem_of_list_to_set (C:=gset gostring) k (templateKeys s.1)),
      <- Hdom.
    rewrite elem_of_dom. split.
    - intros ([k' v] & -> & Hin%elem_of_map_to_list)%list_elem_of_fmap.
      by eexists.
    - intros [v Hv]. apply list_elem_of_fmap. exists (k, v). split; [done|].
      by apply elem_of_map_to_list. }
  pose proof (visit_all (ranging s.2) collected) as Hperm.
  assert (dotEnv (fs s'.2) = Regular (entries (visit (ranging s.2) collected)))
    as Hfile.
  { subst s'. unfold step, collected. cbn [fst snd]. rewrite Hw.
    destruct (actuallyWrite_files (envValuesToSave s.1) s.2)
      as (backup & -> & _ & _).
    unfold writeEnvFile. simpl. by destruct (dotEnv (fs s.2)). }
  split_and!; [by exists (visit (ranging s.2) collected)|done| |].
  - intros k Hk Hnot. split.
    + rewrite Hfile. intros Hin%readback_keys.
      * apply Hnot, Hlist. by rewrite <- Hperm.
      * apply Forall_forall. intros [k' v] Hin'. simpl.
        rewrite Forall_forall in Hkeys. apply Hkeys, Hlist.
        apply list_elem_of_fmap. exists (k', v). by rewrite <- Hperm.
    + intros new r Hr%computeChanges_keys Heq. rewrite Heq in Hr.
      by apply Hnot.
  - intros new Hall. pose proof (computeChanges_unchanged _ _ _ Hall) as Hnil.
    split; [done|]. apply not_true_iff_false. intros Hc%changed_iff.
    by apply Hc.
Qed.

Lemma commit_writes_witness :
  (dotEnv (fs (step (run testWorld [completes edited]) confirms).2)
   = Regular ("KEY1=" ++ [DQUOTE] ++ "new value" ++ [DQUOTE; LF]
              ++ "KEY2=example_val2" ++ [LF])
   \/ dotEnv (fs (step (run testWorld [completes edited]) confirms).2)
      = Regular ("KEY2=example_val2" ++ [LF]
                 ++ "KEY1=" ++ [DQUOTE] ++ "new value" ++ [DQUOTE; LF]))
  /\ (("KEY_NEW" : gostring)
        ∉ dom (readExistingEnvFile
                 (dotEnv (fs (step (run testWorld [completes edited]) confirms).2))).1).
Proof.
  destruct (commit_writes_template_keys_only testWorld [completes edited] confirms)
    as ((kvs & Hperm & Hfile) & _ & Hgone & _); [by vm_compute..|].
  split.
  - set (l := map_to_list _) in Hperm. vm_compute in l. subst l.
    rewrite Hfile.
    symmetry in Hperm.
    apply Permutation_length_2_inv in Hperm as [->| ->]; [right|left];
      reflexivity.
  - apply (Hgone ("KEY_NEW" : gostring)).
    + apply (bool_decide_unpack _). by vm_compute.
    + apply (bool_decide_unpack _). by vm_compute.
Defined.

(** * Deciding by computation *)

Ltac by_compute :=
  first [vm_compute; reflexivity
        |apply (bool_decide_unpack _); vm_compute; exact I].

(** * Further properties of the codec *)

(** ** Escaping and reading back *)

Lemma substitute_app c new s t :
  substitute c new (s ++ t) = substitute c new s ++ substitute c new t.
Proof. unfold substitute. by rewrite map_app, concat_app. Qed.

Lemma substitute_absent c new s : c ∉ s -> substitute c new s = s.
Proof.
  unfold substitute. induction s as [|x s IH]; intros Hs; simpl; [done|].
  apply not_elem_of_cons in Hs as [Hx Hs].
  rewrite (eqb_false_of_ne x c) by done. simpl. by rewrite IH.
Qed.

Lemma escapeInOrder_bytes value :
  escapeInOrder value = concat (map escapeByte value).
Proof.
  unfold escapeInOrder. induction value as [|c value IH]; [done|].
  change (c :: value) with ([c] ++ value).
  rewrite !substitute_app, IH, map_app, concat_app. f_equal.
  unfold escapeByte, substitute. simpl.
  destruct (Ascii.eqb_spec c BSLASH) as [->|Hb]; [done|]. simpl.
  destruct (Ascii.eqb_spec c DQUOTE) as [->|Hq]; [done|]. simpl.
  destruct (Ascii.eqb_spec c LF) as [->|Hl]; [done|]. simpl.
  destruct (Ascii.eqb_spec c CR) as [->|Hr]; [done|]. done.
Qed.

Lemma keptEscapes_bytes value :
  keptEscapes value =
    concat (map (fun c => if (c =? LF)%char then [BSLASH; "n"%char]
                          else if (c =? CR)%char then [BSLASH; "r"%char]
                          else [c]) value).
Proof.
  unfold keptEscapes. induction value as [|c value IH]; [done|].
  change (c :: value) with ([c] ++ value).
  rewrite !substitute_app, IH, map_app, concat_app. f_equal.
  unfold substitute. simpl.
  destruct (Ascii.eqb_spec c LF) as [->|Hl]; [done|]. simpl.
  destruct (Ascii.eqb_spec c CR) as [->|Hr]; [done|]. done.
Qed.

Lemma keptEscapes_id value : LF ∉ value -> CR ∉ value -> keptEscapes value = value.
Proof.
  intros Hl Hr. unfold keptEscapes. by rewrite (substitute_absent LF), substitute_absent.
Qed.

(** The first replacement of the readers pairs the doubled backslashes. *)
Lemma unescape_first value :
  ReplaceAll (concat (map escapeByte value)) [BSLASH; BSLASH] [BSLASH]
  = concat (map halfReadByte value).
Proof.
  unfold ReplaceAll. induction value as [|c value IH]; [done|].
  cbn [map concat]. rewrite <- IH. unfold escapeByte, halfReadByte.
  destruct (Ascii.eqb_spec c BSLASH) as [->|Hb]; [done|].
  destruct (Ascii.eqb_spec c DQUOTE) as [->|Hq]; [done|].
  destruct (Ascii.eqb_spec c LF) as [->|Hl]; [done|].
  destruct (Ascii.eqb_spec c CR) as [->|Hr]; [done|].
  cbn [app replaceFrom HasPrefix]. by rewrite (eqb_false_of_ne c BSLASH).
Qed.

Lemma halfRead_head value : head (concat (map halfReadByte value)) <> Some DQUOTE.
Proof.
  destruct value as [|c value]; [done|]. cbn [map concat]. unfold halfReadByte.
  destruct (Ascii.eqb_spec c DQUOTE) as [->|Hq]; [done|].
  destruct (Ascii.eqb_spec c LF) as [->|Hl]; [done|].
  destruct (Ascii.eqb_spec c CR) as [->|Hr]; [done|].
  simpl. congruence.
Qed.

(** The second one finds the escaped double quotes and nothing else. *)
Lemma unescape_second value :
  ReplaceAll (concat (map halfReadByte value)) [BSLASH; DQUOTE] [DQUOTE]
  = keptEscapes value.
Proof.
  rewrite keptEscapes_bytes. unfold ReplaceAll.
  induction value as [|c value IH]; [done|].
  cbn [map concat]. rewrite <- IH. pose proof (halfRead_head value) as Hhead.
  unfold halfReadByte at 1.
  destruct (Ascii.eqb_spec c DQUOTE) as [->|Hq]; [done|].
  destruct (Ascii.eqb_spec c LF) as [->|Hl]; [done|].
  destruct (Ascii.eqb_spec c CR) as [->|Hr]; [done|].
  cbn [app replaceFrom HasPrefix].
  destruct (Ascii.eqb_spec c BSLASH) as [->|Hb]; [|done].
  destruct (concat (map halfReadByte value)) as [|d rest]; [done|].
  cbn [HasPrefix]. rewrite (eqb_false_of_ne d DQUOTE); [done|].
  intros ->. by apply Hhead.
Qed.

Lemma unescape_escapeInOrder value :
  unescape (escapeInOrder value) = keptEscapes value.
Proof.
  unfold unescape. by rewrite escapeInOrder_bytes, unescape_first, unescape_second.
Qed.

Lemma slice_wrap body :
  slice ([DQUOTE] ++ body ++ [DQUOTE]) 1 (length ([DQUOTE] ++ body ++ [DQUOTE]) - 1)
  = body.
Proof.
  unfold slice. rewrite !length_app. simpl.
  replace (length body + 1 - 0) with (S (length body)) by lia. simpl.
  rewrite drop_0. by rewrite take_app_length.
Qed.

Lemma valueOf_outputValue value :
  valueOf (trimRight (outputValue value)) = readBack value.
Proof.
  unfold readBack. destruct (needsQuoting value) eqn:Hq.
  - rewrite outputValue_quoted by done.
    replace ([DQUOTE] ++ escapeInOrder value ++ [DQUOTE])
      with (([DQUOTE] ++ escapeInOrder value) ++ DQUOTE :: [])
      by (by rewrite <- app_assoc).
    rewrite trimRight_app_plain by apply plain_dquote.
    change (trimRight []) with (@nil ascii).
    rewrite <- app_assoc. unfold valueOf.
    rewrite quoted_wrap, slice_wrap. apply unescape_escapeInOrder.
  - unfold needsQuoting in Hq. case_bool_decide as Hv; [done|].
    destruct (unquoted_value value Hv Hq) as (-> & _ & _ & Hdq).
    unfold valueOf. destruct (quoted (trimRight value)) eqn:Hquoted; [|done].
    apply quoted_has_quote, elem_of_trimRight in Hquoted. done.
Qed.

(** What the reader makes of the line written for one entry. *)
Lemma existingLine_lineOf kv :
  wfKey kv.1 -> existingLine (lineOf kv) = Some (kv.1, readBack kv.2).
Proof.
  destruct kv as [k v]. intros (Hk & Hne & Heq & Hhash & _). simpl in *.
  unfold lineOf. simpl.
  rewrite existingLine_entry, valueOf_outputValue; try done.
  change (list_ascii_of_string "#") with ["#"%char]. rewrite HasPrefix_byte.
  destruct k as [|c k]; [done|]. apply eqb_false_of_ne.
  intros ->. apply Hhash. by left.
Qed.

Lemma lineOf_last kv : last (lineOf kv) <> Some CR.
Proof.
  destruct kv as [k v]. unfold lineOf. simpl.
  destruct (outputValue_line v) as (_ & Hne & Hlast).
  rewrite last_app_cons. destruct (outputValue v) as [|c o]; [done|].
  by rewrite last_cons_cons.
Qed.

Lemma scan_lineOf kvs :
  Forall fits kvs -> bufio.scan (map lineOf kvs ++ [[]]) = (map lineOf kvs, false).
Proof.
  induction 1 as [|kv kvs Hkv _ IH]; [done|].
  cbn [map app]. cbn [bufio.scan].
  destruct (map lineOf kvs ++ [[]]) as [|p ps] eqn:Hrest.
  { by destruct (map lineOf kvs). }
  unfold bufio.tooLong. rewrite (proj2 (Z.leb_gt _ _)) by exact Hkv.
  rewrite IH. by rewrite dropCR_keep by apply lineOf_last.
Qed.

(** The scanner finds one line per written entry. *)
Lemma Lines_entries kvs :
  Forall (fun kv => LF ∉ kv.1) kvs -> Forall fits kvs ->
  bufio.Lines (entries kvs) = (map lineOf kvs, false).
Proof.
  intros Hkeys Hfit. unfold bufio.Lines. rewrite pieces_entries by done.
  by apply scan_lineOf.
Qed.

Lemma omap_existingLine kvs :
  Forall (fun kv => wfKey kv.1) kvs ->
  omap existingLine (map lineOf kvs) = map (fun kv => (kv.1, readBack kv.2)) kvs.
Proof.
  induction 1 as [|kv kvs Hkv _ IH]; [done|].
  cbn [map]. cbn [omap list_omap]. rewrite existingLine_lineOf by done.
  fold (omap existingLine (map lineOf kvs)). by rewrite IH.
Qed.

(** With no key assigned twice, the order of the assignments does not
    matter. *)
Lemma foldl_assign l : forall acc : gmap gostring gostring,
  NoDup l.*1 -> foldl assign acc l = list_to_map l ∪ acc.
Proof.
  induction l as [|[k v] l IH]; intros acc Hnd; simpl.
  - by rewrite (left_id_L ∅ (∪)).
  - apply NoDup_cons in Hnd as [Hk Hnd]. rewrite IH by done.
    unfold assign. simpl. rewrite <- insert_union_l.
    symmetry. apply insert_union_r. by apply not_elem_of_list_to_map.
Qed.

Lemma foldl_assign_read (values : gmap gostring gostring) kvs :
  kvs ≡ₚ map_to_list values ->
  foldl assign ∅ (map (fun kv => (kv.1, readBack kv.2)) kvs) = readBack <$> values.
Proof.
  intros Hperm.
  assert (NoDup kvs.*1) as Hnd.
  { rewrite Hperm. apply NoDup_fst_map_to_list. }
  assert (map (fun kv : gostring * gostring => (kv.1, readBack kv.2)) kvs
          = prod_map id readBack <$> kvs) as ->.
  { apply map_ext. by intros [k v]. }
  rewrite foldl_assign.
  2:{ rewrite <- list_fmap_compose.
      assert ((fst ∘ prod_map id readBack <$> kvs) = kvs.*1) as ->; [|done].
      apply list_fmap_ext. by intros i [k v] _. }
  rewrite (right_id_L ∅ (∪)). rewrite list_to_map_fmap. f_equal.
  rewrite (list_to_map_proper kvs (map_to_list values)) by done.
  apply list_to_map_to_list.
Qed.

(** Reading the file written from a map, whatever the order of the entries. *)
Lemma read_entries (values : gmap gostring gostring) kvs :
  kvs ≡ₚ map_to_list values ->
  (forall k v, values !! k = Some v -> wfKey k /\ fits (k, v)) ->
  readExistingEnvFile (Regular (entries kvs)) = (readBack <$> values, None).
Proof.
  intros Hperm Hall.
  assert (Forall (fun kv => wfKey kv.1 /\ fits kv) kvs) as Hkvs.
  { apply Forall_forall. intros [k v] Hin. apply Hall.
    apply (elem_of_map_to_list values). by rewrite <- Hperm. }
  unfold readExistingEnvFile. rewrite Lines_entries.
  - rewrite omap_existingLine, (foldl_assign_read values); [done|done|].
    eapply Forall_impl; [done|]. by intros kv [? _].
  - eapply Forall_impl; [done|]. by intros kv [(_ & _ & _ & _ & ?) _].
  - eapply Forall_impl; [done|]. by intros kv [_ ?].
Qed.

(** ** Round trips *)

(** X1: a value that [writeEnvFile] puts between double quotes is read back
    by [readExistingEnvFile] with its backslashes and double quotes restored,
    but with every line feed as the two bytes backslash, n and every carriage
    return as the two bytes backslash, r: the readers undo only two of the
    four escapes. A quoted value without line feed and carriage return is
    read back unchanged, spaces at its ends included. *)
Theorem quoted_value_read_back k v :
  TrimSpace k = k -> (("=" : ascii) ∉ k) -> (LF ∉ k) -> HasPrefix k "#" = false ->
  needsQuoting v = true ->
  (Z.of_nat (length (k ++ "=" ++ outputValue v)) < bufio.MaxScanTokenSize)%Z ->
  readExistingEnvFile (Regular (encodeEntry k v)) = ({[ k := keptEscapes v ]}, None)
  /\ (LF ∉ v -> CR ∉ v -> keptEscapes v = v).
Proof.
  intros Hk Heq HLF Hhash Hq Hlen. split; [|apply keptEscapes_id].
  destruct (outputValue_line v) as (HoLF & Hone & Hlast).
  unfold encodeEntry, readExistingEnvFile.
  replace (k ++ "=" ++ outputValue v ++ [LF])
    with ((k ++ "=" ++ outputValue v) ++ [LF]) by (by rewrite <- !app_assoc).
  rewrite Lines_one_line; [| |by destruct k|apply (lineOf_last (k, v))|done].
  - simpl omap. rewrite existingLine_entry by done.
    rewrite valueOf_outputValue. unfold readBack. rewrite Hq. simpl.
    unfold assign. simpl. by rewrite insert_empty.
  - rewrite !not_elem_of_app. split_and!; try done.
    simpl. rewrite not_elem_of_cons. split; [done|apply not_elem_of_nil].
Qed.

Lemma quoted_value_read_back_witness :
  readExistingEnvFile (Regular (encodeEntry "KEY_MULTI" ("line1" ++ [LF] ++ "line2")))
  = ({[ ("KEY_MULTI" : gostring) := "line1" ++ [BSLASH; "n"%char] ++ "line2" ]}, None)
  /\ readExistingEnvFile (Regular (encodeEntry "KEY_QUOTE" ("value" ++ [DQUOTE] ++ "quote")))
     = ({[ ("KEY_QUOTE" : gostring) := "value" ++ [DQUOTE] ++ "quote" ]}, None).
Proof.
  split.
  - apply (quoted_value_read_back "KEY_MULTI" ("line1" ++ [LF] ++ "line2"));
      try (vm_compute; reflexivity).
    + apply (bool_decide_unpack _). by vm_compute.
    + apply (bool_decide_unpack _). by vm_compute.
  - destruct (quoted_value_read_back "KEY_QUOTE" ("value" ++ [DQUOTE] ++ "quote"))
      as [Hread Hid];
      [vm_compute; reflexivity
      |apply (bool_decide_unpack _); by vm_compute
      |apply (bool_decide_unpack _); by vm_compute
      |vm_compute; reflexivity..|].
    rewrite Hid in Hread; [exact Hread|..];
      apply (bool_decide_unpack _); by vm_compute.
Defined.

(** X2: reading the file that [writeEnvFile] writes from a map, whatever the
    order in which Go ranges over the map, yields the map of the values read
    back (well-formed keys, lines within the limit of the scanner); it is the
    written map itself when no value holds a line feed or a carriage return
    and no bare value ends in white space. *)
Theorem written_entries_read_back (values : gmap gostring gostring) kvs :
  kvs ≡ₚ map_to_list values ->
  (forall k v, values !! k = Some v -> wfKey k /\ fits (k, v)) ->
  readExistingEnvFile (Regular (entries kvs)) = (readBack <$> values, None)
  /\ ((forall k v, values !! k = Some v ->
         (LF ∉ v) /\ (CR ∉ v) /\ (needsQuoting v = false -> trimRight v = v)) ->
      readExistingEnvFile (Regular (entries kvs)) = (values, None)).
Proof.
  intros Hperm Hall.
  pose proof (read_entries values kvs Hperm Hall) as Hread.
  split; [done|]. intros Hplain. rewrite Hread. f_equal.
  apply map_eq. intros k. rewrite lookup_fmap.
  destruct (values !! k) as [v|] eqn:Hv; [|done]. simpl. f_equal.
  destruct (Hplain k v Hv) as (Hl & Hr & Ht). unfold readBack.
  destruct (needsQuoting v); [by apply keptEscapes_id|by apply Ht].
Qed.

Lemma written_entries_read_back_witness :
  readExistingEnvFile (Regular (entries (map_to_list sampleValues)))
  = (sampleValues, None).
Proof.
  destruct (written_entries_read_back sampleValues (map_to_list sampleValues))
    as [_ Hback]; [done| |apply Hback].
  - apply (map_Forall_to_list (fun k v => wfKey k /\ fits (k, v))).
    set (l := map_to_list sampleValues). vm_compute in l. subst l.
    repeat apply Forall_cons_2; [..|apply Forall_nil_2];
      (split; [split_and!|]); by_compute.
  - apply (map_Forall_to_list
             (fun _ v => (LF ∉ v) /\ (CR ∉ v)
                         /\ (needsQuoting v = false -> trimRight v = v))).
    set (l := map_to_list sampleValues). vm_compute in l. subst l.
    repeat apply Forall_cons_2; [..|apply Forall_nil_2];
      (split_and!; [by_compute|by_compute|]); cbn [uncurry]; intros _; by_compute.
Defined.

Lemma outputValue_no_CR v : CR ∉ outputValue v.
Proof.
  destruct (needsQuoting v) eqn:Hq.
  - rewrite outputValue_quoted by done.
    unfold escapeInOrder. rewrite !not_elem_of_app, !elem_of_substitute.
    unfold LF, CR, DQUOTE, BSLASH. rewrite !elem_of_cons, !elem_of_nil.
    intuition congruence.
  - unfold needsQuoting in Hq. case_bool_decide as Hv; [done|].
    by destruct (unquoted_value v Hv Hq) as (-> & ? & ? & ?).
Qed.

(** X3: no written value holds a line feed or a carriage return byte, so
    the scanner of the readers finds exactly one line per written entry, in
    the order written, and reports no error (keys without line feed, lines
    within the limit). *)
Theorem written_value_stays_on_its_line kvs :
  Forall (fun kv => LF ∉ kv.1) kvs -> Forall fits kvs ->
  (forall kv, kv ∈ kvs -> (LF ∉ outputValue kv.2) /\ (CR ∉ outputValue kv.2))
  /\ bufio.Lines (entries kvs) = (map lineOf kvs, false).
Proof.
  intros Hkeys Hfit. split; [|by apply Lines_entries].
  intros kv _. split; [apply outputValue_line|apply outputValue_no_CR].
Qed.

Lemma written_value_witness :
  bufio.Lines (entries [("KEY_MULTI" : gostring, "line1" ++ [LF] ++ "line2")])
  = ([ "KEY_MULTI=" ++ [DQUOTE] ++ "line1" ++ [BSLASH] ++ "nline2" ++ [DQUOTE] ], false).
Proof.
  destruct (written_value_stays_on_its_line
              [("KEY_MULTI" : gostring, "line1" ++ [LF] ++ "line2")])
    as [_ Hlines].
  - repeat apply Forall_cons_2; [|apply Forall_nil_2]. by_compute.
  - repeat apply Forall_cons_2; [|apply Forall_nil_2]. by_compute.
  - exact Hlines.
Defined.

(** ** What the readers make of a line *)

Lemma HasPrefix_hash_absent s : (("#" : ascii) ∉ s) -> HasPrefix s "#" = false.
Proof.
  intros Hs. change (list_ascii_of_string "#") with ["#"%char].
  rewrite HasPrefix_byte. destruct s as [|c s]; [done|].
  apply eqb_false_of_ne. intros ->. apply Hs. by left.
Qed.

(** X4: the two readers disagree on a line without equals sign: the
    template reader declares a variable whose key is the whole line, with no
    description and no example value; the reader of the target file skips
    the line. *)
Theorem line_without_equals_sign l :
  TrimSpace l = l -> l <> [] -> (("=" : ascii) ∉ l) -> (("#" : ascii) ∉ l) ->
  templateLine l = Some (mkEnvVar l [] []) /\ existingLine l = None.
Proof.
  intros Hl Hne Heq Hhash. split.
  - unfold templateLine. rewrite Hl.
    rewrite bool_decide_eq_false_2, HasPrefix_hash_absent by done.
    simpl orb. cbv iota.
    change (list_ascii_of_string "#") with ["#"%char].
    rewrite Index_byte_None by done.
    change (list_ascii_of_string "=") with ["="%char].
    rewrite SplitN2_whole by done. rewrite Hl.
    by rewrite bool_decide_eq_false_2.
  - unfold existingLine. rewrite Hl.
    rewrite bool_decide_eq_false_2, HasPrefix_hash_absent by done.
    simpl orb. cbv iota.
    change (list_ascii_of_string "=") with ["="%char].
    by rewrite SplitN2_whole.
Qed.

Lemma line_without_equals_sign_witness :
  templateLine "KEY_NO_EQUALS" = Some (mkEnvVar "KEY_NO_EQUALS" [] [])
  /\ existingLine "KEY_NO_EQUALS" = None.
Proof. apply line_without_equals_sign; by_compute. Defined.

(** ** What the replacements leave *)

Lemma HasPrefix_elem_of s old x : HasPrefix s old = true -> x ∈ old -> x ∈ s.
Proof.
  revert s. induction old as [|p old IH]; intros s; [by intros _ ?%elem_of_nil|].
  destruct s as [|c s]; [done|]. simpl.
  intros [->%Ascii.eqb_eq Hrest]%andb_true_iff [->|Hx]%elem_of_cons; [by left|].
  right. by apply IH.
Qed.

(** A replacement whose bytes are bytes of the replaced text brings no new
    byte. *)
Lemma elem_of_replaceFrom x old new s :
  (forall y, y ∈ new -> y ∈ old) ->
  forall skip, x ∈ replaceFrom old new skip s -> x ∈ s.
Proof.
  intros Hnew. induction s as [|c s IH]; intros skip; simpl; [done|].
  destruct skip as [|k].
  - destruct (HasPrefix (c :: s) old) eqn:Hp.
    + intros [Hx|Hx%IH]%elem_of_app; [|by right].
      by apply (HasPrefix_elem_of _ old), Hnew.
    + intros [->|Hx%IH]%elem_of_cons; [by left|by right].
  - intros Hx%IH. by right.
Qed.

Lemma elem_of_unescape x s : x ∈ unescape s -> x ∈ s.
Proof.
  unfold unescape, ReplaceAll. intros Hx.
  apply elem_of_replaceFrom in Hx.
  - apply elem_of_replaceFrom in Hx; [done|].
    intros y ->%list_elem_of_singleton. by left.
  - intros y ->%list_elem_of_singleton. right. by left.
Qed.

Lemma elem_of_slice (x : ascii) s lo hi : x ∈ slice s lo hi -> x ∈ s.
Proof.
  unfold slice. intros Hx. rewrite <- (take_drop hi s). apply elem_of_app. left.
  rewrite <- (take_drop lo (take hi s)). apply elem_of_app. by right.
Qed.

Lemma elem_of_valueOf x v : x ∈ valueOf v -> x ∈ v.
Proof.
  unfold valueOf. destruct (quoted v); [|done].
  by intros ?%elem_of_unescape%elem_of_slice.
Qed.

Lemma SplitN2_parts c s part parts :
  SplitN s [c] 2 = parts -> part ∈ parts -> forall x, x ∈ part -> x ∈ s.
Proof.
  destruct (Index_byte_split c s) as [[Hs _]|(k & r & -> & Hk & _)].
  - rewrite SplitN2_whole by done. by intros <- ->%list_elem_of_singleton.
  - rewrite SplitN2_cut by done. intros <-.
    rewrite !elem_of_cons, elem_of_nil. intros [->|[->|[]]] x Hx.
    + apply elem_of_app. by left.
    + apply elem_of_app. right. by right.
Qed.

(** The fields of an [EnvVar] hold bytes of its line only; the description
    is trimmed, and no hash is left in the example value. *)
Lemma templateLine_fields line e :
  templateLine line = Some e ->
  TrimSpace (Description e) = Description e
  /\ (forall x, x ∈ Description e -> x ∈ line)
  /\ (("#" : ascii) ∉ ExampleValue e)
  /\ (forall x, x ∈ ExampleValue e -> x ∈ line).
Proof.
  unfold templateLine. intros Hline.
  destruct (bool_decide (TrimSpace line = []) || HasPrefix (TrimSpace line) "#");
    [done|].
  set (lfp := TrimSpace line) in *.
  assert (forall x, x ∈ lfp -> x ∈ line) as Hlfp
    by (intros x; apply elem_of_TrimSpace).
  assert (exists description kvp,
             (match Index lfp "#" with
              | Some commentIdx =>
                  (TrimSpace (drop (commentIdx + 1) lfp),
                   TrimSpace (take commentIdx lfp))
              | None => ([], lfp)
              end) = (description, kvp)
             /\ TrimSpace description = description
             /\ (forall x, x ∈ description -> x ∈ lfp)
             /\ (("#" : ascii) ∉ kvp) /\ (forall x, x ∈ kvp -> x ∈ lfp))
    as (description & kvp & Heq & Htrim & Hdesc & Hhash & Hkvp).
  { change (list_ascii_of_string "#") with ["#"%char].
    destruct (Index_byte_split "#" lfp) as [[Hno ->]|(k & r & Hsplit & Hk & ->)].
    - eexists _, _. split_and!; try done. by intros x ?%elem_of_nil.
    - eexists _, _. split; [done|]. rewrite Hsplit, take_app_length.
      split_and!.
      + apply TrimSpace_idem.
      + intros x Hx%elem_of_TrimSpace.
        rewrite <- (take_drop (length k + 1) (k ++ "#"%char :: r)).
        apply elem_of_app. by right.
      + by intros ?%elem_of_TrimSpace.
      + intros x Hx%elem_of_TrimSpace. apply elem_of_app. by left. }
  rewrite Heq in Hline.
  change (list_ascii_of_string "=") with ["="%char] in Hline.
  destruct (SplitN kvp ["="%char] 2) as [|part0 rest] eqn:Hsplit; [done|].
  case_bool_decide as Hkey; [done|]. simpl in Hline. injection Hline as <-.
  simpl. split_and!; [done|by auto| |].
  - destruct rest as [|part1 [|? ?]]; try apply not_elem_of_nil.
    intros Hin. apply Hhash.
    apply (SplitN2_parts "=" kvp part1 _ Hsplit); [by right; left|].
    apply elem_of_TrimSpace.
    destruct (quoted (TrimSpace part1)).
    + by apply elem_of_unescape, elem_of_slice in Hin.
    + by case_bool_decide; [apply elem_of_nil in Hin|].
  - intros x Hin.
    destruct rest as [|part1 [|? ?]]; try by apply elem_of_nil in Hin.
    apply Hlfp, Hkvp.
    apply (SplitN2_parts "=" kvp part1 _ Hsplit); [by right; left|].
    apply elem_of_TrimSpace.
    destruct (quoted (TrimSpace part1)).
    + by apply elem_of_unescape, elem_of_slice in Hin.
    + by case_bool_decide; [apply elem_of_nil in Hin|].
Qed.

(** X5: every variable that [readEnvVarsFromFile] returns has a key that is
    not empty, has no white space around it and holds no equals sign, hash or
    line feed; its description has no white space around it; and neither the
    description nor the example value holds a line feed, nor the example
    value a hash. *)
Theorem template_variables_well_formed file vars e :
  readEnvVarsFromFile file = (vars, None) -> e ∈ vars ->
  wfKey (Key e)
  /\ TrimSpace (Description e) = Description e
  /\ (LF ∉ Description e)
  /\ (("#" : ascii) ∉ ExampleValue e)
  /\ (LF ∉ ExampleValue e).
Proof.
  unfold readEnvVarsFromFile. destruct file as [| |content]; try done.
  destruct (bufio.Lines content) as [lines tooLong] eqn:Hlines.
  destruct tooLong; [done|]. intros [= <-].
  intros (line & Hin & He)%list_elem_of_omap.
  assert (LF ∉ line) as HLF.
  { apply (Lines_no_LF content). by rewrite Hlines. }
  destruct (templateLine_fields line e He) as (Htrim & Hdesc & Hhash & Hval).
  split_and!; [by apply (templateLine_key line)|done| |done|].
  - intros Hx. by apply HLF, Hdesc.
  - intros Hx. by apply HLF, Hval.
Qed.

Lemma template_variables_witness :
  wfKey "KEY1"
  /\ TrimSpace "desc1" = ("desc1" : gostring)
  /\ (LF ∉ ("desc1" : gostring))
  /\ (("#" : ascii) ∉ ("example_val1" : gostring))
  /\ (LF ∉ ("example_val1" : gostring)).
Proof.
  apply (template_variables_well_formed (dotEnvExample (fs testWorld))
           [mkEnvVar "KEY1" "desc1" "example_val1"; mkEnvVar "KEY2" [] "example_val2"]
           (mkEnvVar "KEY1" "desc1" "example_val1")).
  - vm_compute. reflexivity.
  - by left.
Defined.

(** ** An appended or prepended space *)

Section space.
Context (one : ascii -> bool) (two : ascii -> ascii -> bool)
        (three : ascii -> ascii -> ascii -> bool) (sp : ascii).
Hypothesis two_sp : forall c, two c sp = false.
Hypothesis three_sp : forall c d, three c d sp = false /\ three c sp d = false.

Lemma headRune_snoc s :
  s <> [] -> headRune one two three s = false ->
  headRune one two three (s ++ [sp]) = false.
Proof using two_sp three_sp.
  destruct s as [|c [|d [|e s3]]]; [done|..]; intros _; simpl.
  - rewrite orb_false_r. intros ->. by rewrite two_sp.
  - rewrite orb_false_r. intros [-> ->]%orb_false_elim. simpl.
    apply three_sp.
  - done.
Qed.

Lemma dropRunes_snoc s :
  s <> [] -> dropRunes one two three s = s ->
  dropRunes one two three (s ++ [sp]) = s ++ [sp].
Proof using two_sp three_sp.
  intros Hne Hs. apply dropRunes_fix, headRune_snoc; [done|].
  rewrite <- Hs. apply dropRunes_head.
Qed.
End space.

Lemma trimLeft_snoc_space s :
  s <> [] -> trimLeft s = s -> trimLeft (s ++ " ") = s ++ " ".
Proof.
  intros Hne Hs. apply (dropRunes_snoc _ _ _ " "%char); try done.
  - intros c. unfold isSpace2. by rewrite andb_false_r.
  - intros c d. unfold isSpace3. split.
    + by rewrite !andb_false_r.
    + by rewrite !andb_false_r.
Qed.

Lemma trimRight_cons_space s :
  s <> [] -> trimRight s = s -> trimRight (" "%char :: s) = " "%char :: s.
Proof.
  intros Hne Hs. unfold trimRight in *. simpl rev.
  assert (trimRightRev (rev s) = rev s) as Hrev.
  { apply (f_equal (@rev ascii)) in Hs. by rewrite rev_involutive in Hs. }
  assert (rev s <> []) as Hne'.
  { intros Hnil. apply Hne. apply (f_equal (@rev ascii)) in Hnil.
    by rewrite rev_involutive in Hnil. }
  unfold trimRightRev in *.
  rewrite (dropRunes_snoc _ _ _ " "%char); [|reflexivity| |done|done].
  - by rewrite rev_app_distr, rev_involutive.
  - intros c d. cbv beta. unfold isSpace3. split; [reflexivity|].
    by rewrite !andb_false_r.
Qed.

Lemma trimRight_snoc_space s : trimRight (s ++ " ") = trimRight s.
Proof. unfold trimRight. by rewrite rev_app_distr. Qed.

Lemma TrimSpace_snoc_space s : s <> [] -> TrimSpace s = s -> TrimSpace (s ++ " ") = s.
Proof.
  intros Hne Hs. destruct (TrimSpace_fixed s Hs) as [Hl Hr].
  unfold TrimSpace. by rewrite trimLeft_snoc_space, trimRight_snoc_space.
Qed.

Lemma TrimSpace_cons_space s : TrimSpace (" "%char :: s) = TrimSpace s.
Proof. done. Qed.

Lemma quoted_head v : quoted v = true -> head v = Some DQUOTE.
Proof.
  unfold quoted.
  by intros [[_ Hhead%bool_decide_eq_true]%andb_true_iff _]%andb_true_iff.
Qed.

Lemma valueOf_unquoted v : head v <> Some DQUOTE -> valueOf v = v.
Proof.
  intros Hhead. unfold valueOf. destruct (quoted v) eqn:Hq; [|done].
  by apply quoted_head in Hq.
Qed.

(** X6: on a line with a space on both sides of the equals sign, both
    readers drop the space after the key, but only the template reader drops
    the space before the value: [readExistingEnvFile] keeps it as the first
    byte of the value. *)
Theorem spaces_around_equals_sign k v :
  TrimSpace k = k -> k <> [] -> (("=" : ascii) ∉ k) -> (("#" : ascii) ∉ k) ->
  TrimSpace v = v -> v <> [] -> (("#" : ascii) ∉ v) -> head v <> Some DQUOTE ->
  templateLine (k ++ " = " ++ v) = Some (mkEnvVar k [] v)
  /\ existingLine (k ++ " = " ++ v) = Some (k, " " ++ v).
Proof.
  intros Hk Hne Heq Hhash Hv Hvne Hvhash Hvq.
  destruct (TrimSpace_fixed k Hk) as [Hkl Hkr].
  destruct (TrimSpace_fixed v Hv) as [Hvl Hvr].
  assert (k ++ " = " ++ v = (k ++ " ") ++ "="%char :: " "%char :: v) as Hline.
  { by rewrite <- app_assoc. }
  assert (TrimSpace (k ++ " = " ++ v) = (k ++ " ") ++ "="%char :: " "%char :: v)
    as Htrim.
  { rewrite Hline, TrimSpace_app_plain by apply plain_equals.
    by rewrite trimLeft_snoc_space, trimRight_cons_space. }
  assert (("=" : ascii) ∉ k ++ " ") as Heq'.
  { rewrite not_elem_of_app. split; [done|].
    apply (bool_decide_unpack _). by vm_compute. }
  assert (HasPrefix ((k ++ " ") ++ "="%char :: " "%char :: v) "#" = false) as Hpre.
  { change (list_ascii_of_string "#") with ["#"%char]. rewrite HasPrefix_byte.
    destruct k as [|c k]; [done|]. simpl. apply eqb_false_of_ne.
    intros ->. apply Hhash. by left. }
  split.
  - unfold templateLine. rewrite Htrim, Hpre.
    rewrite bool_decide_eq_false_2 by (by destruct k).
    simpl orb. cbv iota.
    change (list_ascii_of_string "#") with ["#"%char].
    rewrite Index_byte_None.
    2:{ rewrite !not_elem_of_app, !not_elem_of_cons.
        split_and!; try done. apply (bool_decide_unpack _). by vm_compute. }
    change (list_ascii_of_string "=") with ["="%char].
    rewrite SplitN2_cut by done.
    rewrite TrimSpace_snoc_space by done. rewrite TrimSpace_cons_space, Hv.
    rewrite bool_decide_eq_false_2 by done. simpl negb. cbv iota.
    f_equal. f_equal. fold (valueOf v).
    destruct (quoted v) eqn:Hq; [by apply quoted_head in Hq|].
    by rewrite bool_decide_eq_false_2.
  - unfold existingLine. rewrite Htrim, Hpre.
    rewrite bool_decide_eq_false_2 by (by destruct k).
    simpl orb. cbv iota.
    change (list_ascii_of_string "=") with ["="%char].
    rewrite SplitN2_cut by done.
    rewrite TrimSpace_snoc_space by done.
    fold (valueOf (" "%char :: v)). by rewrite valueOf_unquoted.
Qed.

Lemma spaces_around_equals_sign_witness :
  templateLine "KEY = value" = Some (mkEnvVar "KEY" [] "value")
  /\ existingLine "KEY = value" = Some ("KEY" : gostring, " value" : gostring).
Proof. apply (spaces_around_equals_sign "KEY" "value"); by_compute. Defined.

Lemma head_app_ne (s t : gostring) : s <> [] -> head (s ++ t) = head s.
Proof. by destruct s. Qed.

(** X7: a hash after a bare value starts the description for the template
    reader, whereas [readExistingEnvFile] knows no comment at the end of a
    line: the hash and what follows it are part of the value. *)
Theorem inline_comment_is_kept_by_the_env_reader k v d :
  TrimSpace k = k -> k <> [] -> (("=" : ascii) ∉ k) -> (("#" : ascii) ∉ k) ->
  TrimSpace v = v -> v <> [] -> (("#" : ascii) ∉ v) -> head v <> Some DQUOTE ->
  TrimSpace d = d -> d <> [] ->
  templateLine (k ++ "=" ++ v ++ " # " ++ d) = Some (mkEnvVar k d v)
  /\ existingLine (k ++ "=" ++ v ++ " # " ++ d) = Some (k, v ++ " # " ++ d).
Proof.
  intros Hk Hne Heq Hhash Hv Hvne Hvhash Hvq Hd Hdne.
  destruct (TrimSpace_fixed v Hv) as [Hvl Hvr].
  destruct (TrimSpace_fixed d Hd) as [Hdl Hdr].
  assert (k ++ "=" ++ v ++ " # " ++ d
          = k ++ "="%char :: (v ++ " ") ++ "#"%char :: " "%char :: d) as ->.
  { by rewrite <- app_assoc. }
  split.
  - rewrite templateLine_commented; try done.
    + rewrite trimRight_cons_space, TrimSpace_cons_space, Hd by done.
      rewrite trimRight_snoc_space, Hvr, Hv.
      by rewrite valueOf_unquoted.
    + rewrite not_elem_of_app. split; [done|].
      apply (bool_decide_unpack _). by vm_compute.
  - rewrite existingLine_entry; [|done|done|by apply HasPrefix_hash_absent].
    rewrite trimRight_app_plain by apply plain_hash.
    rewrite trimRight_cons_space by done.
    rewrite valueOf_unquoted.
    + by rewrite <- app_assoc.
    + rewrite <- app_assoc. by rewrite head_app_ne.
Qed.

Lemma inline_comment_witness :
  templateLine "KEY1=example_val1 # desc1"
  = Some (mkEnvVar "KEY1" "desc1" "example_val1")
  /\ existingLine "KEY1=example_val1 # desc1"
     = Some ("KEY1" : gostring, "example_val1 # desc1" : gostring).
Proof.
  apply (inline_comment_is_kept_by_the_env_reader "KEY1" "example_val1" "desc1");
    by_compute.
Defined.

(** ** A written value that holds a hash *)

Lemma escapeInOrder_app a b :
  escapeInOrder (a ++ b) = escapeInOrder a ++ escapeInOrder b.
Proof. by rewrite !escapeInOrder_bytes, map_app, concat_app. Qed.

Lemma elem_of_escapeInOrder x a :
  x ∈ escapeInOrder a ->
  x ∈ a \/ x = BSLASH \/ x = "n"%char \/ x = "r"%char.
Proof.
  unfold escapeInOrder. rewrite !elem_of_substitute.
  unfold LF, CR, DQUOTE, BSLASH. rewrite !elem_of_cons, !elem_of_nil.
  intuition (subst; auto; congruence).
Qed.

(** X8: for the template reader a hash starts the description also between
    double quotes. Take a key without white space around it, not empty and
    free of equals signs and hashes, and a value [a ++ "#" ++ b] whose first
    hash follows [a]. [readExistingEnvFile] reads the line that
    [writeEnvFile] writes for them back as the value with its kept escapes.
    [readEnvVarsFromFile] cuts the same line at that hash: the description is
    the escaped [b], without white space at its start, with the closing
    quote; the example value comes from the cut, which is the opening quote
    with the escaped [a], without white space at its end. The example value
    is the cut itself unless the cut passes the test for a quoted value;
    then it is what unescaping makes of the cut without its first and last
    byte. The cut does not pass the test when [a] holds no double quote; it
    passes when [a] ends in a double quote, and what is unescaped is then the
    escaped text before that quote followed by a backslash. *)
Theorem template_reader_cuts_written_value_at_hash k a b :
  let line := lineOf (k, a ++ "#" ++ b) in
  let cut := DQUOTE :: trimRight (escapeInOrder a) in
  TrimSpace k = k -> k <> [] -> (("=" : ascii) ∉ k) -> (("#" : ascii) ∉ k) ->
  (("#" : ascii) ∉ a) ->
  existingLine line = Some (k, keptEscapes (a ++ "#" ++ b))
  /\ templateLine line
     = Some (mkEnvVar k (trimLeft (escapeInOrder b) ++ [DQUOTE])
                      (if quoted cut then unescape (slice cut 1 (length cut - 1))
                       else cut))
  /\ (DQUOTE ∉ a -> quoted cut = false)
  /\ (forall a',
        a = a' ++ [DQUOTE] ->
        quoted cut = true
        /\ slice cut 1 (length cut - 1) = escapeInOrder a' ++ [BSLASH]).
Proof.
  intros line cut Hk Hne Heq Hhash Ha.
  assert (needsQuoting (a ++ "#" ++ b) = true) as Hneeds.
  { apply needsQuoting_mustQuote. right. exists "#"%char. split.
    - apply elem_of_app. right. by left.
    - unfold disallowed. tauto. }
  assert (forall x, x ∈ escapeInOrder a -> x ∈ a \/ x <> "#"%char /\ x <> DQUOTE)
    as Hesc.
  { intros x [?|[->|[->| ->]]]%elem_of_escapeInOrder; [by left|right..]; done. }
  subst line. unfold lineOf. cbn [fst snd].
  change (k ++ "=" ++ outputValue (a ++ "#" ++ b))
    with (k ++ "="%char :: outputValue (a ++ "#" ++ b)).
  split_and!.
  - rewrite existingLine_entry; [|done|done|by apply HasPrefix_hash_absent].
    rewrite valueOf_outputValue. unfold readBack. by rewrite Hneeds.
  - rewrite outputValue_quoted by done.
    rewrite escapeInOrder_app.
    change (escapeInOrder ("#" ++ b)) with (escapeInOrder ([("#" : ascii)] ++ b)).
    rewrite escapeInOrder_app.
    change (escapeInOrder ["#"%char]) with ["#"%char].
    match goal with
    | |- templateLine ?l = _ =>
        replace l with (k ++ "="%char :: ([DQUOTE] ++ escapeInOrder a)
                          ++ "#"%char :: (escapeInOrder b ++ [DQUOTE]))
          by (simpl; by rewrite <- !app_assoc)
    end.
    rewrite templateLine_commented; try done.
    2:{ rewrite not_elem_of_app, not_elem_of_cons.
        split_and!; [done|apply not_elem_of_nil|].
        intros [?|[? _]]%Hesc; done. }
    f_equal. f_equal.
    + replace (escapeInOrder b ++ [DQUOTE]) with (escapeInOrder b ++ DQUOTE :: [])
        by done.
      rewrite trimRight_app_plain by apply plain_dquote.
      by rewrite TrimSpace_app_plain by apply plain_dquote.
    + change ([DQUOTE] ++ escapeInOrder a) with ([] ++ DQUOTE :: escapeInOrder a).
      rewrite trimRight_app_plain by apply plain_dquote.
      rewrite TrimSpace_app_plain by apply plain_dquote.
      rewrite trimRight_idem. cbn [app trimLeft dropRunes].
      reflexivity.
  - intros Hq. subst cut.
    destruct (quoted (DQUOTE :: trimRight (escapeInOrder a))) eqn:Hquoted; [|done].
    unfold quoted in Hquoted.
    apply andb_true_iff in Hquoted as [[Hlen _]%andb_true_iff Hlast].
    apply bool_decide_eq_true in Hlast. apply Nat.leb_le in Hlen.
    destruct (trimRight (escapeInOrder a)) as [|c t] eqn:Ht; [simpl in Hlen; lia|].
    rewrite last_cons_cons in Hlast.
    apply last_Some_elem_of in Hlast. rewrite <- Ht in Hlast.
    apply elem_of_trimRight, Hesc in Hlast as [?|[_ ?]]; done.
  - intros a' ->. subst cut.
    rewrite escapeInOrder_app.
    change (escapeInOrder [DQUOTE]) with ([BSLASH] ++ [DQUOTE]).
    rewrite (assoc_L (++)).
    replace ((escapeInOrder a' ++ [BSLASH]) ++ [DQUOTE])
      with ((escapeInOrder a' ++ [BSLASH]) ++ DQUOTE :: []) by done.
    rewrite trimRight_app_plain by apply plain_dquote.
    change (trimRight []) with (@nil ascii).
    change (DQUOTE :: (escapeInOrder a' ++ [BSLASH]) ++ [DQUOTE])
      with ([DQUOTE] ++ (escapeInOrder a' ++ [BSLASH]) ++ [DQUOTE]).
    split; [apply quoted_wrap|apply slice_wrap].
Qed.

Lemma template_reader_cuts_written_value_witness :
  (existingLine ("KEY_HASH=" ++ [DQUOTE] ++ "value#hash" ++ [DQUOTE])
   = Some ("KEY_HASH" : gostring, "value#hash" : gostring)
   /\ templateLine ("KEY_HASH=" ++ [DQUOTE] ++ "value#hash" ++ [DQUOTE])
      = Some (mkEnvVar "KEY_HASH" ("hash" ++ [DQUOTE]) ([DQUOTE] ++ "value")))
  /\ (existingLine ("KEY_HASH=" ++ [DQUOTE] ++ "x" ++ [BSLASH; DQUOTE] ++ "#y" ++ [DQUOTE])
      = Some ("KEY_HASH" : gostring, "x" ++ [DQUOTE] ++ "#y")
      /\ templateLine ("KEY_HASH=" ++ [DQUOTE] ++ "x" ++ [BSLASH; DQUOTE] ++ "#y" ++ [DQUOTE])
         = Some (mkEnvVar "KEY_HASH" ("y" ++ [DQUOTE]) ("x" ++ [BSLASH]))).
Proof.
  split.
  - destruct (template_reader_cuts_written_value_at_hash "KEY_HASH" "value" "hash")
      as (Hexisting & Htemplate & _); [by_compute..|].
    split; [exact Hexisting|exact Htemplate].
  - destruct (template_reader_cuts_written_value_at_hash
                "KEY_HASH" ("x" ++ [DQUOTE]) "y")
      as (Hexisting & Htemplate & _); [by_compute..|].
    split; [exact Hexisting|exact Htemplate].
Defined.

(** ** A written value without hash *)

Lemma headRune_prefix one two three p x :
  headRune one two three (p ++ x) = false -> headRune one two three p = false.
Proof.
  intros H. destruct (headRune one two three p) eqn:Hp; [|done].
  by rewrite (headRune_app _ _ _ _ x Hp) in H.
Qed.

Lemma trimLeft_trimRight s : trimLeft s = s -> trimLeft (trimRight s) = trimRight s.
Proof.
  intros Hs. apply dropRunes_fix.
  destruct (trimRight_prefix s) as [q Hq].
  apply (headRune_prefix _ _ _ _ q). rewrite <- Hq.
  unfold trimLeft in Hs. rewrite <- Hs. apply dropRunes_head.
Qed.

Lemma outputValue_no_hash v : (("#" : ascii) ∉ v) -> ("#" : ascii) ∉ outputValue v.
Proof.
  intros Hv. destruct (needsQuoting v) eqn:Hq.
  - rewrite outputValue_quoted by done.
    rewrite !not_elem_of_app, !not_elem_of_cons. split_and!; try done.
    + apply not_elem_of_nil.
    + intros [?|[?|[?|?]]]%elem_of_escapeInOrder; done.
    + apply not_elem_of_nil.
  - unfold outputValue. by rewrite Hq.
Qed.

(** X9: when a value holds no hash and, if it is written bare, does not
    start with white space, the template reader makes of the line that
    [writeEnvFile] writes for it what [readExistingEnvFile] makes of it:
    the same key and, as example value, the value read back. *)
Theorem template_reader_agrees_on_written_entry k v :
  TrimSpace k = k -> k <> [] -> (("=" : ascii) ∉ k) -> (("#" : ascii) ∉ k) ->
  (("#" : ascii) ∉ v) -> (needsQuoting v = false -> trimLeft v = v) ->
  templateLine (lineOf (k, v)) = Some (mkEnvVar k [] (readBack v))
  /\ existingLine (lineOf (k, v)) = Some (k, readBack v).
Proof.
  intros Hk Hne Heq Hhash Hv Hleft.
  unfold lineOf. cbn [fst snd].
  change (k ++ "=" ++ outputValue v) with (k ++ "="%char :: outputValue v).
  split.
  2:{ rewrite existingLine_entry; [|done|done|by apply HasPrefix_hash_absent].
      by rewrite valueOf_outputValue. }
  rewrite templateLine_uncommented; try done.
  2:{ intros Hin%elem_of_trimRight. by apply (outputValue_no_hash v). }
  f_equal. f_equal. rewrite <- valueOf_outputValue. f_equal.
  unfold TrimSpace. rewrite trimLeft_trimRight; [apply trimRight_idem|].
  destruct (needsQuoting v) eqn:Hq.
  - rewrite outputValue_quoted by done. simpl.
    apply (trimLeft_app_plain DQUOTE [] _ plain_dquote).
  - unfold outputValue. rewrite Hq. by apply Hleft.
Qed.

Lemma template_reader_agrees_witness :
  templateLine ("KEY2=" ++ [DQUOTE] ++ "quoted value2" ++ [DQUOTE])
  = Some (mkEnvVar "KEY2" [] "quoted value2")
  /\ existingLine ("KEY2=" ++ [DQUOTE] ++ "quoted value2" ++ [DQUOTE])
     = Some ("KEY2" : gostring, "quoted value2" : gostring).
Proof.
  apply (template_reader_agrees_on_written_entry "KEY2" "quoted value2");
    by_compute.
Defined.

(** ** Repeated keys *)

Lemma foldl_assign_other l k : forall acc : gmap gostring gostring,
  k ∉ l.*1 -> foldl assign acc l !! k = acc !! k.
Proof.
  induction l as [|[k' v'] l IH]; intros acc Hk; [done|].
  simpl in *. apply not_elem_of_cons in Hk as [Hne Hk].
  rewrite IH by done. unfold assign. simpl. by rewrite lookup_insert_ne.
Qed.

(** X10: when several lines of the target file assign the same key, the
    value of the last of them is the one in the map, also when the scan
    stops with an error further down. *)
Theorem later_line_wins content before line after tooLong k v :
  bufio.Lines content = (before ++ line :: after, tooLong) ->
  existingLine line = Some (k, v) ->
  Forall (fun l => forall v', existingLine l <> Some (k, v')) after ->
  (readExistingEnvFile (Regular content)).1 !! k = Some v.
Proof.
  intros Hlines Hline Hafter. unfold readExistingEnvFile. rewrite Hlines.
  cbn [fst]. rewrite omap_app. cbn [omap list_omap]. rewrite Hline.
  rewrite foldl_app. cbn [foldl]. rewrite foldl_assign_other.
  - unfold assign. cbn [fst snd]. apply lookup_insert_eq.
  - intros ([k' v'] & Hk & (l & Hl & Hdec)%list_elem_of_omap)%list_elem_of_fmap.
    simpl in Hk. subst k'. rewrite Forall_forall in Hafter.
    by apply (Hafter l Hl v').
Qed.

Lemma later_line_wins_witness :
  (readExistingEnvFile (Regular ("K=1" ++ [LF] ++ "K=2" ++ [LF]))).1
    !! ("K" : gostring) = Some ("2" : gostring).
Proof.
  apply (later_line_wins _ ["K=1" : gostring] "K=2" [] false).
  - vm_compute. reflexivity.
  - vm_compute. reflexivity.
  - constructor.
Defined.

(** * Further properties of the workflow *)

(** ** [Init] *)

Lemma initialValue_empty envVar : initialValue ∅ envVar = ExampleValue envVar.
Proof.
  unfold initialValue. rewrite lookup_empty. simpl.
  by case_bool_decide.
Qed.

(** X11: when the template declares variables but the target file cannot
    be read ([.env] is a directory, or holds a line too long for the
    scanner), [Init] does not fail: it prints one warning, starts from an
    empty prior configuration, whatever entries the reader had collected
    before the error, and puts the example value of the template into every
    field. *)
Theorem unreadable_env_file_is_only_a_warning w0 vars e :
  readEnvVarsFromFile (dotEnvExample (fs w0)) = (vars, None) -> vars <> [] ->
  (readExistingEnvFile (dotEnv (fs w0))).2 = Some e ->
  Init initialModel w0
  = (mkModel StateNormal vars ∅ (map (fun envVar => Input (ExampleValue envVar)) vars)
             0 0 false None false None ∅ true [],
     print (Printf "Warning: could not read existing .env file to prefill: %v" e) w0,
     Batch)
  /\ (dotEnv (fs w0) = Directory
      \/ exists content, dotEnv (fs w0) = Regular content
                         /\ (bufio.Lines content).2 = true).
Proof.
  intros Hvars Hne Herr. split.
  - unfold Init. rewrite Hvars.
    rewrite bool_decide_eq_false_2 by (by destruct vars).
    destruct (readExistingEnvFile (dotEnv (fs w0))) as [existing oe].
    simpl in Herr. subst oe. simpl. f_equal. f_equal. f_equal.
    apply map_ext. intros envVar. by rewrite initialValue_empty.
  - unfold readExistingEnvFile in Herr.
    destruct (dotEnv (fs w0)) as [| |content]; [done|by left|].
    right. exists content. split; [done|].
    by destruct (bufio.Lines content) as [lines []].
Qed.

Lemma unreadable_env_file_witness :
  existingEnvValues (Init initialModel directoryWorld).1.1 = ∅
  /\ fields (Init initialModel directoryWorld).1.1
     = [Input "example_val1"; Input "example_val2"]
  /\ stdout (Init initialModel directoryWorld).1.2
     = [Printf "Warning: could not read existing .env file to prefill: %v"
          (Errorf "error reading %s during scan: %w" ErrIsDir)].
Proof.
  destruct (unreadable_env_file_is_only_a_warning directoryWorld
              [mkEnvVar "KEY1" "desc1" "example_val1"; mkEnvVar "KEY2" [] "example_val2"]
              (Errorf "error reading %s during scan: %w" ErrIsDir))
    as [-> _]; [vm_compute; reflexivity|done|reflexivity|].
  split_and!; reflexivity.
Defined.

Lemma run_terminal w0 events more :
  phase (run w0 events).1 <> Collecting -> phase (run w0 events).1 <> Reviewing ->
  run w0 (events ++ more) = run w0 events.
Proof.
  intros Hc Hr. induction more as [|ev more IH] using rev_ind.
  - by rewrite app_nil_r.
  - rewrite app_assoc, run_snoc, IH. unfold step.
    rewrite Update_early by done. by destruct (run w0 events).
Qed.

(** X12: when the template cannot be read or declares no variable, [Init]
    fails and no message has any effect afterwards: no field is made, no
    file is touched and nothing is printed by [Init] or [Update]. *)
Theorem run_without_usable_template_does_nothing w0 events :
  (readEnvVarsFromFile (dotEnvExample (fs w0))).2 <> None
  \/ (readEnvVarsFromFile (dotEnvExample (fs w0))).1 = [] ->
  run w0 events = run w0 []
  /\ (run w0 events).2 = w0
  /\ fields (run w0 events).1 = []
  /\ exists e, phase (run w0 events).1 = Failed e.
Proof.
  intros Hbad.
  assert (exists e, err (run w0 []).1 = Some e /\ (run w0 []).2 = w0
                    /\ fields (run w0 []).1 = []) as (e & He & Hw & Hf).
  { change (run w0 []) with (Init initialModel w0).1.
    destruct (Init initialModel w0) as [[m w] cmd] eqn:HInit.
    destruct (Init_cases _ _ _ _ HInit)
      as [(e & He & _ & Hf & _ & _ & _ & Hw & _)|(lines & _ & Hread & Hne & _)].
    - by exists e.
    - rewrite Hread in Hbad. by destruct Hbad. }
  assert (phase (run w0 []).1 = Failed e) as Hph.
  { unfold phase. by rewrite He. }
  assert (run w0 events = run w0 []) as ->.
  { apply (run_terminal w0 [] events); by rewrite Hph. }
  split_and!; try done. by exists e.
Qed.

Lemma run_without_usable_template_witness :
  (run emptyWorld [completes edited; confirms]).2 = emptyWorld.
Proof.
  apply (run_without_usable_template_does_nothing emptyWorld).
  left. discriminate.
Defined.

(** ** The summary *)

Lemma afterSwitch_summary m ev : diffSummary (afterSwitch m ev) = diffSummary m.
Proof. unfold afterSwitch. by destruct (msg ev). Qed.

Lemma summarised_quit m :
  summarised m -> confirming m = true \/ form m = StateNormal ->
  quitting m = false -> summarised (setQuitting m).
Proof.
  intros [Hrev Hplain] Hc Hq. split; simpl; [done|].
  intros Hconf. rewrite (Hplain Hconf), Hq. simpl.
  destruct Hc as [?| ->]; [congruence|done].
Qed.

Lemma Update_summarised m w ev :
  consistent m -> summarised m -> summarised (Update m w ev).1.1.
Proof.
  intros Hm Hs.
  destruct (phase_dec m) as [Hph|[Hph|[Hc Hr]]]; [| |by rewrite Update_early].
  - (* collecting *)
    pose proof (collecting_form m Hm Hph) as Hform.
    pose proof Hph as (Herr & Hquit & Hconf)%phase_Collecting.
    pose proof (plain_summary m Hs Hconf) as Hsum.
    rewrite Hquit in Hsum. simpl in Hsum.
    destruct (interrupts ev) eqn:Hint.
    { rewrite Update_interrupt by auto. apply summarised_quit; auto. }
    rewrite Update_collecting by done.
    destruct (afterSwitch_fields m ev)
      as (Hf & Hv & Hx & Hfl & Hq & He & Hcf & Hcform & Hsv & Ha).
    pose proof (afterSwitch_summary m ev) as Hds.
    destruct (formAfter ev) eqn:Hfa.
    + split; simpl; [congruence|]. intros _. by rewrite Hds, Hsum, Hq, Hquit.
    + match goal with |- context [prepareForConfirmation ?x] => set (m2 := x) end.
      destruct (prepare_cases m2)
        as [(e & Hcol & ->)|[(c & Hcol & Hnil & ->)|(c & Hcol & Hdiff & ->)]].
      * destruct (collect_ok (envVars m2) (fields m2) 0 ∅) as [c Hc].
        { subst m2. simpl. rewrite Hv, Hfl.
          apply typeInto_inputs, (fields_are_inputs m Hm). }
        congruence.
      * subst m2. split; simpl; [congruence|]. intros _.
        by rewrite He, Herr.
      * subst m2. simpl. rewrite Hq, Hquit. split; simpl; [|congruence].
        intros _. done.
    + split; simpl; [congruence|]. intros _. by rewrite Hds, Hsum.
  - (* reviewing *)
    pose proof (reviewing_form m Hm Hph) as Hcf.
    pose proof Hph as (Herr & Hquit & Hconf)%phase_Reviewing.
    pose proof (review_summary m Hs Hconf) as [Hsum Hcol].
    destruct (interrupts ev) eqn:Hint.
    { rewrite Update_interrupt by auto. apply summarised_quit; auto. }
    rewrite Update_reviewing; [|done|by rewrite Hcf|done].
    destruct (afterSwitch_fields m ev)
      as (Hf & Hv & Hx & Hfl & Hq & He & Hc & Hcform & Hsv & Ha).
    pose proof (afterSwitch_summary m ev) as Hds.
    destruct (formAfter ev) eqn:Hfa; [|destruct (choiceAfter ev);
      [destruct (actuallyWriteEnvFile _ _) as [w' [e|]]|]|];
      (split; simpl; [intros _|congruence]);
      by rewrite Hds, Hv, Hx, Hsv, Hfl.
Qed.

Lemma Init_summarised w0 : summarised (Init initialModel w0).1.1.
Proof.
  unfold Init.
  destruct (readEnvVarsFromFile (dotEnvExample (fs w0))) as [vars [e|]];
    [by split|].
  case_bool_decide; [by split|].
  destruct (readExistingEnvFile (dotEnv (fs w0))) as [existing [e|]]; by split.
Qed.

Lemma run_summarised w0 events : summarised (run w0 events).1.
Proof.
  induction events as [|ev events IH] using rev_ind.
  - apply Init_summarised.
  - rewrite run_snoc. apply Update_summarised; [apply run_consistent|done].
Qed.

(** X13: whenever a run is in [Reviewing], the summary put before the user
    is made of the lines of the records of [computeChanges], in the order of
    the template and joined by line feeds, between the prior configuration
    and the values that a confirmation would save; these values are the
    ones the fields hold, and the diff is not empty. *)
Theorem review_shows_the_computed_diff w0 events :
  let m := (run w0 events).1 in
  phase m = Reviewing ->
  diffSummary m =
    Join (map diffLine
            (computeChanges (existingEnvValues m) (envValuesToSave m) (envVars m)))
         [LF]
  /\ collect 0 (envVars m) (fields m) ∅ = inl (envValuesToSave m)
  /\ computeChanges (existingEnvValues m) (envValuesToSave m) (envVars m) <> [].
Proof.
  intros m (_ & _ & Hconf)%phase_Reviewing.
  destruct (review_summary m (run_summarised w0 events) Hconf) as [Hsum Hcol].
  destruct (confirming_diff m (run_consistent w0 events) Hconf) as [Hdiff _].
  done.
Qed.

Lemma review_shows_witness :
  diffSummary (run testWorld [completes edited]).1
  = "~ Changed: KEY1: " ++ [DQUOTE] ++ "actual_val1" ++ [DQUOTE] ++ " -> "
      ++ [DQUOTE] ++ "new value" ++ [DQUOTE] ++ [LF]
      ++ "+ Added: KEY2=" ++ [DQUOTE] ++ "example_val2" ++ [DQUOTE].
Proof.
  destruct (review_shows_the_computed_diff testWorld [completes edited])
    as (Hsum & _); [vm_compute; reflexivity|].
  rewrite Hsum. vm_compute. reflexivity.
Defined.

(** ** What is saved *)

Lemma typeInto_lookup flds : forall texts j old text,
  flds !! j = Some (Input old) -> texts !! j = Some text ->
  typeInto flds texts !! j = Some (Input text).
Proof.
  induction flds as [|f flds IH]; intros texts j old text Hf Ht; [done|].
  destruct j as [|j]; simpl in *.
  - injection Hf as ->. by destruct texts; simplify_eq/=.
  - destruct texts as [|t texts]; [done|]. simpl in *. by eapply IH.
Qed.

Lemma collect_other vars flds k : forall i acc c,
  collect i vars flds acc = inl c -> k ∉ Key <$> vars -> c !! k = acc !! k.
Proof.
  induction vars as [|var vars IH]; intros i acc c; simpl.
  - by intros [= ->].
  - destruct (flds !! i) as [[val|]|]; try done.
    intros Hc [Hne Hk]%not_elem_of_cons.
    rewrite (IH _ _ _ Hc Hk). by rewrite lookup_insert_ne.
Qed.

(** The value collected for a key is the text of the last field declared
    for it. *)
Lemma collect_lookup vars flds : forall i acc c j envVar text,
  collect i vars flds acc = inl c ->
  vars !! j = Some envVar -> flds !! (i + j) = Some (Input text) ->
  Key envVar ∉ Key <$> drop (S j) vars ->
  c !! Key envVar = Some text.
Proof.
  induction vars as [|var vars IH]; intros i acc c j envVar text; [done|].
  simpl. destruct (flds !! i) as [[val|]|] eqn:Hi; try done.
  intros Hc Hj Hf Hlast. destruct j as [|j]; simpl in *.
  - injection Hj as ->. rewrite Nat.add_0_r in Hf.
    rewrite (collect_other _ _ _ _ _ _ Hc Hlast).
    rewrite lookup_insert_eq. congruence.
  - apply (IH (S i) _ c j envVar text Hc Hj); [|done].
    by replace (S i + j) with (i + S j) by lia.
Qed.

(** X14: when the main form completes and the run goes to [Reviewing],
    the value to save for a key is the text of its field; when the template
    declares a key more than once, it is the text of the last field declared
    for it. *)
Theorem saved_value_is_the_typed_text w0 events ev j envVar text :
  let s := run w0 events in
  let s' := step s ev in
  phase s.1 = Collecting -> interrupts ev = false ->
  formAfter ev = StateCompleted -> phase s'.1 = Reviewing ->
  envVars s.1 !! j = Some envVar -> inputsAfter ev !! j = Some text ->
  Key envVar ∉ Key <$> drop (S j) (envVars s.1) ->
  envValuesToSave s'.1 !! Key envVar = Some text.
Proof.
  intros s s' Hph Hint Hform Hrev Hj Htext Hlast.
  pose proof (run_consistent w0 events) as Hs. fold s in Hs.
  pose proof (typeInto_inputs _ _ (inputsAfter ev) (fields_are_inputs s.1 Hs))
    as Hinputs.
  destruct (collect_ok (envVars s.1) (typeInto (fields s.1) (inputsAfter ev)) 0 ∅)
    as [collected Hcol]; [done|].
  destruct (Update_completed s.1 s.2 ev collected Hs Hph Hint Hform Hcol)
    as (_ & Hdone & Hreview).
  subst s'. unfold step in *. cbn [fst] in *.
  destruct (decide (computeChanges (existingEnvValues s.1) collected (envVars s.1)
                    = [])) as [Hnil|Hdiff].
  { rewrite (Hdone Hnil) in Hrev. discriminate Hrev. }
  destruct (Hreview Hdiff) as [_ ->].
  destruct (Forall2_lookup_l _ _ _ j envVar (fields_are_inputs s.1 Hs) Hj)
    as (f & Hf & [old ->]).
  apply (collect_lookup _ _ 0 ∅ collected j envVar text Hcol Hj); [|done].
  by apply (typeInto_lookup _ _ _ old).
Qed.

Lemma saved_value_witness :
  envValuesToSave (step (run testWorld []) (completes edited)).1
    !! ("KEY1" : gostring) = Some ("new value" : gostring).
Proof.
  apply (saved_value_is_the_typed_text testWorld [] (completes edited) 0
           (mkEnvVar "KEY1" "desc1" "example_val1") "new value");
    try (vm_compute; reflexivity).
  apply (bool_decide_unpack _). by vm_compute.
Defined.

(** ** The commit *)

(** X15: a commit over an existing [.env], where [.env.old] is not a
    directory, leaves the previous content of [.env] in [.env.old], makes
    [.env] the lines of the saved entries (key, equals sign, value as
    [outputValue] writes it, line feed), each entry once, in the order in
    which the execution ranges over the map, does not touch the template,
    prints the two lines about the backup and the line of success with its
    check mark, and ends in [Done]. *)
Theorem commit_backs_up_the_previous_file w0 events ev content :
  let s := run w0 events in
  let s' := step s ev in
  commits s.1 ev = true ->
  dotEnv (fs s.2) = Regular content -> dotEnvOld (fs s.2) <> Directory ->
  (exists kvs,
     kvs ≡ₚ map_to_list (envValuesToSave s.1)
     /\ fs s'.2
        = mkFS (dotEnvExample (fs s.2))
               (Regular (concat (map (fun kv => kv.1 ++ "=" ++ outputValue kv.2 ++ [LF])
                                     kvs)))
               (Regular content))
  /\ stdout s'.2
     = stdout s.2 ++ [Println "Backing up existing .env to .env.old...";
                      Println "Successfully backed up .env to .env.old.";
                      Println "✅ Successfully updated the .env file!"]
  /\ phase s'.1 = Done.
Proof.
  intros s s' Hcommit Henv Hold.
  pose proof (run_consistent w0 events) as Hs. fold s in Hs.
  destruct (Update_commits s.1 s.2 ev Hs Hcommit) as [Hw Hph].
  subst s'. unfold step. cbn [fst snd]. rewrite Hw. clear Hw.
  revert Hph. generalize (Update s.1 s.2 ev).1.1. intros m'.
  unfold actuallyWriteEnvFile, backupEnvFile, writeEnvFile, print.
  destruct s.2 as [[example target old] out order]. simpl in *. subst target.
  destruct old as [| |oldContent]; simpl; try done; intros ->;
    (split_and!;
       [exists (visit order (envValuesToSave s.1)); split;
          [apply visit_all|reflexivity]
       |by rewrite <- !app_assoc|done]).
Qed.

(** X16: a commit writes [.env] and ends in [Done] also without a backup:
    when there was no [.env], nothing is said about a backup; when [.env]
    is a file and [.env.old] a directory, the failed backup is only a
    warning. In both cases [.env.old] and the template stay as they were,
    [.env] becomes the lines of the saved entries (key, equals sign, value
    as [outputValue] writes it, line feed), each entry once, in the order in
    which the execution ranges over the map, and the last line printed is
    the line of success with its check mark. *)
Theorem commit_goes_on_without_a_backup w0 events ev :
  let s := run w0 events in
  let s' := step s ev in
  commits s.1 ev = true ->
  dotEnv (fs s.2) = Missing
  \/ (exists content, dotEnv (fs s.2) = Regular content)
     /\ dotEnvOld (fs s.2) = Directory ->
  (exists kvs,
     kvs ≡ₚ map_to_list (envValuesToSave s.1)
     /\ fs s'.2
        = mkFS (dotEnvExample (fs s.2))
               (Regular (concat (map (fun kv => kv.1 ++ "=" ++ outputValue kv.2 ++ [LF])
                                     kvs)))
               (dotEnvOld (fs s.2)))
  /\ stdout s'.2
     = stdout s.2
       ++ match dotEnv (fs s.2) with
          | Missing => []
          | _ => [Println "Backing up existing .env to .env.old...";
                  Printf "Warning: Failed to backup .env: %v"
                    (Errorf "failed to create destination file %s: %w" ErrIsDir)]
          end
       ++ [Println "✅ Successfully updated the .env file!"]
  /\ phase s'.1 = Done.
Proof.
  intros s s' Hcommit Hcase.
  pose proof (run_consistent w0 events) as Hs. fold s in Hs.
  destruct (Update_commits s.1 s.2 ev Hs Hcommit) as [Hw Hph].
  subst s'. unfold step. cbn [fst snd]. rewrite Hw. clear Hw.
  revert Hph. generalize (Update s.1 s.2 ev).1.1. intros m'.
  unfold actuallyWriteEnvFile, backupEnvFile, writeEnvFile, print.
  destruct s.2 as [[example target old] out order]. simpl in *.
  destruct Hcase as [->|[[content ->] ->]]; simpl; intros ->;
    (split_and!;
       [exists (visit order (envValuesToSave s.1)); split;
          [apply visit_all|reflexivity]
       |by rewrite <- ?app_assoc|done]).
Qed.

(** X17: a commit while [.env] is a directory changes no file, prints a
    warning and the error, and ends in [Failed] with the wrapped error of
    [os.Create]; nothing happens afterwards. *)
Theorem commit_into_a_directory_fails w0 events ev :
  let s := run w0 events in
  let s' := step s ev in
  commits s.1 ev = true -> dotEnv (fs s.2) = Directory ->
  fs s'.2 = fs s.2
  /\ stdout s'.2
     = stdout s.2
       ++ [Println "Warning: .env exists but is a directory. Skipping backup.";
           Printf "Error writing .env file: %v" ErrIsDir]
  /\ phase s'.1 = Failed (Errorf "error writing .env file: %w" ErrIsDir)
  /\ forall more, run w0 (events ++ ev :: more) = s'.
Proof.
  intros s s' Hcommit Hdir.
  pose proof (run_consistent w0 events) as Hs. fold s in Hs.
  destruct (Update_commits s.1 s.2 ev Hs Hcommit) as [Hw Hph].
  assert (phase s'.1 = Failed (Errorf "error writing .env file: %w" ErrIsDir)
          /\ s'.2 = (actuallyWriteEnvFile (envValuesToSave s.1) s.2).1)
    as [Hfailed Hworld].
  { subst s'. unfold step. cbn [fst snd]. split; [|done].
    revert Hph. generalize (Update s.1 s.2 ev).1.1. intros m'.
    unfold actuallyWriteEnvFile, writeEnvFile, print.
    destruct s.2 as [[example target old] out order]. simpl in *. subst target.
    simpl. done. }
  split_and!; [..|done|].
  - rewrite Hworld. unfold actuallyWriteEnvFile, writeEnvFile, print.
    destruct s.2 as [[example target old] out order]. simpl in *. by subst target.
  - rewrite Hworld. unfold actuallyWriteEnvFile, writeEnvFile, print.
    destruct s.2 as [[example target old] out order]. simpl in *. subst target.
    simpl. by rewrite <- app_assoc.
  - intros more.
    replace (events ++ ev :: more) with ((events ++ [ev]) ++ more)
      by (by rewrite <- app_assoc).
    rewrite run_terminal; rewrite run_snoc; fold s; fold s'; [done|..];
      by rewrite Hfailed.
Qed.

Lemma commit_backs_up_witness :
  (dotEnv (fs (step (run testWorld [completes edited]) confirms).2)
   = Regular ("KEY1=" ++ [DQUOTE] ++ "new value" ++ [DQUOTE; LF]
              ++ "KEY2=example_val2" ++ [LF])
   \/ dotEnv (fs (step (run testWorld [completes edited]) confirms).2)
      = Regular ("KEY2=example_val2" ++ [LF]
                 ++ "KEY1=" ++ [DQUOTE] ++ "new value" ++ [DQUOTE; LF]))
  /\ dotEnvOld (fs (step (run testWorld [completes edited]) confirms).2)
     = Regular ("KEY1=actual_val1" ++ [LF] ++ "KEY_NEW=new_val")
  /\ stdout (step (run testWorld [completes edited]) confirms).2
     = [Println "Backing up existing .env to .env.old...";
        Println "Successfully backed up .env to .env.old.";
        Println "✅ Successfully updated the .env file!"]
  /\ phase (step (run testWorld [completes edited]) confirms).1 = Done.
Proof.
  destruct (commit_backs_up_the_previous_file testWorld [completes edited] confirms
              ("KEY1=actual_val1" ++ [LF] ++ "KEY_NEW=new_val"))
    as ((kvs & Hperm & Hfs) & Hout & Hdone);
    [vm_compute; reflexivity..|by vm_compute|].
  split_and!; [|by rewrite Hfs|by rewrite Hout|exact Hdone].
  set (l := map_to_list _) in Hperm. vm_compute in l. subst l.
  rewrite Hfs. symmetry in Hperm.
  apply Permutation_length_2_inv in Hperm as [->| ->]; [right|left];
    reflexivity.
Defined.

Lemma commit_goes_on_witness :
  (dotEnv (fs (step (run freshWorld [completes edited]) confirms).2)
   = Regular ("KEY1=" ++ [DQUOTE] ++ "new value" ++ [DQUOTE; LF]
              ++ "KEY2=example_val2" ++ [LF])
   \/ dotEnv (fs (step (run freshWorld [completes edited]) confirms).2)
      = Regular ("KEY2=example_val2" ++ [LF]
                 ++ "KEY1=" ++ [DQUOTE] ++ "new value" ++ [DQUOTE; LF]))
  /\ dotEnvOld (fs (step (run freshWorld [completes edited]) confirms).2) = Directory
  /\ stdout (step (run freshWorld [completes edited]) confirms).2
     = [Println "✅ Successfully updated the .env file!"]
  /\ phase (step (run freshWorld [completes edited]) confirms).1 = Done.
Proof.
  destruct (commit_goes_on_without_a_backup freshWorld [completes edited] confirms)
    as ((kvs & Hperm & Hfs) & Hout & Hdone); [vm_compute; reflexivity|by left|].
  split_and!; [|by rewrite Hfs|by rewrite Hout|exact Hdone].
  set (l := map_to_list _) in Hperm. vm_compute in l. subst l.
  rewrite Hfs. symmetry in Hperm.
  apply Permutation_length_2_inv in Hperm as [->| ->]; [right|left];
    reflexivity.
Defined.

Lemma commit_into_a_directory_witness :
  fs (step (run directoryWorld [completes edited]) confirms).2 = fs directoryWorld
  /\ phase (step (run directoryWorld [completes edited]) confirms).1
     = Failed (Errorf "error writing .env file: %w" ErrIsDir).
Proof.
  destruct (commit_into_a_directory_fails directoryWorld [completes edited] confirms)
    as (Hfs & _ & Hfailed & _); [vm_compute; reflexivity..|].
  split; [by rewrite Hfs|exact Hfailed].
Defined.

(** What a commit leaves in [.env], and what that reads back as. *)
Lemma commit_read w0 events ev :
  let s := run w0 events in
  let s' := step s ev in
  commits s.1 ev = true -> dotEnv (fs s.2) <> Directory ->
  (forall k v, envValuesToSave s.1 !! k = Some v -> fits (k, v)) ->
  dotEnv (fs s'.2)
  = Regular (entries (visit (ranging s.2) (envValuesToSave s.1)))
  /\ readExistingEnvFile (dotEnv (fs s'.2)) = (readBack <$> envValuesToSave s.1, None).
Proof.
  intros s s' Hcommit Hdir Hfit.
  pose proof (run_consistent w0 events) as Hs. fold s in Hs.
  pose proof (run_keys w0 events) as Hkeys. fold s in Hkeys.
  destruct (Update_commits s.1 s.2 ev Hs Hcommit) as [Hw _].
  apply commits_true in Hcommit as (Hph & _).
  apply phase_Reviewing in Hph as (_ & _ & Hconf).
  destruct (confirming_diff _ Hs Hconf) as [_ Hdom].
  assert (dotEnv (fs s'.2)
          = Regular (entries (visit (ranging s.2) (envValuesToSave s.1))))
    as Hfile.
  { subst s'. unfold step. cbn [fst snd]. rewrite Hw.
    destruct (actuallyWrite_files (envValuesToSave s.1) s.2)
      as (backup & -> & _ & _).
    unfold writeEnvFile. simpl. by destruct (dotEnv (fs s.2)). }
  split; [done|]. rewrite Hfile. apply read_entries; [apply visit_all|].
  intros k v Hkv. split; [|by apply Hfit].
  rewrite Forall_forall in Hkeys. apply Hkeys.
  apply (elem_of_list_to_set (C:=gset gostring)). rewrite <- Hdom.
  apply elem_of_dom. by eexists.
Qed.

(** X18: after a commit ([.env] not a directory, lines within the limit of
    the scanner), reading the new [.env] yields the saved values as they
    read back, without error; so the field that a later [Init] over these
    files builds for a variable of the template shows the value read back,
    or the example value of the template when that value is empty. *)
Theorem committed_file_reads_back w0 events ev :
  let s := run w0 events in
  let s' := step s ev in
  commits s.1 ev = true -> dotEnv (fs s.2) <> Directory ->
  (forall k v, envValuesToSave s.1 !! k = Some v -> fits (k, v)) ->
  readExistingEnvFile (dotEnv (fs s'.2)) = (readBack <$> envValuesToSave s.1, None)
  /\ forall envVar,
       envVar ∈ envVars s.1 ->
       exists v, envValuesToSave s.1 !! Key envVar = Some v
                 /\ initialValue (readExistingEnvFile (dotEnv (fs s'.2))).1 envVar
                    = if bool_decide (readBack v = []) then ExampleValue envVar
                      else readBack v.
Proof.
  intros s s' Hcommit Hdir Hfit.
  destruct (commit_read w0 events ev Hcommit Hdir Hfit) as [_ Hread].
  fold s s' in Hread.
  pose proof (run_consistent w0 events) as Hs. fold s in Hs.
  apply commits_true in Hcommit as (Hph & _).
  apply phase_Reviewing in Hph as (_ & _ & Hconf).
  destruct (confirming_diff _ Hs Hconf) as [_ Hdom].
  split; [done|]. intros envVar Hin.
  assert (is_Some (envValuesToSave s.1 !! Key envVar)) as [v Hv].
  { apply elem_of_dom. rewrite Hdom. apply elem_of_list_to_set.
    unfold templateKeys. apply list_elem_of_fmap. by exists envVar. }
  exists v. split; [done|]. rewrite Hread. cbn [fst].
  unfold initialValue. rewrite lookup_fmap, Hv. simpl.
  repeat case_bool_decide; simpl; try congruence;
    match goal with H : ¬ is_Some (Some _) |- _ => by destruct H end.
Qed.

Lemma committed_file_witness :
  (readExistingEnvFile
     (dotEnv (fs (step (run testWorld [completes edited]) confirms).2))).1
    !! ("KEY1" : gostring) = Some ("new value" : gostring).
Proof.
  destruct (committed_file_reads_back testWorld [completes edited] confirms)
    as [Hread _].
  - vm_compute. reflexivity.
  - by vm_compute.
  - apply (map_Forall_to_list (fun k v => fits (k, v))).
    set (l := map_to_list _). vm_compute in l. subst l.
    repeat apply Forall_cons_2; [..|apply Forall_nil_2]; by_compute.
  - rewrite Hread. vm_compute. reflexivity.
Defined.

(** ** What no run touches *)

Lemma Update_template m w ev :
  consistent m ->
  dotEnvExample (fs (Update m w ev).1.2) = dotEnvExample (fs w)
  /\ exists more, stdout (Update m w ev).1.2 = stdout w ++ more.
Proof.
  intros Hm.
  destruct (phase_dec m) as [Hph|[Hph|[Hc Hr]]].
  - destruct (interrupts ev) eqn:Hint.
    { rewrite Update_interrupt by auto. split; [done|]. exists []. by rewrite app_nil_r. }
    rewrite Update_collecting by done.
    destruct (formAfter ev).
    + split; [done|]. exists []. by rewrite app_nil_r.
    + destruct (prepareForConfirmation _) as [m3 [e|]]; [|destruct (quitting m3)];
        (split; [done|]); exists []; by rewrite app_nil_r.
    + split; [done|]. by eexists.
  - pose proof (reviewing_form m Hm Hph) as Hcf.
    destruct (interrupts ev) eqn:Hint.
    { rewrite Update_interrupt by auto. split; [done|]. exists []. by rewrite app_nil_r. }
    rewrite Update_reviewing; [|done|by rewrite Hcf|done].
    destruct (formAfter ev).
    + split; [done|]. exists []. by rewrite app_nil_r.
    + destruct (choiceAfter ev); [|split; [done|]; by eexists].
      unfold actuallyWriteEnvFile, backupEnvFile, writeEnvFile, print.
      destruct w as [[example target old] out order]. simpl.
      destruct target as [| |content]; [| |destruct old]; simpl;
        (split; [done|]); rewrite <- ?app_assoc; by eexists.
    + split; [done|]. by eexists.
  - rewrite Update_early by done. split; [done|]. exists []. by rewrite app_nil_r.
Qed.

(** X19: no run changes [.env.example], and what a run prints is only
    ever added at the end of the output. *)
Theorem template_file_is_never_written w0 events :
  dotEnvExample (fs (run w0 events).2) = dotEnvExample (fs w0)
  /\ exists more, stdout (run w0 events).2 = stdout w0 ++ more.
Proof.
  induction events as [|ev events [IHfs [more IHout]]] using rev_ind.
  - change (run w0 []) with (Init initialModel w0).1.
    destruct (Init initialModel w0) as [[m w] cmd] eqn:HInit. cbn [fst snd].
    unfold Init in HInit.
    destruct (readEnvVarsFromFile (dotEnvExample (fs w0))) as [vars [e|]].
    { injection HInit as _ <- _. split; [done|]. exists []. by rewrite app_nil_r. }
    case_bool_decide.
    { injection HInit as _ <- _. split; [done|]. exists []. by rewrite app_nil_r. }
    destruct (readExistingEnvFile (dotEnv (fs w0))) as [existing [e|]];
      injection HInit as _ <- _; (split; [done|]).
    + by eexists.
    + exists []. by rewrite app_nil_r.
  - rewrite run_snoc. unfold step. cbn [fst].
    destruct (Update_template (run w0 events).1 (run w0 events).2 ev)
      as [Hfs [more' Hout]]; [apply run_consistent|].
    rewrite Hfs, Hout, IHfs, IHout. split; [done|].
    exists (more ++ more'). by rewrite app_assoc.
Qed.

(** ** A second run *)

Lemma typeInto_nil flds : typeInto flds [] = flds.
Proof. induction flds as [|[old|] flds IH]; simpl; by rewrite ?IH. Qed.

(** When every field shows a text that depends on its key only, that text
    is collected for the key. *)
Lemma collect_by_key (g : gostring -> gostring) vars flds : forall i acc,
  (forall j e, vars !! j = Some e -> flds !! (i + j) = Some (Input (g (Key e)))) ->
  exists c, collect i vars flds acc = inl c
            /\ forall e, e ∈ vars -> c !! Key e = Some (g (Key e)).
Proof.
  induction vars as [|var vars IH]; intros i acc Hall; simpl.
  - exists acc. split; [done|]. by intros e ?%elem_of_nil.
  - pose proof (Hall 0 var eq_refl) as H0. rewrite Nat.add_0_r in H0.
    rewrite H0.
    destruct (IH (S i) (<[Key var := g (Key var)]> acc)) as (c & Hc & Hlook).
    { intros j e Hj. replace (S i + j) with (i + S j) by lia. by apply Hall. }
    exists c. split; [done|]. intros e [->|He]%elem_of_cons; [|by apply Hlook].
    destruct (decide (Key var ∈ Key <$> vars)) as [Hin|Hnot].
    + apply list_elem_of_fmap in Hin as (e' & -> & He'). by apply Hlook.
    + rewrite (collect_other _ _ _ _ _ _ Hc Hnot). apply lookup_insert_eq.
Qed.

Lemma run_template w0 events :
  dotEnvExample (fs (run w0 events).2) = dotEnvExample (fs w0).
Proof.
  induction events as [|ev events IH] using rev_ind.
  - change (run w0 []) with (Init initialModel w0).1.
    destruct (Init initialModel w0) as [[m w] cmd] eqn:HInit.
    destruct (Init_cases _ _ _ _ HInit)
      as [(e & _ & _ & _ & _ & _ & _ & -> & _)
         |(lines & _ & _ & _ & _ & _ & _ & _ & _ & Hfs & _)]; [done|].
    cbn [fst snd]. by rewrite Hfs.
  - rewrite run_snoc. unfold step. cbn [fst].
    destruct (Update_template (run w0 events).1 (run w0 events).2 ev)
      as [-> _]; [apply run_consistent|done].
Qed.

(** The variables of a run that is past [Init] are those of the template. *)
Lemma run_vars w0 events :
  err (run w0 events).1 = None ->
  readEnvVarsFromFile (dotEnvExample (fs w0)) = (envVars (run w0 events).1, None)
  /\ envVars (run w0 events).1 <> [].
Proof.
  intros Herr. destruct (run_frame w0 events) as [-> _].
  assert (err (run w0 []).1 = None) as Herr0.
  { destruct (err (run w0 []).1) as [e|] eqn:He; [|done].
    assert (run w0 ([] ++ events) = run w0 []) as Hrun.
    { apply run_terminal; unfold phase; by rewrite He. }
    simpl in Hrun. rewrite Hrun in Herr. congruence. }
  revert Herr0. change (run w0 []) with (Init initialModel w0).1.
  destruct (Init initialModel w0) as [[m w] cmd] eqn:HInit. cbn [fst].
  destruct (Init_cases _ _ _ _ HInit)
    as [(e & He & _)|(lines & _ & Hread & Hne & _)]; [congruence|done].
Qed.

(** X20: the program is idempotent. When a run has committed ([.env] not a
    directory, lines within the limit of the scanner) and every saved value
    reads back as a non-empty value or belongs to a variable without example
    value, a second run over the files it left, in which the main form
    completes with every field as it was prefilled, finds nothing to change:
    it ends in [Done] without a confirmation, and touches no file and prints
    nothing. *)
Theorem second_run_has_nothing_to_change w0 events ev :
  let s := run w0 events in
  let s' := step s ev in
  commits s.1 ev = true -> dotEnv (fs s.2) <> Directory ->
  (forall k v, envValuesToSave s.1 !! k = Some v -> fits (k, v)) ->
  (forall envVar v,
     envVar ∈ envVars s.1 -> envValuesToSave s.1 !! Key envVar = Some v ->
     readBack v <> [] \/ ExampleValue envVar = []) ->
  let again := run s'.2 [completes []] in
  phase again.1 = Done /\ confirming again.1 = false /\ again.2 = s'.2.
Proof.
  intros s s' Hcommit Hdir Hfit Hshown again.
  destruct (commit_read w0 events ev Hcommit Hdir Hfit) as [_ Hread].
  fold s s' in Hread.
  pose proof (run_consistent w0 events) as Hs. fold s in Hs.
  pose proof Hcommit as (Hph & _)%commits_true.
  apply phase_Reviewing in Hph as (Herr & _ & Hconf).
  destruct (confirming_diff _ Hs Hconf) as [_ Hdom].
  destruct (run_vars w0 events Herr) as [Hvars Hne]. fold s in Hvars, Hne.
  assert (dotEnvExample (fs s'.2) = dotEnvExample (fs w0)) as Htemplate.
  { subst s' s. rewrite <- run_snoc. apply run_template. }
  set (existing := readBack <$> envValuesToSave s.1) in *.
  set (flds := map (fun envVar => Input (initialValue existing envVar)) (envVars s.1)).
  set (m1 := mkModel StateNormal (envVars s.1) existing flds 0 0 false None false
                     None ∅ true []).
  assert (Init initialModel s'.2 = (m1, s'.2, Batch)) as HInit.
  { unfold Init. rewrite Htemplate, Hvars, Hread.
    rewrite bool_decide_eq_false_2; [done|]. by destruct (envVars s.1). }
  assert (forall e, e ∈ envVars s.1 ->
            existing !! Key e = Some (initialValue existing e)) as Hsame.
  { intros e He.
    assert (is_Some (envValuesToSave s.1 !! Key e)) as [v Hv].
    { apply elem_of_dom. rewrite Hdom. apply elem_of_list_to_set.
      unfold templateKeys. apply list_elem_of_fmap. by exists e. }
    unfold initialValue, existing. rewrite lookup_fmap, Hv. simpl. f_equal.
    destruct (Hshown e v He Hv) as [Hfull|Hex];
      repeat case_bool_decide; simpl; try congruence;
      match goal with H : ¬ is_Some (Some _) |- _ => by destruct H end. }
  destruct (collect_by_key (fun k => default [] (existing !! k)) (envVars s.1) flds
              0 ∅) as (collected & Hcol & Hlook).
  { intros j e Hj. subst flds. simpl. rewrite list_lookup_fmap, Hj. simpl.
    rewrite (Hsame e); [done|]. by eapply list_elem_of_lookup_2. }
  assert (consistent m1) as Hm1.
  { pose proof (Init_consistent s'.2) as H. by rewrite HInit in H. }
  destruct (Update_completed m1 s'.2 (completes []) collected Hm1)
    as (Hw & Hdone & _); try done.
  { simpl. by rewrite typeInto_nil. }
  assert (again = (Update m1 s'.2 (completes [])).1) as ->.
  { subst again. unfold run. by rewrite HInit. }
  assert (phase (Update m1 s'.2 (completes [])).1.1 = Done) as Hphase.
  { apply Hdone. apply computeChanges_unchanged. apply Forall_forall.
    intros e He. simpl. rewrite (Hlook e He).
    destruct (existing !! Key e) as [x|] eqn:Hx; [done|].
    by rewrite (Hsame e He) in Hx. }
  split_and!; [done| |done].
  revert Hphase. rewrite Update_collecting by done. simpl.
  match goal with |- context [prepareForConfirmation ?x] => set (m2 := x) end.
  destruct (prepare_cases m2)
    as [(e & _ & ->)|[(c & _ & _ & ->)|(c & _ & _ & ->)]]; by simpl.
Qed.

Lemma second_run_witness :
  phase (run (step (run testWorld [completes edited]) confirms).2 [completes []]).1
  = Done.
Proof.
  apply (second_run_has_nothing_to_change testWorld [completes edited] confirms).
  - vm_compute. reflexivity.
  - by vm_compute.
  - apply (map_Forall_to_list (fun k v => fits (k, v))).
    set (l := map_to_list _). vm_compute in l. subst l.
    repeat apply Forall_cons_2; [..|apply Forall_nil_2]; by_compute.
  - intros envVar v Hin Hv. left.
    set (vars := envVars _) in Hin. vm_compute in vars. subst vars.
    repeat (apply elem_of_cons in Hin as [->|Hin]); [..|by apply elem_of_nil in Hin];
      vm_compute in Hv; injection Hv as <-; by vm_compute.
Defined.

(** ** The command *)

Lemma terminal_quit m : quitting m = true -> terminal m.
Proof.
  intros Hq. split.
  - by intros (_ & ? & _)%phase_Collecting; congruence.
  - by intros (_ & ? & _)%phase_Reviewing; congruence.
Qed.

Lemma terminal_err m e : err m = Some e -> terminal m.
Proof.
  intros He. split.
  - by intros (? & _)%phase_Collecting; congruence.
  - by intros (? & _)%phase_Reviewing; congruence.
Qed.

Lemma Update_command m w ev :
  consistent m -> (Update m w ev).2 = Quit <-> terminal (Update m w ev).1.1.
Proof.
  intros Hm.
  assert (forall m' : model, phase m' = Collecting \/ phase m' = Reviewing ->
                             Batch = Quit <-> terminal m') as Hgo.
  { intros m' Hph. split; [done|]. intros [? ?]. by destruct Hph. }
  destruct (phase_dec m) as [Hph|[Hph|[Hc Hr]]].
  - pose proof Hph as (Herr & Hquit & Hconf)%phase_Collecting.
    destruct (interrupts ev) eqn:Hint.
    { rewrite Update_interrupt by auto. split; [|done]. intros _.
      by apply terminal_quit. }
    rewrite Update_collecting by done.
    destruct (afterSwitch_fields m ev)
      as (Hf & Hv & Hx & Hfl & Hq & He & Hcf & Hcform & Hsv & Ha).
    destruct (formAfter ev) eqn:Hfa.
    + apply Hgo. left. apply phase_Collecting. simpl. by rewrite He, Hq, Hcf.
    + destruct (prepareForConfirmation _) as [m3 [e|]] eqn:Hprep.
      * split; [|done]. intros _. by apply terminal_quit.
      * destruct (quitting m3) eqn:Hq3.
        -- split; [|done]. intros _. by apply terminal_quit.
        -- apply Hgo. unfold prepareForConfirmation in Hprep.
           destruct (collect _ _ _ _) as [collected|e]; [|done].
           destruct (diffLoop _ _ _) as [diffLines []]; simpl in Hprep;
             injection Hprep as <-; [|done].
           right. apply phase_Reviewing. simpl. by rewrite He, Hq.
    + split; [|done]. intros _. by apply terminal_quit.
  - pose proof (reviewing_form m Hm Hph) as Hcf.
    pose proof Hph as (Herr & Hquit & Hconf)%phase_Reviewing.
    destruct (interrupts ev) eqn:Hint.
    { rewrite Update_interrupt by auto. split; [|done]. intros _.
      by apply terminal_quit. }
    rewrite Update_reviewing; [|done|by rewrite Hcf|done].
    destruct (afterSwitch_fields m ev)
      as (Hf & Hv & Hx & Hfl & Hq & He & Hc & Hcform & Hsv & Ha).
    destruct (formAfter ev) eqn:Hfa.
    + apply Hgo. right. apply phase_Reviewing. simpl. by rewrite He, Hq, Hc.
    + destruct (choiceAfter ev);
        [destruct (actuallyWriteEnvFile _ _) as [w' [e|]]|];
        (split; [|done]); intros _; by apply terminal_quit.
    + split; [|done]. intros _. by apply terminal_quit.
  - rewrite Update_early by done. by split.
Qed.

(** X21: [Init] and, along every run, [Update] return [tea.Quit] exactly
    when the model they leave is in [Done], [Aborted] or [Failed]; while the
    workflow is in [Collecting] or [Reviewing] they return the command of
    the form. *)
Theorem quit_is_returned_exactly_at_the_end w0 events ev :
  let s := run w0 events in
  ((Init initialModel w0).2 = Quit <-> terminal (run w0 []).1)
  /\ ((Update s.1 s.2 ev).2 = Quit <-> terminal (step s ev).1).
Proof.
  intros s. split; [|apply Update_command, run_consistent].
  change (run w0 []) with (Init initialModel w0).1.
  destruct (Init initialModel w0) as [[m w] cmd] eqn:HInit. cbn [fst snd].
  destruct (Init_cases _ _ _ _ HInit)
    as [(e & He & _ & _ & -> & _)|(lines & _ & _ & _ & _ & _ & Hph & _ & -> & _)].
  - split; [|done]. intros _. by apply (terminal_err m e).
  - split; [done|]. intros [? _]. done.
Qed.

(** ** Failures *)

(** The one error that [Update] can bring. *)
Lemma Update_err m w ev e :
  consistent m -> err m = None -> err (Update m w ev).1.1 = Some e ->
  commits m ev = true /\ dotEnv (fs w) = Directory
  /\ e = Errorf "error writing .env file: %w" ErrIsDir.
Proof.
  intros Hm Herr.
  destruct (phase_dec m) as [Hph|[Hph|[Hc Hr]]].
  - destruct (interrupts ev) eqn:Hint.
    { rewrite Update_interrupt by auto. simpl. congruence. }
    rewrite Update_collecting by done.
    destruct (afterSwitch_fields m ev)
      as (Hf & Hv & Hx & Hfl & Hq & He & Hcf & Hcform & Hsv & Ha).
    destruct (formAfter ev) eqn:Hfa; simpl; try congruence.
    match goal with |- context [prepareForConfirmation ?x] => set (m2 := x) end.
    destruct (prepare_cases m2)
      as [(e' & Hcol & ->)|[(c & Hcol & Hnil & ->)|(c & Hcol & Hdiff & ->)]].
    + destruct (collect_ok (envVars m2) (fields m2) 0 ∅) as [c Hc]; [|congruence].
      subst m2. simpl. rewrite Hv, Hfl.
      apply typeInto_inputs, (fields_are_inputs m Hm).
    + subst m2. simpl. congruence.
    + subst m2. simpl. destruct (quitting (afterSwitch m ev)); simpl; congruence.
  - pose proof (reviewing_form m Hm Hph) as Hcf.
    destruct (interrupts ev) eqn:Hint.
    { rewrite Update_interrupt by auto. simpl. congruence. }
    rewrite Update_reviewing; [|done|by rewrite Hcf|done].
    destruct (afterSwitch_fields m ev)
      as (Hf & Hv & Hx & Hfl & Hq & He & Hc & Hcform & Hsv & Ha).
    destruct (formAfter ev) eqn:Hfa; simpl; try congruence.
    destruct (choiceAfter ev) eqn:Hchoice; simpl; [|congruence].
    destruct (actuallyWrite_files (envValuesToSave m) w) as (backup & _ & Hres & _).
    destruct (actuallyWriteEnvFile (envValuesToSave m) w) as [w' [e'|]];
      simpl in *; [|congruence].
    intros [= <-]. split_and!.
    + by apply commits_true.
    + by destruct (dotEnv (fs w)).
    + destruct (dotEnv (fs w)); congruence.
  - rewrite Update_early by done. simpl. congruence.
Qed.

(** X22: along every run the model holds an error for one of three reasons
    only: the template could not be read, the template declares no variable,
    or a commit found a directory in the place of [.env]. So the cast error
    of [prepareForConfirmation] is never returned, and no field is missing
    and no form is nil where the program reaches for one. *)
Theorem failures_of_a_run w0 events e :
  err (run w0 events).1 = Some e ->
  (exists cause,
     (readEnvVarsFromFile (dotEnvExample (fs w0))).2 = Some cause
     /\ e = Errorf "Error reading .env.example: %w. Please create one to use as a template."
              cause)
  \/ (readEnvVarsFromFile (dotEnvExample (fs w0)) = ([], None)
      /\ e = ErrorsNew "No environment variables found in .env.example.")
  \/ (exists before ev after,
        events = before ++ ev :: after
        /\ commits (run w0 before).1 ev = true
        /\ dotEnv (fs (run w0 before).2) = Directory
        /\ e = Errorf "error writing .env file: %w" ErrIsDir).
Proof.
  induction events as [|ev events IH] using rev_ind.
  - change (run w0 []) with (Init initialModel w0).1. unfold Init.
    destruct (readEnvVarsFromFile (dotEnvExample (fs w0))) as [vars [cause|]] eqn:Hr.
    { simpl. intros [= <-]. left. by exists cause. }
    case_bool_decide as Hlen.
    { simpl. intros [= <-]. right. left. by destruct vars. }
    by destruct (readExistingEnvFile (dotEnv (fs w0))) as [existing [e'|]].
  - rewrite run_snoc. unfold step. cbn [fst].
    destruct (err (run w0 events).1) as [e'|] eqn:Herr.
    + rewrite Update_early; [|unfold phase; by rewrite Herr..].
      cbn [fst]. rewrite Herr. intros [= <-].
      destruct (IH eq_refl)
        as [?|[?|(before & ev' & after & -> & ? & ? & ?)]]; [by left|by right; left|].
      right. right. exists before, ev', (after ++ [ev]).
      by rewrite <- app_assoc.
    + intros Hnew.
      destruct (Update_err _ _ _ _ (run_consistent w0 events) Herr Hnew)
        as (Hcommit & Hdir & ->).
      right. right. by exists events, ev, [].
Qed.

Lemma failures_of_a_run_witness :
  exists before ev after,
    [completes edited; confirms] = before ++ ev :: after
    /\ commits (run directoryWorld before).1 ev = true
    /\ dotEnv (fs (run directoryWorld before).2) = Directory.
Proof.
  destruct (failures_of_a_run directoryWorld [completes edited; confirms]
              (Errorf "error writing .env file: %w" ErrIsDir))
    as [(cause & Hcause & _)|[[Hempty _]|(before & ev & after & H1 & H2 & H3 & _)]].
  - vm_compute. reflexivity.
  - vm_compute in Hcause. discriminate Hcause.
  - vm_compute in Hempty. discriminate Hempty.
  - by exists before, ev, after.
Defined.

(** ** [View] and [main] *)

Lemma diffLine_head r : head (diffLine r) = Some "+"%char \/ head (diffLine r) = Some "~"%char.
Proof. destruct r; simpl; auto. Qed.

Lemma Join_head e rest sep : e <> [] -> head (Join (e :: rest) sep) = head e.
Proof. intros He. destruct rest; simpl; [done|]. by destruct e. Qed.

Lemma summary_not_noChanges records :
  records <> [] -> Join (map diffLine records) [LF] <> noChanges.
Proof.
  destruct records as [|r records]; [done|]. intros _ Heq.
  apply (f_equal head) in Heq. cbn [map] in Heq.
  rewrite Join_head in Heq by (by destruct r).
  destruct (diffLine_head r) as [Hr|Hr]; rewrite Hr in Heq; discriminate Heq.
Qed.

(** The no-change summary marks the runs that ended with a completed main
    form and an empty diff. *)
Lemma noChanges_iff m :
  consistent m -> summarised m ->
  diffSummary m = noChanges <->
  err m = None /\ quitting m = true /\ confirming m = false
  /\ form m = StateCompleted.
Proof.
  intros Hm Hs. destruct (confirming m) eqn:Hconf.
  - destruct (review_summary m Hs Hconf) as [-> _].
    destruct (confirming_diff m Hm Hconf) as [Hdiff _].
    split; [|by intros (_ & _ & ? & _)].
    by intros ?%summary_not_noChanges.
  - rewrite (plain_summary m Hs Hconf).
    destruct (quitting m); simpl; [|split; [done|by intros (_ & ? & _)]].
    repeat case_bool_decide; simpl; split; try done; intuition congruence.
Qed.

(** X23: along every run, [View] shows the main form in [Collecting]; in
    [Reviewing] the heading, the lines of the computed diff, an empty line
    and the confirmation form; nothing in [Done] and [Aborted]; and the
    error in [Failed]. *)
Theorem view_follows_the_phase Error formView confirmFormView w0 events :
  let m := (run w0 events).1 in
  View Error formView confirmFormView m =
    match phase m with
    | Collecting => formView
    | Reviewing =>
        "Proposed changes:" ++ [LF]
          ++ Join (map diffLine
                     (computeChanges (existingEnvValues m) (envValuesToSave m)
                        (envVars m)))
                  [LF]
          ++ [LF; LF] ++ confirmFormView
    | Committing | Done | Aborted => []
    | Failed e => [LF] ++ "Error: " ++ Error e ++ [LF]
    end.
Proof.
  intros m. pose proof (run_consistent w0 events) as Hm.
  pose proof (run_summarised w0 events) as Hs. fold m in Hm, Hs.
  unfold View, phase. destruct (err m) as [e|]; [done|].
  destruct (quitting m); [by repeat case_match|].
  destruct (confirming m) eqn:Hconf; [|done].
  destruct (review_summary m Hs Hconf) as [-> _].
  by rewrite bool_decide_eq_true_2 by (by apply (confirming_form m Hm)).
Qed.

(** X24: whatever messages the program has handled, [main] prints the
    error of the final model when there is one (the text of the error plays
    no part in that), prints the no-change notice exactly when the run
    ended in [Done] without a confirmation, and nothing otherwise; without
    an error it never calls [os.Exit(1)]. *)
Theorem main_reports Error w0 events :
  let fm := (run w0 events).1 in
  main Error fm =
    match err fm with
    | Some e =>
        ([Printf "%v" e],
         Contains (Error e) ".env.example file not found"
         || Contains (Error e) "No environment variables found")
    | None =>
        if bool_decide (phase fm = Done) && negb (confirming fm)
        then ([Println "No changes to apply to .env file."], false)
        else ([], false)
    end.
Proof.
  intros fm.
  pose proof (noChanges_iff fm (run_consistent w0 events) (run_summarised w0 events))
    as Hno.
  unfold main, phase. destruct (err fm) as [e|] eqn:Herr.
  - rewrite bool_decide_eq_false_2; [|intros (? & _)%Hno; congruence].
    reflexivity.
  - destruct (confirming fm) eqn:Hconf.
    + by rewrite !andb_false_r.
    + rewrite !andb_true_r. case_bool_decide as Hsum.
      * pose proof Hsum as (_ & -> & _ & ->)%Hno. rewrite Hsum.
        by rewrite !bool_decide_eq_true_2.
      * destruct (quitting fm) eqn:Hq; [|by rewrite bool_decide_eq_false_2].
        rewrite bool_decide_eq_false_2; [done|].
        intros Hd. destruct Hsum. apply Hno. split_and!; try done.
        by case_bool_decide.
Qed.
